(** * The device core of wireguard-go: a shallow embedding

    The development follows [device.go] (device state machine, UDP bind
    lifecycle, peer set, private-key rotation, under-load detection) and
    [device/config.go] ([Reconfig], [endpointsEqual], [cidrsEqual]).

    Conventions of the embedding:

    - the device is a record that is passed explicitly; every Go method
      [func (device *Device) F(args) R] becomes [F args d : R * Device];
    - a [*Peer] is reachable from the device only through
      [device.peers.keyMap], where it is stored under one key; the embedding
      stores the peer record under that key and names the object by that
      key wherever the source passes the pointer around;
    - calls on collaborators whose code lives outside these two files
      (peer routines, the bind, the cookie checker, locks) are recorded, in
      program order, in the [trace] of the device;
    - [time.Now()] readings are arguments of the functions that take them. *)

From Stdlib Require Import ZArith NArith Ascii String List Lia.
From stdpp Require Import base decidable option list sorting gmap strings.

Local Open Scope Z_scope.
Local Open Scope list_scope.

(** ** Data model *)

(** [NoisePrivateKey] and [NoisePublicKey] are [[32]byte] arrays; a key is
    represented by the number its bytes spell. [Equals] is equality and
    [IsZero] is equality with the all-zero array. *)
Definition NoisePrivateKey := N.
Definition NoisePublicKey := N.

Definition NoisePrivateKey_IsZero (sk : NoisePrivateKey) : bool := bool_decide (sk = 0%N).

(** [time.Time] and [time.Duration], in nanoseconds; the zero [time.Time{}]
    is instant 0. *)
Definition Time := Z.
Definition Duration := Z.
Definition zeroTime : Time := 0.
Definition Time_Add (t : Time) (dt : Duration) : Time := t + dt.
Definition Time_After (t u : Time) : bool := bool_decide (u < t).

Inductive ipc_code :=
| IpcErrorPortInUse
| IpcErrorCode (n : Z).

Inductive error :=
| errors_New (msg : string)
| fmt_Errorf (format : string) (wrapped : error)
| IPCError (code : ipc_code)
| foreign_error (msg : string).

Definition ErrPortInUse : error :=
  fmt_Errorf "wireguard: local port in use: %w" (IPCError IpcErrorPortInUse).

(** [conn.Bind] and [rwcancel.RWCancel] values are handles. *)
Definition Bind := N.
Definition RWCancel := N.

(** [conn.Endpoint]: the configuration code only reads [Addrs()]. *)
Record Endpoint := mkEndpoint { Addrs : string }.

(** [netaddr.IP] and [netaddr.IPPrefix] are comparable value types. *)
Inductive IP :=
| IPv4 (a : N)
| IPv6 (a : N).

Record IPPrefix := mkIPPrefix { prefix_IP : IP; prefix_Bits : N }.

#[global] Instance IP_eq_dec : EqDecision IP.
Proof. solve_decision. Defined.

#[global] Instance IPPrefix_eq_dec : EqDecision IPPrefix.
Proof. solve_decision. Defined.

#[global] Instance IP_countable : Countable IP.
Proof.
  refine (inj_countable'
            (λ ip, match ip with IPv4 a => inl a | IPv6 a => inr a end)
            (λ s, match s with inl a => IPv4 a | inr a => IPv6 a end) _).
  intros []; reflexivity.
Defined.

#[global] Instance IPPrefix_countable : Countable IPPrefix.
Proof.
  refine (inj_countable' (λ p, (prefix_IP p, prefix_Bits p))
                         (λ q, mkIPPrefix q.1 q.2) _).
  intros []; reflexivity.
Defined.

Record Peer := mkPeer {
  handshake_remoteStatic : NoisePublicKey;
  handshake_precomputedStaticStatic : N;
  handshake_lastSentHandshake : Time;
  persistentKeepaliveInterval : Z;
  endpoint : option Endpoint;
  allowedIPs : list IPPrefix
}.

Inductive Mutex :=
| StateLock
| NetLock
| StaticIdentityLock
| PeersLock
| PeerLock (k : NoisePublicKey)
| HandshakeLock (k : NoisePublicKey).

Inductive Event :=
| EvLock (m : Mutex)
| EvUnlock (m : Mutex)
| EvRLock (m : Mutex)
| EvRUnlock (m : Mutex)
| EvPeerStart (k : NoisePublicKey)
| EvPeerStop (k : NoisePublicKey)
| EvSendKeepalive (k : NoisePublicKey)
| EvExpireCurrentKeypairs (k : NoisePublicKey)
| EvCookieCheckerInit (pk : NoisePublicKey)
| EvNetlinkCancel (c : RWCancel)
| EvBindClose (b : Bind)
| EvNetStoppingWait
| EvCreateBind (port : Z)
| EvStartRouteListener (b : Bind)
| EvBindSetMark (b : Bind) (mark : Z)
| EvClearSrc (k : NoisePublicKey)
| EvStartReceivers (b : Bind)
| EvNewPeer (k : NoisePublicKey)
| EvCreateEndpoint (k : NoisePublicKey) (s : string).

#[global] Instance Mutex_eq_dec : EqDecision Mutex.
Proof. solve_decision. Defined.

#[global] Instance Event_eq_dec : EqDecision Event.
Proof. solve_decision. Defined.

(** Modelled from the spec: the allowed-IPs structure ([allowedips.go] is not
    part of these sources) is "a longest-prefix-match structure mapping inner
    IPs to the peer authorized to source/sink them"; it is kept as the table
    of its routes, each owned by one peer. *)
Record Route := mkRoute { route_ip : IP; route_ones : N; route_peer : NoisePublicKey }.

Record Device := mkDevice {
  isUp : bool;
  isClosed : bool;
  skipBindUpdate : bool;
  state_changing : bool;
  state_current : bool;
  net_bind : option Bind;
  net_netlinkCancel : option RWCancel;
  net_port : Z;
  net_fwmark : Z;
  staticIdentity_privateKey : NoisePrivateKey;
  staticIdentity_publicKey : NoisePublicKey;
  peers_empty : bool;
  peers_keyMap : gmap NoisePublicKey Peer;
  allowedips : list Route;
  rate_underLoadUntil : Time;
  queue_handshake : list N;
  trace : list Event
}.

(** Collaborators of the device whose code is outside [device.go] and
    [config.go]: the Noise helpers, the constants, the callbacks installed
    by [NewDevice], the methods of the bind and of a peer that can fail, and
    the order in which a [range] statement walks a map (any order, which may
    depend on everything that happened before). *)
Class Env := {
  NoisePrivateKey_publicKey : NoisePrivateKey -> NoisePublicKey;
  NoisePrivateKey_sharedSecret : NoisePrivateKey -> NoisePublicKey -> N;
  UnderLoadQueueSize : nat;
  UnderLoadAfterTime : Duration;
  RekeyTimeout : Duration;
  createBind : Z -> Device -> (Bind * Z) + error;
  startRouteListener : Bind -> Device -> option RWCancel * option error;
  Bind_SetMark : Bind -> Z -> Device -> option error;
  Bind_Close : Bind -> Device -> option error;
  Peer_Start : NoisePublicKey -> Device -> option error;
  createEndpoint : NoisePublicKey -> string -> Device -> Endpoint + error;
  newPeer : NoisePublicKey -> Device -> Peer + error;
  rangeOrder : forall A : Type, Device -> gmap NoisePublicKey A -> list (NoisePublicKey * A);
  rangeOrder_perm : forall (A : Type) (d : Device) (m : gmap NoisePublicKey A),
      rangeOrder A d m ≡ₚ map_to_list m
}.

Arguments rangeOrder {_ _} d m.

(** ** Field updates *)

Definition set_isUp (v : bool) (d : Device) : Device :=
  mkDevice v (isClosed d) (skipBindUpdate d) (state_changing d) (state_current d)
    (net_bind d) (net_netlinkCancel d) (net_port d) (net_fwmark d)
    (staticIdentity_privateKey d) (staticIdentity_publicKey d)
    (peers_empty d) (peers_keyMap d) (allowedips d) (rate_underLoadUntil d)
    (queue_handshake d) (trace d).

Definition set_state_changing (v : bool) (d : Device) : Device :=
  mkDevice (isUp d) (isClosed d) (skipBindUpdate d) v (state_current d)
    (net_bind d) (net_netlinkCancel d) (net_port d) (net_fwmark d)
    (staticIdentity_privateKey d) (staticIdentity_publicKey d)
    (peers_empty d) (peers_keyMap d) (allowedips d) (rate_underLoadUntil d)
    (queue_handshake d) (trace d).

Definition set_state_current (v : bool) (d : Device) : Device :=
  mkDevice (isUp d) (isClosed d) (skipBindUpdate d) (state_changing d) v
    (net_bind d) (net_netlinkCancel d) (net_port d) (net_fwmark d)
    (staticIdentity_privateKey d) (staticIdentity_publicKey d)
    (peers_empty d) (peers_keyMap d) (allowedips d) (rate_underLoadUntil d)
    (queue_handshake d) (trace d).

Definition set_net_bind (v : option Bind) (d : Device) : Device :=
  mkDevice (isUp d) (isClosed d) (skipBindUpdate d) (state_changing d) (state_current d)
    v (net_netlinkCancel d) (net_port d) (net_fwmark d)
    (staticIdentity_privateKey d) (staticIdentity_publicKey d)
    (peers_empty d) (peers_keyMap d) (allowedips d) (rate_underLoadUntil d)
    (queue_handshake d) (trace d).

Definition set_net_netlinkCancel (v : option RWCancel) (d : Device) : Device :=
  mkDevice (isUp d) (isClosed d) (skipBindUpdate d) (state_changing d) (state_current d)
    (net_bind d) v (net_port d) (net_fwmark d)
    (staticIdentity_privateKey d) (staticIdentity_publicKey d)
    (peers_empty d) (peers_keyMap d) (allowedips d) (rate_underLoadUntil d)
    (queue_handshake d) (trace d).

Definition set_net_port (v : Z) (d : Device) : Device :=
  mkDevice (isUp d) (isClosed d) (skipBindUpdate d) (state_changing d) (state_current d)
    (net_bind d) (net_netlinkCancel d) v (net_fwmark d)
    (staticIdentity_privateKey d) (staticIdentity_publicKey d)
    (peers_empty d) (peers_keyMap d) (allowedips d) (rate_underLoadUntil d)
    (queue_handshake d) (trace d).

Definition set_staticIdentity (sk : NoisePrivateKey) (pk : NoisePublicKey) (d : Device) : Device :=
  mkDevice (isUp d) (isClosed d) (skipBindUpdate d) (state_changing d) (state_current d)
    (net_bind d) (net_netlinkCancel d) (net_port d) (net_fwmark d)
    sk pk
    (peers_empty d) (peers_keyMap d) (allowedips d) (rate_underLoadUntil d)
    (queue_handshake d) (trace d).

Definition set_peers_empty (v : bool) (d : Device) : Device :=
  mkDevice (isUp d) (isClosed d) (skipBindUpdate d) (state_changing d) (state_current d)
    (net_bind d) (net_netlinkCancel d) (net_port d) (net_fwmark d)
    (staticIdentity_privateKey d) (staticIdentity_publicKey d)
    v (peers_keyMap d) (allowedips d) (rate_underLoadUntil d)
    (queue_handshake d) (trace d).

Definition set_peers_keyMap (v : gmap NoisePublicKey Peer) (d : Device) : Device :=
  mkDevice (isUp d) (isClosed d) (skipBindUpdate d) (state_changing d) (state_current d)
    (net_bind d) (net_netlinkCancel d) (net_port d) (net_fwmark d)
    (staticIdentity_privateKey d) (staticIdentity_publicKey d)
    (peers_empty d) v (allowedips d) (rate_underLoadUntil d)
    (queue_handshake d) (trace d).

Definition set_allowedips (v : list Route) (d : Device) : Device :=
  mkDevice (isUp d) (isClosed d) (skipBindUpdate d) (state_changing d) (state_current d)
    (net_bind d) (net_netlinkCancel d) (net_port d) (net_fwmark d)
    (staticIdentity_privateKey d) (staticIdentity_publicKey d)
    (peers_empty d) (peers_keyMap d) v (rate_underLoadUntil d)
    (queue_handshake d) (trace d).

Definition set_rate_underLoadUntil (v : Time) (d : Device) : Device :=
  mkDevice (isUp d) (isClosed d) (skipBindUpdate d) (state_changing d) (state_current d)
    (net_bind d) (net_netlinkCancel d) (net_port d) (net_fwmark d)
    (staticIdentity_privateKey d) (staticIdentity_publicKey d)
    (peers_empty d) (peers_keyMap d) (allowedips d) v
    (queue_handshake d) (trace d).

Definition set_trace (v : list Event) (d : Device) : Device :=
  mkDevice (isUp d) (isClosed d) (skipBindUpdate d) (state_changing d) (state_current d)
    (net_bind d) (net_netlinkCancel d) (net_port d) (net_fwmark d)
    (staticIdentity_privateKey d) (staticIdentity_publicKey d)
    (peers_empty d) (peers_keyMap d) (allowedips d) (rate_underLoadUntil d)
    (queue_handshake d) v.

(** [emit e d] records one call on a collaborator; [emits] records several,
    first to last. *)
Definition emit (e : Event) (d : Device) : Device := set_trace (trace d ++ [e]) d.
Definition emits (es : list Event) (d : Device) : Device := set_trace (trace d ++ es) d.

Definition set_precomputedStaticStatic (v : N) (p : Peer) : Peer :=
  mkPeer (handshake_remoteStatic p) v (handshake_lastSentHandshake p)
    (persistentKeepaliveInterval p) (endpoint p) (allowedIPs p).

Definition set_lastSentHandshake (v : Time) (p : Peer) : Peer :=
  mkPeer (handshake_remoteStatic p) (handshake_precomputedStaticStatic p) v
    (persistentKeepaliveInterval p) (endpoint p) (allowedIPs p).

Definition set_persistentKeepaliveInterval (v : Z) (p : Peer) : Peer :=
  mkPeer (handshake_remoteStatic p) (handshake_precomputedStaticStatic p)
    (handshake_lastSentHandshake p) v (endpoint p) (allowedIPs p).

Definition set_endpoint (v : option Endpoint) (p : Peer) : Peer :=
  mkPeer (handshake_remoteStatic p) (handshake_precomputedStaticStatic p)
    (handshake_lastSentHandshake p) (persistentKeepaliveInterval p) v (allowedIPs p).

Definition set_allowedIPs (v : list IPPrefix) (p : Peer) : Peer :=
  mkPeer (handshake_remoteStatic p) (handshake_precomputedStaticStatic p)
    (handshake_lastSentHandshake p) (persistentKeepaliveInterval p) (endpoint p) v.

(** ** device.go *)

(** The format of the error of a failed bind update; it ends in a newline. *)
Definition bindUpdateFormat : string :=
  ("unable to update bind: %w" ++ String (ascii_of_nat 10) "")%string.

Section device_go.
Context `{!Env}.

Definition AllowedIPs_RemoveByPeer (peer : NoisePublicKey) (t : list Route) : list Route :=
  filter (λ r, route_peer r ≠ peer) t.

Definition AllowedIPs_Insert (ip : IP) (ones : N) (peer : NoisePublicKey) (t : list Route)
  : list Route :=
  mkRoute ip ones peer :: filter (λ r, ¬ (route_ip r = ip ∧ route_ones r = ones)) t.

Definition unsafeRemovePeer (peer key : NoisePublicKey) (d : Device) : Device :=
  (* stop routing of packets *)
  let d := set_allowedips (AllowedIPs_RemoveByPeer peer (allowedips d)) d in
  (* remove from peer map *)
  let d := set_peers_keyMap (delete key (peers_keyMap d)) d in
  set_peers_empty (bool_decide (size (peers_keyMap d) = 0%nat)) d.

(** *** UDP bind *)

Definition unsafeCloseBind (d : Device) : option error * Device :=
  let d := match net_netlinkCancel d with
           | Some c => emit (EvNetlinkCancel c) d
           | None => d
           end in
  let '(err, d) := match net_bind d with
                   | Some b => (Bind_Close b d, set_net_bind None (emit (EvBindClose b) d))
                   | None => (None, d)
                   end in
  (err, emit EvNetStoppingWait d).

(** The loop "clear cached source addresses": every peer is locked, its
    unlock is deferred to the end of the calling function, and the source
    of a non-nil endpoint is cleared. The result lists the deferred unlocks,
    latest first. *)
Fixpoint clearSrc (ps : list (NoisePublicKey * Peer)) (deferred : list Event) (d : Device)
  : list Event * Device :=
  match ps with
  | [] => (deferred, d)
  | (k, peer) :: rest =>
      let d := emit (EvLock (PeerLock k)) d in
      let d := match endpoint peer with
               | Some _ => emit (EvClearSrc k) d
               | None => d
               end in
      clearSrc rest (EvUnlock (PeerLock k) :: deferred) d
  end.

Definition BindUpdate (d : Device) : option error * Device :=
  let d := emit (EvLock NetLock) d in
  (* defer device.net.Unlock() *)
  let unlocked (r : option error * Device) := (r.1, emit (EvUnlock NetLock) r.2) in
  if skipBindUpdate d && bool_decide (net_bind d ≠ None) then unlocked (None, d)
  else
    (* close existing sockets *)
    match unsafeCloseBind d with
    | (Some err, d) => unlocked (Some err, d)
    | (None, d) =>
        (* open new sockets *)
        if isUp d then
          (* bind to new port *)
          match createBind (net_port d) d with
          | inr err =>
              unlocked (Some err, set_net_port 0 (set_net_bind None (emit (EvCreateBind (net_port d)) d)))
          | inl (b, p) =>
              let d := set_net_port p (set_net_bind (Some b) (emit (EvCreateBind (net_port d)) d)) in
              let '(cancel, rerr) := startRouteListener b d in
              let d := set_net_netlinkCancel cancel (emit (EvStartRouteListener b) d) in
              match rerr with
              | Some err =>
                  unlocked (Some err, set_net_port 0 (set_net_bind None (emit (EvBindClose b) d)))
              | None =>
                  (* set fwmark *)
                  let '(merr, d) :=
                    if bool_decide (net_fwmark d ≠ 0)
                    then (Bind_SetMark b (net_fwmark d) d, emit (EvBindSetMark b (net_fwmark d)) d)
                    else (None, d) in
                  match merr with
                  | Some err => unlocked (Some err, d)
                  | None =>
                      (* clear cached source addresses *)
                      let d := emit (EvRLock PeersLock) d in
                      let '(deferred, d) := clearSrc (rangeOrder d (peers_keyMap d)) [] d in
                      let d := emit (EvRUnlock PeersLock) d in
                      (* start receiving routines *)
                      let d := emit (EvStartReceivers b) d in
                      unlocked (None, emits deferred d)
                  end
              end
          end
        else unlocked (None, d)
    end.

Definition BindClose (d : Device) : option error * Device :=
  let d := emit (EvLock NetLock) d in
  let '(err, d) := unsafeCloseBind d in
  (err, emit (EvUnlock NetLock) d).

(** *** Device state machine *)

(** The loop of the case [newIsUp = true]: start every peer, stop at the
    first failure, send a keepalive where persistent keepalive is on. *)
Fixpoint startPeers (ps : list (NoisePublicKey * Peer)) (d : Device) : option error * Device :=
  match ps with
  | [] => (None, d)
  | (k, peer) :: rest =>
      match Peer_Start k d with
      | Some err => (Some err, emit (EvPeerStart k) d)
      | None =>
          let d := emit (EvPeerStart k) d in
          let d := if bool_decide (0 < persistentKeepaliveInterval peer)
                   then emit (EvSendKeepalive k) d else d in
          startPeers rest d
      end
  end.

(** [deviceUpdateState] calls itself after every applied transition; [fuel]
    bounds the number of nested calls and [None] means the bound was hit. *)
Fixpoint deviceUpdateState (fuel : nat) (d : Device) : option (option error * Device) :=
  match fuel with
  | O => None
  | S fuel =>
      (* check if state already being updated (guard) *)
      if state_changing d then Some (None, d)
      else
        let d := set_state_changing true d in
        (* compare to current state of device *)
        let d := emit (EvLock StateLock) d in
        let newIsUp := isUp d in
        if bool_decide (newIsUp = state_current d) then
          let d := set_state_changing false d in
          Some (None, emit (EvUnlock StateLock) d)
        else
          (* change state of device *)
          let applied : (option error * Device) :=
            if newIsUp then
              match BindUpdate d with
              | (Some err, d) =>
                  let d := set_isUp false d in
                  let d := emit (EvUnlock StateLock) d in
                  (Some (fmt_Errorf bindUpdateFormat err), d)
              | (None, d) =>
                  let d := emit (EvRLock PeersLock) d in
                  match startPeers (rangeOrder d (peers_keyMap d)) d with
                  | (Some err, d) =>
                      let d := emit (EvUnlock StateLock) d in
                      let d := emit (EvRUnlock PeersLock) d in
                      (Some err, d)
                  | (None, d) => (None, emit (EvRUnlock PeersLock) d)
                  end
              end
            else
              let '(_, d) := BindClose d in
              let d := emit (EvRLock PeersLock) d in
              let d := emits (EvPeerStop <$> (rangeOrder d (peers_keyMap d)).*1) d in
              (None, emit (EvRUnlock PeersLock) d) in
          match applied with
          | (Some err, d) => Some (Some err, d)
          | (None, d) =>
              (* update state variables *)
              let d := set_state_current newIsUp d in
              let d := set_state_changing false d in
              let d := emit (EvUnlock StateLock) d in
              (* check for state change in the mean time *)
              deviceUpdateState fuel d
          end
  end.

Definition Up (fuel : nat) (d : Device) : option (option error * Device) :=
  (* closed device cannot be brought up *)
  if isClosed d then Some (Some (errors_New "device is closed"), d)
  else deviceUpdateState fuel (set_isUp true d).

Definition Down (fuel : nat) (d : Device) : option (option error * Device) :=
  deviceUpdateState fuel (set_isUp false d).

(** *** Under-load detection *)

Definition IsUnderLoad (now : Time) (d : Device) : bool * Device :=
  (* check if currently under load *)
  let underLoad := bool_decide (UnderLoadQueueSize ≤ length (queue_handshake d))%nat in
  if underLoad then
    (true, set_rate_underLoadUntil (Time_Add now UnderLoadAfterTime) d)
  else
    (* check if recently under load *)
    let until := rate_underLoadUntil d in
    (Time_After until now, d).

(** *** Private key *)

(** The loop "remove peers with matching public keys"; the result lists
    [peersToStop]. *)
Fixpoint removeSelfPeers (publicKey : NoisePublicKey) (ps : list (NoisePublicKey * Peer))
    (d : Device) : list NoisePublicKey * Device :=
  match ps with
  | [] => ([], d)
  | (key, peer) :: rest =>
      if bool_decide (handshake_remoteStatic peer = publicKey) then
        let d := unsafeRemovePeer key key d in
        let '(peersToStop, d) := removeSelfPeers publicKey rest d in
        (key :: peersToStop, d)
      else removeSelfPeers publicKey rest d
  end.

(** The body of the loop "do static-static DH pre-computations". *)
Definition precompute (sk : NoisePrivateKey) (peer : Peer) : Peer :=
  set_precomputedStaticStatic
    (NoisePrivateKey_sharedSecret sk (handshake_remoteStatic peer)) peer.

Definition precomputeStaticStatic (ps : list NoisePublicKey) (d : Device) : Device :=
  foldl (λ d k,
           set_peers_keyMap
             (alter (precompute (staticIdentity_privateKey d)) k (peers_keyMap d)) d)
        d ps.

Definition SetPrivateKey (sk : NoisePrivateKey) (d : Device) : option error * Device :=
  (* lock required resources *)
  let d := emit (EvLock StaticIdentityLock) d in
  if bool_decide (sk = staticIdentity_privateKey d) then
    (* deferred: staticIdentity.Unlock(), then Stop on an empty peersToStop *)
    (None, emit (EvUnlock StaticIdentityLock) d)
  else
    let d := emit (EvLock PeersLock) d in
    let lockedPeers := (rangeOrder d (peers_keyMap d)).*1 in
    let d := emits ((λ k, EvRLock (HandshakeLock k)) <$> lockedPeers) d in
    (* remove peers with matching public keys *)
    let publicKey := if NoisePrivateKey_IsZero sk then 0%N
                     else NoisePrivateKey_publicKey sk in
    let '(peersToStop, d) := removeSelfPeers publicKey (rangeOrder d (peers_keyMap d)) d in
    (* update key material *)
    let d := set_staticIdentity sk publicKey d in
    let d := emit (EvCookieCheckerInit publicKey) d in
    (* do static-static DH pre-computations *)
    let expiredPeers := (rangeOrder d (peers_keyMap d)).*1 in
    let d := precomputeStaticStatic expiredPeers d in
    let d := emits ((λ k, EvRUnlock (HandshakeLock k)) <$> lockedPeers) d in
    let d := emits (EvExpireCurrentKeypairs <$> expiredPeers) d in
    (* deferred: peers.Unlock(), staticIdentity.Unlock(), Stop on peersToStop *)
    let d := emit (EvUnlock PeersLock) d in
    let d := emit (EvUnlock StaticIdentityLock) d in
    (None, emits (EvPeerStop <$> peersToStop) d).

(** *** Peer set *)

Definition LookupPeer (pk : NoisePublicKey) (d : Device) : option Peer * Device :=
  let d := emit (EvRLock PeersLock) d in
  (peers_keyMap d !! pk, emit (EvRUnlock PeersLock) d).

Definition RemovePeer (key : NoisePublicKey) (d : Device) : Device :=
  let d := emit (EvLock PeersLock) d in
  let peer := peers_keyMap d !! key in
  let d := if peer is Some _ then unsafeRemovePeer key key d else d in
  let d := emit (EvUnlock PeersLock) d in
  if peer is Some _ then emit (EvPeerStop key) d else d.

Definition RemoveAllPeers (d : Device) : Device :=
  let d := emit (EvLock PeersLock) d in
  let peersToStop := (rangeOrder d (peers_keyMap d)).*1 in
  let d := foldl (λ d key, unsafeRemovePeer key key d) d peersToStop in
  let d := set_peers_keyMap ∅ d in
  (* deferred: peers.Unlock(), then Stop on peersToStop *)
  let d := emit (EvUnlock PeersLock) d in
  emits (EvPeerStop <$> peersToStop) d.

End device_go.

(** ** config.go *)

(** [wgcfg.Peer] and [wgcfg.Config], with the fields [Reconfig] reads. *)
Record wgcfg_Peer := mkCfgPeer {
  PublicKey : NoisePublicKey;
  Endpoints : string;
  AllowedIPs : list IPPrefix;
  PersistentKeepalive : Z
}.

Record Config := mkConfig {
  PrivateKey : NoisePrivateKey;
  ListenPort : Z;
  Peers : list wgcfg_Peer
}.

(** [strings.Split(s, sep)] for a separator of one byte: the pieces of [s]
    between the separators, always at least one piece. *)
Fixpoint strings_Split (s : string) (sep : ascii) : list string :=
  match s with
  | EmptyString => [EmptyString]
  | String c rest =>
      if bool_decide (c = sep) then EmptyString :: strings_Split rest sep
      else match strings_Split rest sep with
           | piece :: pieces => String c piece :: pieces
           | [] => [String c EmptyString]
           end
  end.

(** [strings.Join(elems, sep)]. *)
Fixpoint strings_Join (elems : list string) (sep : string) : string :=
  match elems with
  | [] => EmptyString
  | [e] => e
  | e :: rest => (e ++ sep ++ strings_Join rest sep)%string
  end.

(** Go compares strings byte by byte; [sort.Strings] leaves the slice in
    increasing order. Equal strings cannot be told apart, so the result is
    the one sorted rearrangement of the input. *)
Definition string_le (s t : string) : Prop := String.leb s t = true.

#[global] Instance string_le_dec : RelDecision string_le.
Proof. intros s t. unfold string_le. apply _. Defined.

Definition sort_Strings (xs : list string) : list string := merge_sort string_le xs.

Definition comma : ascii := ","%char.

Definition endpointsEqual (x y : string) : bool :=
  (* Cheap comparisons. *)
  if bool_decide (x = y) then true
  else
    let xs := strings_Split x comma in
    let ys := strings_Split y comma in
    if negb (bool_decide (length xs = length ys)) then false
    else
      (* Otherwise, see if they're the same, but out of order. *)
      let xs := sort_Strings xs in
      let ys := sort_Strings ys in
      let x := strings_Join xs "," in
      let y := strings_Join ys "," in
      bool_decide (x = y).

(** The loop "First see if they're equal in order"; it reads [y[i]] for every
    index [i] of [x], which exists because the lengths were compared. *)
Fixpoint exactInOrder (x y : list IPPrefix) : bool :=
  match x, y with
  | [], _ => true
  | a :: x', b :: y' => if bool_decide (a ≠ b) then false else exactInOrder x' y'
  | _ :: _, [] => false
  end.

Definition cidrsEqual (x y : list IPPrefix) : bool :=
  if negb (bool_decide (length x = length y)) then false
  else
    (* First see if they're equal in order, without allocating. *)
    if exactInOrder x y then true
    else
      (* Otherwise, see if they're the same, but out of order. *)
      let m : gmap IPPrefix bool := foldl (λ m v, <[v := true]> m) ∅ x in
      forallb (λ v, default false (m !! v)) y.

Section config_go.
Context `{!Env}.

(** Modelled from the spec: [NewPeer] lives in [device/peer.go], which is not
    part of these sources; "if not present, create a new Peer". The fresh
    peer record (or the failure) comes from [newPeer]; on success it is
    stored in the peer map under its key. *)
Definition NewPeer (pk : NoisePublicKey) (d : Device) : (Peer + error) * Device :=
  match newPeer pk d with
  | inr err => (inr err, emit (EvNewPeer pk) d)
  | inl peer =>
      let d := emit (EvNewPeer pk) d in
      let d := set_peers_keyMap (<[pk := peer]> (peers_keyMap d)) d in
      (inl peer, set_peers_empty false d)
  end.

Definition storePeer (pk : NoisePublicKey) (peer : Peer) (d : Device) : Device :=
  set_peers_keyMap (<[pk := peer]> (peers_keyMap d)) d.

(** "Remove any current peers not in the new configuration." *)
Definition removeOldPeers (cfg : Config) (d : Device) : Device :=
  let d := emit (EvRLock PeersLock) d in
  let oldPeers : gmap NoisePublicKey bool :=
    foldl (λ m kp, <[kp.1 := true]> m) ∅ (rangeOrder d (peers_keyMap d)) in
  let d := emit (EvRUnlock PeersLock) d in
  let oldPeers := foldl (λ m p, delete (PublicKey p) m) oldPeers (Peers cfg) in
  foldl (λ d k, RemovePeer k d) d (rangeOrder d oldPeers).*1.

Definition resetPrivateKey (cfg : Config) (d : Device) : option error * Device :=
  let d := emit (EvLock StaticIdentityLock) d in
  let curPrivKey := staticIdentity_privateKey d in
  let d := emit (EvUnlock StaticIdentityLock) d in
  if negb (bool_decide (curPrivKey = PrivateKey cfg)) then SetPrivateKey (PrivateKey cfg) d
  else (None, d).

Definition setListenPort (cfg : Config) (d : Device) : Device :=
  let d := emit (EvLock NetLock) d in
  let d := set_net_port (ListenPort cfg) d in
  emit (EvUnlock NetLock) d.

Definition insertAllowedIPs (peer : NoisePublicKey) (ips : list IPPrefix) (d : Device) : Device :=
  foldl (λ d allowedIP,
           set_allowedips
             (AllowedIPs_Insert (prefix_IP allowedIP) (prefix_Bits allowedIP) peer (allowedips d)) d)
        d ips.

(** One round of the loop over [cfg.Peers]; [nk] is [newKeepalivePeers]. *)
Definition reconfigPeer (now : Time) (p : wgcfg_Peer)
    (d : Device) (nk : gmap NoisePublicKey NoisePublicKey)
  : option error * (Device * gmap NoisePublicKey NoisePublicKey) :=
  let pk := PublicKey p in
  let '(found, d) := LookupPeer pk d in
  let created : (Peer + error) * (Device * gmap NoisePublicKey NoisePublicKey) :=
    match found with
    | Some peer => (inl peer, (d, nk))
    | None =>
        match NewPeer pk d with
        | (inr err, d) => (inr err, (d, nk))
        | (inl peer, d) =>
            let nk := if bool_decide (PersistentKeepalive p ≠ 0) && isUp d
                      then <[pk := pk]> nk else nk in
            (inl peer, (d, nk))
        end
    end in
  match created with
  | (inr err, st) => (Some err, st)
  | (inl peer, (d, nk)) =>
      let d := emit (EvLock (PeerLock pk)) d in
      let peer := set_persistentKeepaliveInterval (PersistentKeepalive p) peer in
      let d := storePeer pk peer d in
      let changeEndpoint :=
        negb (bool_decide (Endpoints p = EmptyString))
        && match endpoint peer with
           | None => true
           | Some ep => negb (endpointsEqual (Endpoints p) (Addrs ep))
           end in
      let replaced : option error * (Peer * Device * gmap NoisePublicKey NoisePublicKey) :=
        if changeEndpoint then
          match createEndpoint pk (Endpoints p) d with
          | inr err =>
              let d := emit (EvCreateEndpoint pk (Endpoints p)) d in
              (Some err, (peer, emit (EvUnlock (PeerLock pk)) d, nk))
          | inl ep =>
              let d := emit (EvCreateEndpoint pk (Endpoints p)) d in
              let peer := set_endpoint (Some ep) peer in
              let d := storePeer pk peer d in
              if bool_decide (PersistentKeepalive p ≠ 0) && isUp d then
                let nk := <[pk := pk]> nk in
                (* Make sure the new handshake will get fired. *)
                let d := emit (EvLock (HandshakeLock pk)) d in
                let peer := set_lastSentHandshake (Time_Add now (- RekeyTimeout)) peer in
                let d := storePeer pk peer d in
                let d := emit (EvUnlock (HandshakeLock pk)) d in
                (None, (peer, d, nk))
              else (None, (peer, d, nk))
          end
        else (None, (peer, d, nk)) in
      match replaced with
      | (Some err, (_, d, nk)) => (Some err, (d, nk))
      | (None, (peer, d, nk)) =>
          let allowedIPsChanged := negb (cidrsEqual (allowedIPs peer) (AllowedIPs p)) in
          let peer := if allowedIPsChanged then set_allowedIPs (AllowedIPs p) peer else peer in
          let d := storePeer pk peer d in
          let d := emit (EvUnlock (PeerLock pk)) d in
          let d := if allowedIPsChanged
                   then set_allowedips (AllowedIPs_RemoveByPeer pk (allowedips d)) d
                   else d in
          (None, (insertAllowedIPs pk (AllowedIPs p) d, nk))
      end
  end.

Fixpoint reconfigPeers (now : Time) (ps : list wgcfg_Peer)
    (d : Device) (nk : gmap NoisePublicKey NoisePublicKey)
  : option error * (Device * gmap NoisePublicKey NoisePublicKey) :=
  match ps with
  | [] => (None, (d, nk))
  | p :: rest =>
      match reconfigPeer now p d nk with
      | (Some err, st) => (Some err, st)
      | (None, (d, nk)) => reconfigPeers now rest d nk
      end
  end.

(** The statements of [Reconfig] up to, and excluding, [BindUpdate]. *)
Definition reconfigPrepare (cfg : Config) (d : Device) : option error * Device :=
  let d := removeOldPeers cfg d in
  match resetPrivateKey cfg d with
  | (Some err, d) => (Some err, d)
  | (None, d) => (None, setListenPort cfg d)
  end.

(** The body of [Reconfig], without the deferred function. *)
Definition reconfigBody (now : Time) (cfg : Config) (d : Device) : option error * Device :=
  match reconfigPrepare cfg d with
  | (Some err, d) => (Some err, d)
  | (None, d) =>
      match BindUpdate d with
      | (Some _, d) => (Some ErrPortInUse, d)
      | (None, d) =>
          match reconfigPeers now (Peers cfg) d ∅ with
          | (Some err, (d, _)) => (Some err, d)
          | (None, (d, newKeepalivePeers)) =>
              (* Send immediate keepalive if we're turning it on and before it wasn't on. *)
              (None, emits (EvSendKeepalive <$> (rangeOrder d newKeepalivePeers).*2) d)
          end
      end
  end.

(** [Reconfig] replaces the existing device configuration with [cfg]. *)
Definition Reconfig (now : Time) (cfg : Config) (d : Device) : option error * Device :=
  match reconfigBody now cfg d with
  | (Some err, d) => (Some err, RemoveAllPeers d)
  | (None, d) => (None, d)
  end.

End config_go.

(** ** Runs of [IsUnderLoad]

    Between two queries other routines fill and drain the handshake queue;
    a run is the list of queries made so far, each with the clock reading
    and the queue contents it found. *)

Definition set_queue_handshake (v : list N) (d : Device) : Device :=
  mkDevice (isUp d) (isClosed d) (skipBindUpdate d) (state_changing d) (state_current d)
    (net_bind d) (net_netlinkCancel d) (net_port d) (net_fwmark d)
    (staticIdentity_privateKey d) (staticIdentity_publicKey d)
    (peers_empty d) (peers_keyMap d) (allowedips d) (rate_underLoadUntil d)
    v (trace d).

Fixpoint underLoadRun `{!Env} (calls : list (Time * list N)) (d : Device) : Device :=
  match calls with
  | [] => d
  | (now, q) :: rest => underLoadRun rest (IsUnderLoad now (set_queue_handshake q d)).2
  end.

(** ** A concrete environment and concrete devices

    [sampleEnv] is one environment the device can run in: port 53 is taken
    on the host, the kernel refuses firewall mark 13, and the peer with key
    99 cannot be started. *)

Definition sample_publicKey (sk : NoisePrivateKey) : NoisePublicKey := (sk + 1000)%N.
Definition sample_sharedSecret (sk : NoisePrivateKey) (pk : NoisePublicKey) : N := (sk * pk)%N.

Definition sampleEnv : Env := {|
  NoisePrivateKey_publicKey := sample_publicKey;
  NoisePrivateKey_sharedSecret := sample_sharedSecret;
  UnderLoadQueueSize := 2;
  UnderLoadAfterTime := 1000000000;
  RekeyTimeout := 5000000000;
  createBind := λ port _,
    if bool_decide (port = 53) then inr (foreign_error "bind: address already in use")
    else if bool_decide (port = 0) then inl (1%N, 51820) else inl (1%N, port);
  startRouteListener := λ _ _, (Some 1%N, None);
  Bind_SetMark := λ _ mark _,
    if bool_decide (mark = 13) then Some (foreign_error "setsockopt: operation not permitted")
    else None;
  Bind_Close := λ _ _, None;
  Peer_Start := λ k _,
    if bool_decide (k = 99%N) then Some (foreign_error "peer start failed") else None;
  createEndpoint := λ _ s _, inl (mkEndpoint s);
  newPeer := λ pk d,
    inl (mkPeer pk (sample_sharedSecret (staticIdentity_privateKey d) pk) 0 0 None []);
  rangeOrder := λ A _ m, map_to_list m;
  rangeOrder_perm := λ A _ m, Permutation_refl (map_to_list m)
|}.

(** The device as [NewDevice] leaves it. *)
Definition freshDevice : Device :=
  mkDevice false false false false false None None 0 0 0%N 0%N false ∅ [] zeroTime [] [].

Definition samplePeer (pk : NoisePublicKey) (sk : NoisePrivateKey) : Peer :=
  mkPeer pk (sample_sharedSecret sk pk) 0 0 None [].

Definition withPeers (ps : list (NoisePublicKey * Peer)) (d : Device) : Device :=
  set_peers_empty (bool_decide (ps = [])) (set_peers_keyMap (list_to_map ps) d).

(** A device after [Close]. *)
Definition closedDevice : Device :=
  mkDevice false true false false false None None 0 0 0%N 0%N false ∅ [] zeroTime [] [].

(** The reading of the queue depth that [IsUnderLoad] takes. *)
Definition overloaded `{!Env} (q : list N) : Prop := (UnderLoadQueueSize ≤ length q)%nat.

#[global] Instance overloaded_dec `{!Env} (q : list N) : Decision (overloaded q).
Proof. unfold overloaded. apply _. Defined.

(** Everything of a device but its bind, port, route listener and trace:
    what the bind operations leave alone. *)
Definition outside_net (d : Device) :=
  (isUp d, isClosed d, skipBindUpdate d, state_changing d, state_current d,
   net_fwmark d, staticIdentity_privateKey d, staticIdentity_publicKey d,
   peers_empty d, peers_keyMap d, allowedips d, rate_underLoadUntil d,
   queue_handshake d).

(** A device that is down, wants firewall mark 13 on its sockets and was
    asked to come up. *)
Definition markedDevice : Device :=
  mkDevice true false false false false None None 0 13 0%N 0%N false ∅ [] zeroTime [] [].

(** A device that is down, is configured for the taken port 53 and was asked
    to come up. *)
Definition port53Device : Device :=
  mkDevice true false false false false None None 53 0 0%N 0%N false ∅ [] zeroTime [] [].

(** A device that is down, holds the peer 99 and was asked to come up. *)
Definition peer99Device : Device :=
  mkDevice true false false false false None None 0 0 0%N 0%N false
    {[ 99%N := samplePeer 99%N 0%N ]} [] zeroTime [] [].

(** Everything of a device but its peer map, the cached emptiness flag and
    the routes: what the removal of peers leaves alone. *)
Definition outside_peers (d : Device) :=
  (isUp d, isClosed d, skipBindUpdate d, state_changing d, state_current d,
   net_bind d, net_netlinkCancel d, net_port d, net_fwmark d,
   staticIdentity_privateKey d, staticIdentity_publicKey d,
   rate_underLoadUntil d, queue_handshake d, trace d).

(** The public key [SetPrivateKey] derives: the zero key for the zero
    private key ("allow a zero key here for disabling this device"). *)
Definition derivedPublicKey `{!Env} (sk : NoisePrivateKey) : NoisePublicKey :=
  if NoisePrivateKey_IsZero sk then 0%N else NoisePrivateKey_publicKey sk.


(** A device with private key 3 and two peers, one of which has the public
    key that belongs to private key 7. *)
Definition twoPeerDevice : Device :=
  mkDevice false false false false false None None 0 0 3%N 1003%N false
    {[ 5%N := samplePeer 5%N 3%N; 1007%N := samplePeer 1007%N 3%N ]}
    [mkRoute (IPv4 1) 32 5%N; mkRoute (IPv4 2) 32 1007%N] zeroTime [] [].

(** A device that is up, holds two peers, and is reconfigured onto the
    taken port 53. *)
Definition upDevice : Device :=
  mkDevice true false false false true (Some 1%N) (Some 1%N) 51820 0 3%N 1003%N false
    {[ 5%N := samplePeer 5%N 3%N; 6%N := samplePeer 6%N 3%N ]}
    [mkRoute (IPv4 1) 32 5%N] zeroTime [] [].

Definition port53Config : Config :=
  mkConfig 3%N 53 [mkCfgPeer 5%N "192.0.2.1:51820" [mkIPPrefix (IPv4 1) 32] 0].

(** [emitsOnly Q d d']: from [d] to [d'] the trace only grew, and every
    call that was added satisfies [Q]. *)
Definition emitsOnly (Q : Event → Prop) (d d' : Device) : Prop :=
  ∃ new, trace d' = trace d ++ new ∧ Forall Q new.

(** A step on the device that makes no call. *)
Class KeepsTrace (f : Device → Device) : Prop :=
  keeps_trace : ∀ d, trace (f d) = trace d.


(** An event that is none of those calls, for any peer. *)
Definition endpointFree (e : Event) : Prop :=
  (∀ k s, e ≠ EvCreateEndpoint k s)
  ∧ (∀ k, e ≠ EvLock (HandshakeLock k))
  ∧ (∀ k, e ≠ EvUnlock (HandshakeLock k)).




(** Whether the byte [c] occurs in [s]. *)
Fixpoint string_contains (c : ascii) (s : string) : bool :=
  match s with
  | EmptyString => false
  | String a rest => if bool_decide (a = c) then true else string_contains c rest
  end.

(** Two allowed-IP prefixes, 10.0.0.1/32 and 10.0.0.2/32. *)
Definition prefixA : IPPrefix := mkIPPrefix (IPv4 167772161) 32.
Definition prefixB : IPPrefix := mkIPPrefix (IPv4 167772162) 32.

(** ** device.go: the operations outside the settled claims *)

Definition set_net_fwmark (v : Z) (d : Device) : Device :=
  mkDevice (isUp d) (isClosed d) (skipBindUpdate d) (state_changing d) (state_current d)
    (net_bind d) (net_netlinkCancel d) (net_port d) v
    (staticIdentity_privateKey d) (staticIdentity_publicKey d)
    (peers_empty d) (peers_keyMap d) (allowedips d) (rate_underLoadUntil d)
    (queue_handshake d) (trace d).

Definition set_isClosed (v : bool) (d : Device) : Device :=
  mkDevice (isUp d) v (skipBindUpdate d) (state_changing d) (state_current d)
    (net_bind d) (net_netlinkCancel d) (net_port d) (net_fwmark d)
    (staticIdentity_privateKey d) (staticIdentity_publicKey d)
    (peers_empty d) (peers_keyMap d) (allowedips d) (rate_underLoadUntil d)
    (queue_handshake d) (trace d).

Section device_go_rest.
Context `{!Env}.

(** [func (device *Device) Bind() conn.Bind]. *)
Definition Device_Bind (d : Device) : option Bind * Device :=
  let d := emit (EvLock NetLock) d in
  (net_bind d, emit (EvUnlock NetLock) d).

Definition BindSetMark (mark : Z) (d : Device) : option error * Device :=
  let d := emit (EvLock NetLock) d in
  (* defer device.net.Unlock() *)
  let unlocked (r : option error * Device) := (r.1, emit (EvUnlock NetLock) r.2) in
  (* check if modified *)
  if bool_decide (net_fwmark d = mark) then unlocked (None, d)
  else
    (* update fwmark on existing bind *)
    let d := set_net_fwmark mark d in
    let '(merr, d) :=
      match net_bind d with
      | Some b =>
          if isUp d then (Bind_SetMark b mark d, emit (EvBindSetMark b mark) d)
          else (None, d)
      | None => (None, d)
      end in
    match merr with
    | Some err => unlocked (Some err, d)
    | None =>
        (* clear cached source addresses *)
        let d := emit (EvRLock PeersLock) d in
        let '(deferred, d) := clearSrc (rangeOrder d (peers_keyMap d)) [] d in
        let d := emit (EvRUnlock PeersLock) d in
        unlocked (None, emits deferred d)
    end.

End device_go_rest.

(** *** Close

    [Close] also works on parts of the device that the operations above never
    touch: the tunnel device, the reference count of the encryption queue,
    the stop signal, the rate limiter and the decryption queue. [Runtime]
    carries them next to the device: how often the tunnel device and the rate
    limiter were closed and the stop channel was closed, the counter of
    [queue.encryption.wg], the elements waiting in [queue.decryption], and
    the elements that were dropped, oldest first. *)
Record Runtime := mkRuntime {
  device : Device;
  tun_device_closes : nat;
  queue_encryption_wg : Z;
  signals_stop_closes : nat;
  rate_limiter_closes : nat;
  queue_decryption : list N;
  dropped : list N
}.

Definition set_device (v : Device) (rt : Runtime) : Runtime :=
  mkRuntime v (tun_device_closes rt) (queue_encryption_wg rt) (signals_stop_closes rt)
    (rate_limiter_closes rt) (queue_decryption rt) (dropped rt).

(** [FlushPacketQueues]: a loop around a [select] with a default case. In
    each round the [select] takes an element from a queue that has one; when
    both have one, [pick] (asked with the number of the round) says whether
    the decryption queue is served. With both queues empty the default case
    returns. [fuel] bounds the rounds. *)
Fixpoint FlushPacketQueues (pick : nat → bool) (fuel round : nat) (rt : Runtime)
  : option Runtime :=
  match fuel with
  | O => None
  | S fuel =>
      let d := device rt in
      match queue_decryption rt, queue_handshake d with
      | [], [] => Some rt
      | elem :: rest, [] =>
          (* elem.Drop(); elem.Unlock() *)
          FlushPacketQueues pick fuel (S round)
            (mkRuntime d (tun_device_closes rt) (queue_encryption_wg rt)
               (signals_stop_closes rt) (rate_limiter_closes rt) rest (dropped rt ++ [elem]))
      | [], _ :: hrest =>
          FlushPacketQueues pick fuel (S round) (set_device (set_queue_handshake hrest d) rt)
      | elem :: rest, _ :: hrest =>
          if pick round then
            FlushPacketQueues pick fuel (S round)
              (mkRuntime d (tun_device_closes rt) (queue_encryption_wg rt)
                 (signals_stop_closes rt) (rate_limiter_closes rt) rest (dropped rt ++ [elem]))
          else
            FlushPacketQueues pick fuel (S round) (set_device (set_queue_handshake hrest d) rt)
      end
  end.

Section close.
Context `{!Env}.

Definition Close (pick : nat → bool) (fuel : nat) (rt : Runtime) : option Runtime :=
  let d := device rt in
  if isClosed d then Some rt
  else
    let d := set_isClosed true d in
    let d := set_state_changing true d in
    let d := emit (EvLock StateLock) d in
    (* device.tun.device.Close() *)
    let closes := S (tun_device_closes rt) in
    let '(_, d) := BindClose d in
    let d := set_isUp false d in
    (* We kept a reference to the encryption queue; we are done with it. *)
    let wg := queue_encryption_wg rt - 1 in
    (* close(device.signals.stop); device.state.stopping.Wait() *)
    let stops := S (signals_stop_closes rt) in
    let d := RemoveAllPeers d in
    match FlushPacketQueues pick fuel 0
            (mkRuntime d closes wg stops (rate_limiter_closes rt)
               (queue_decryption rt) (dropped rt)) with
    | None => None
    | Some rt =>
        (* device.rate.limiter.Close() *)
        let d := set_state_changing false (device rt) in
        (* deferred: device.state.Unlock() *)
        let d := emit (EvUnlock StateLock) d in
        Some (mkRuntime d (tun_device_closes rt) (queue_encryption_wg rt)
                (signals_stop_closes rt) (S (rate_limiter_closes rt))
                (queue_decryption rt) (dropped rt))
    end.

End close.

(** A running device: up, with a bind, two peers of which one sends
    persistent keepalives, a route, and packets waiting in both queues. *)
Definition runningDevice : Device :=
  mkDevice true false false false true (Some 1%N) (Some 1%N) 51820 0 3%N 1003%N false
    {[ 5%N := mkPeer 5%N 15%N 0 25 (Some (mkEndpoint "192.0.2.1:51820")) [];
       6%N := samplePeer 6%N 3%N ]}
    [mkRoute (IPv4 1) 32 5%N] zeroTime [41%N; 42%N] [].

Definition runningRuntime : Runtime :=
  mkRuntime runningDevice 0 3 0 0 [7%N; 8%N; 9%N] [].

(** The same device before it was brought up. *)
Definition stoppedDevice : Device :=
  mkDevice false false false false false None None 0 0 3%N 1003%N false
    {[ 5%N := mkPeer 5%N 15%N 0 25 (Some (mkEndpoint "192.0.2.1:51820")) [];
       6%N := samplePeer 6%N 3%N ]}
    [mkRoute (IPv4 1) 32 5%N] zeroTime [] [].

(** [sampleEnv] on a host where closing a socket fails. *)
Definition failingCloseEnv : Env := {|
  NoisePrivateKey_publicKey := sample_publicKey;
  NoisePrivateKey_sharedSecret := sample_sharedSecret;
  UnderLoadQueueSize := 2;
  UnderLoadAfterTime := 1000000000;
  RekeyTimeout := 5000000000;
  createBind := λ port _, inl (2%N, port);
  startRouteListener := λ _ _, (Some 2%N, None);
  Bind_SetMark := λ _ mark _,
    if bool_decide (mark = 13) then Some (foreign_error "setsockopt: operation not permitted")
    else None;
  Bind_Close := λ _ _, Some (foreign_error "close: bad file descriptor");
  Peer_Start := λ _ _, None;
  createEndpoint := λ _ s _,
    if bool_decide (s = "nowhere") then inr (foreign_error "lookup nowhere: no such host")
    else inl (mkEndpoint s);
  newPeer := λ pk d,
    inl (mkPeer pk (sample_sharedSecret (staticIdentity_privateKey d) pk) 0 0 None []);
  rangeOrder := λ A _ m, map_to_list m;
  rangeOrder_perm := λ A _ m, Permutation_refl (map_to_list m)
|}.

(** The two invariants of the static identity: the stored public key is the
    one derived from the stored private key, and no peer of the map carries
    the device's own public key. *)
Definition identity_ok `{!Env} (d : Device) : Prop :=
  staticIdentity_publicKey d = derivedPublicKey (staticIdentity_privateKey d).

Definition no_self_peer (d : Device) : Prop :=
  ∀ k p, peers_keyMap d !! k = Some p →
         handshake_remoteStatic p ≠ staticIdentity_publicKey d.

(** What the operations on peers and keys leave alone: the switches, the
    state machine and the bind. *)
Definition control (d : Device) :=
  (isUp d, isClosed d, skipBindUpdate d, state_changing d, state_current d,
   net_bind d, net_netlinkCancel d, net_port d, net_fwmark d,
   rate_underLoadUntil d, queue_handshake d).

(** The static identity of a device. *)
Definition identity (d : Device) := (staticIdentity_privateKey d, staticIdentity_publicKey d).

(** A configuration for [runningDevice] that keeps peer 5 and drops peer 6. *)
Definition keepFiveConfig : Config :=
  mkConfig 3%N 51820 [mkCfgPeer 5%N "192.0.2.1:51820" [mkIPPrefix (IPv4 1) 32] 25].

(** The switches of a device that a reconfiguration does not touch. *)
Definition switches (d : Device) :=
  (isUp d, isClosed d, skipBindUpdate d, state_changing d, state_current d, net_fwmark d).

(** The running device is asked to move peer 5 to a new endpoint and to
    turn persistent keepalive on for it; and a configuration entry whose
    endpoint cannot be resolved. *)
Definition movedPeer : wgcfg_Peer :=
  mkCfgPeer 5%N "198.51.100.7:51820" [mkIPPrefix (IPv4 1) 32] 10.

Definition unresolvablePeer : wgcfg_Peer :=
  mkCfgPeer 5%N "nowhere" [mkIPPrefix (IPv4 1) 32] 10.

(** A device whose peer 5 has two endpoint addresses, and an entry that
    names them in the other order. *)
Definition twoAddressDevice : Device :=
  mkDevice true false false false true (Some 1%N) (Some 1%N) 51820 0 3%N 1003%N false
    {[ 5%N := mkPeer 5%N 15%N 77 25
                (Some (mkEndpoint "192.0.2.1:51820,198.51.100.7:51820")) [] ]}
    [] zeroTime [] [].

Definition reorderedPeer : wgcfg_Peer :=
  mkCfgPeer 5%N "198.51.100.7:51820,192.0.2.1:51820" [] 25.

(** *** The loops of [SetPrivateKey]

    [SetPrivateKey] on the path of a changed key, cut before the loop "do
    static-static DH pre-computations": [SetPrivateKey_lockedPeers] is the
    slice [lockedPeers], [SetPrivateKey_keyMaterial] gives the slice
    [peersToStop] and the device after "update key material", and
    [SetPrivateKey_expiredPeers] is the slice [expiredPeers], which receives
    one element in every round of the loop of pre-computations: the peer
    whose [precomputedStaticStatic] that round assigns. *)
Section private_key_loops.
Context `{!Env}.




End private_key_loops.

(** * Properties *)

(** ** Under-load detection *)

Section under_load.
Context `{!Env}.

Lemma IsUnderLoad_overloaded now d :
  overloaded (queue_handshake d) →
  IsUnderLoad now d = (true, set_rate_underLoadUntil (now + UnderLoadAfterTime) d).
Proof.
  intros Hq. unfold IsUnderLoad, overloaded in *.
  rewrite bool_decide_eq_true_2 by exact Hq. reflexivity.
Qed.

Lemma IsUnderLoad_calm now d :
  ¬ overloaded (queue_handshake d) →
  IsUnderLoad now d = (bool_decide (now < rate_underLoadUntil d), d).
Proof.
  intros Hq. unfold IsUnderLoad, overloaded in *.
  rewrite bool_decide_eq_false_2 by exact Hq. reflexivity.
Qed.

Lemma IsUnderLoad_true_iff now d :
  (IsUnderLoad now d).1 = true ↔
  overloaded (queue_handshake d) ∨ now < rate_underLoadUntil d.
Proof.
  destruct (decide (overloaded (queue_handshake d))) as [Hq|Hq].
  - rewrite IsUnderLoad_overloaded by exact Hq. simpl. tauto.
  - rewrite IsUnderLoad_calm by exact Hq. simpl.
    rewrite bool_decide_eq_true. tauto.
Qed.

Lemma underLoadRun_app pre post d :
  underLoadRun (pre ++ post) d = underLoadRun post (underLoadRun pre d).
Proof.
  revert d. induction pre as [|[t q] pre IH]; intros d; simpl; [reflexivity|].
  apply IH.
Qed.

Lemma underLoadRun_calm calls d :
  Forall (λ c, ¬ overloaded c.2) calls →
  rate_underLoadUntil (underLoadRun calls d) = rate_underLoadUntil d.
Proof.
  intros Hcalm. revert d.
  induction Hcalm as [|[t q] calls Hq _ IH]; intros d; simpl; [reflexivity|].
  rewrite IH. rewrite IsUnderLoad_calm by exact Hq. reflexivity.
Qed.

Lemma underLoadRun_latest pre t q mid d :
  overloaded q →
  Forall (λ c, ¬ overloaded c.2) mid →
  rate_underLoadUntil (underLoadRun (pre ++ (t, q) :: mid) d) = t + UnderLoadAfterTime.
Proof.
  intros Hq Hmid. rewrite underLoadRun_app. simpl.
  rewrite underLoadRun_calm by exact Hmid.
  rewrite IsUnderLoad_overloaded by exact Hq. reflexivity.
Qed.

(** Every run is calm throughout, or has a latest query that found the
    queue at the high-water mark. *)
Lemma calls_latest_overloaded (calls : list (Time * list N)) :
  Forall (λ c, ¬ overloaded c.2) calls
  ∨ ∃ pre t q mid, calls = pre ++ (t, q) :: mid
                   ∧ overloaded q ∧ Forall (λ c, ¬ overloaded c.2) mid.
Proof.
  induction calls as [|[t q] calls IH].
  - left. constructor.
  - destruct IH as [Hcalm|(pre & t' & q' & mid & -> & Hq' & Hmid)].
    + destruct (decide (overloaded q)) as [Hq|Hq].
      * right. exists [], t, q, calls. auto.
      * left. constructor; assumption.
    + right. exists ((t, q) :: pre), t', q', mid. auto.
Qed.

(** C7: [IsUnderLoad] answers true exactly when the handshake queue holds at
    least [UnderLoadQueueSize] elements at the call, or the stored latch is
    still after the clock reading of the call; the latch of a device that
    was created by [NewDevice] and queried since is the clock reading of the
    latest query that found the queue that full, plus [UnderLoadAfterTime];
    and a query that finds the queue that full stores its own reading plus
    [UnderLoadAfterTime]. *)
Theorem IsUnderLoad_latch (d : Device) (calls : list (Time * list N))
    (now : Time) (q : list N) :
  rate_underLoadUntil d = zeroTime →
  zeroTime ≤ now →
  let d1 := set_queue_handshake q (underLoadRun calls d) in
  ((IsUnderLoad now d1).1 = true ↔
     overloaded q
     ∨ ∃ pre t q' mid, calls = pre ++ (t, q') :: mid
                       ∧ overloaded q'
                       ∧ Forall (λ c, ¬ overloaded c.2) mid
                       ∧ rate_underLoadUntil d1 = t + UnderLoadAfterTime
                       ∧ now < t + UnderLoadAfterTime)
  ∧ ((IsUnderLoad now d1).1 = true ↔ overloaded q ∨ now < rate_underLoadUntil d1)
  ∧ (overloaded q →
     rate_underLoadUntil (IsUnderLoad now d1).2 = now + UnderLoadAfterTime)
  ∧ (¬ overloaded q → (IsUnderLoad now d1).2 = d1).
Proof.
  intros Hfresh Hnow d1.
  assert (Hiff : (IsUnderLoad now d1).1 = true ↔
                 overloaded q ∨ now < rate_underLoadUntil d1)
    by apply IsUnderLoad_true_iff.
  split; [|split; [exact Hiff|split]].
  - rewrite Hiff. split.
    + intros [Hq|Hlatch]; [left; exact Hq|].
      destruct (calls_latest_overloaded calls)
        as [Hcalm|(pre & t & q' & mid & Hcalls & Hq' & Hmid)].
      * exfalso. subst d1. simpl in Hlatch.
        rewrite underLoadRun_calm in Hlatch by exact Hcalm. lia.
      * right. exists pre, t, q', mid.
        assert (Hl : rate_underLoadUntil d1 = t + UnderLoadAfterTime).
        { subst d1. simpl. rewrite Hcalls. apply underLoadRun_latest; assumption. }
        rewrite Hl in Hlatch. auto.
    + intros [Hq|(pre & t & q' & mid & _ & _ & _ & Hl & Hlt)]; [left; exact Hq|].
      right. rewrite Hl. exact Hlt.
  - intros Hq. rewrite IsUnderLoad_overloaded by exact Hq. reflexivity.
  - intros Hq. rewrite IsUnderLoad_calm by exact Hq. reflexivity.
Qed.

End under_load.

Lemma IsUnderLoad_latch_witness :
  rate_underLoadUntil freshDevice = zeroTime
  ∧ zeroTime ≤ 1500
  ∧ (@IsUnderLoad sampleEnv 1500
       (set_queue_handshake []
          (@underLoadRun sampleEnv [(1000, [1%N; 2%N]); (1200, [])] freshDevice))).1 = true.
Proof.
  split; [reflexivity|]. split; [unfold zeroTime; lia|].
  destruct (@IsUnderLoad_latch sampleEnv freshDevice [(1000, [1%N; 2%N]); (1200, [])] 1500 []
              eq_refl ltac:(unfold zeroTime; lia)) as [_ [Hiff _]].
  apply Hiff. right. vm_compute. reflexivity.
Defined.

(** ** Up on a closed device *)

(** C8: on a closed device [Up] returns the error "device is closed" at once
    and hands back the device as it was: [isUp] is not set, no transition is
    applied and nothing is called. *)
Theorem Up_closed `{!Env} (fuel : nat) (d : Device) :
  isClosed d = true →
  Up fuel d = Some (Some (errors_New "device is closed"), d).
Proof. intros Hclosed. unfold Up. rewrite Hclosed. reflexivity. Qed.

Lemma Up_closed_witness :
  isClosed closedDevice = true
  ∧ @Up sampleEnv 0 closedDevice = Some (Some (errors_New "device is closed"), closedDevice).
Proof.
  split; [reflexivity|]. apply (@Up_closed sampleEnv 0 closedDevice). reflexivity.
Defined.

(** ** UDP bind lifecycle *)

Section bind.
Context `{!Env}.

Lemma unsafeCloseBind_outside_net d :
  outside_net (unsafeCloseBind d).2 = outside_net d.
Proof.
  unfold unsafeCloseBind.
  destruct (net_netlinkCancel d); simpl; destruct (net_bind d); reflexivity.
Qed.

Lemma unsafeCloseBind_bind d : net_bind (unsafeCloseBind d).2 = None.
Proof.
  unfold unsafeCloseBind.
  destruct (net_netlinkCancel d); simpl; destruct (net_bind d) eqn:Hb; simpl;
    (reflexivity || exact Hb).
Qed.

Lemma unsafeCloseBind_port d : net_port (unsafeCloseBind d).2 = net_port d.
Proof.
  unfold unsafeCloseBind.
  destruct (net_netlinkCancel d); simpl; destruct (net_bind d); reflexivity.
Qed.

Lemma clearSrc_outside_net ps deferred d :
  outside_net (clearSrc ps deferred d).2 = outside_net d.
Proof.
  revert deferred d. induction ps as [|[k peer] ps IH]; intros deferred d; simpl.
  - reflexivity.
  - rewrite IH. destruct (endpoint peer); reflexivity.
Qed.

Lemma clearSrc_net ps deferred d :
  net_bind (clearSrc ps deferred d).2 = net_bind d
  ∧ net_port (clearSrc ps deferred d).2 = net_port d.
Proof.
  revert deferred d. induction ps as [|[k peer] ps IH]; intros deferred d; simpl.
  - split; reflexivity.
  - destruct (IH (EvUnlock (PeerLock k) :: deferred)
                (match endpoint peer with
                 | Some _ => emit (EvClearSrc k) (emit (EvLock (PeerLock k)) d)
                 | None => emit (EvLock (PeerLock k)) d
                 end)) as [-> ->].
    destruct (endpoint peer); split; reflexivity.
Qed.

Lemma BindUpdate_outside_net d : outside_net (BindUpdate d).2 = outside_net d.
Proof.
  unfold BindUpdate.
  destruct (skipBindUpdate _ && _); [reflexivity|].
  pose proof (unsafeCloseBind_outside_net (emit (EvLock NetLock) d)) as Hclose.
  destruct (unsafeCloseBind (emit (EvLock NetLock) d)) as [[err|] d1]; simpl in Hclose.
  { simpl. exact Hclose. }
  destruct (isUp d1); [|exact Hclose].
  destruct (createBind (net_port d1) d1) as [[b p]|err]; [|exact Hclose].
  destruct (startRouteListener b _) as [cancel [err|]]; [exact Hclose|].
  destruct (bool_decide _); simpl.
  - destruct (Bind_SetMark _ _ _); [exact Hclose|].
    match goal with
    | |- context [clearSrc ?ps ?df ?d0] =>
        pose proof (clearSrc_outside_net ps df d0) as Hclear;
        destruct (clearSrc ps df d0) as [deferred d2]
    end.
    unfold outside_net in *; simpl in *; congruence.
  - match goal with
    | |- context [clearSrc ?ps ?df ?d0] =>
        pose proof (clearSrc_outside_net ps df d0) as Hclear;
        destruct (clearSrc ps df d0) as [deferred d2]
    end.
    unfold outside_net in *; simpl in *; congruence.
Qed.

Lemma BindClose_outside_net d : outside_net (BindClose d).2 = outside_net d.
Proof.
  unfold BindClose.
  pose proof (unsafeCloseBind_outside_net (emit (EvLock NetLock) d)) as Hclose.
  destruct (unsafeCloseBind (emit (EvLock NetLock) d)) as [err d1]. exact Hclose.
Qed.

(** The part of the contract the code keeps: a failure of the bind factory
    leaves no bind and port 0. *)
Lemma BindUpdate_createBind_error d d1 err :
  skipBindUpdate d && bool_decide (net_bind d ≠ None) = false →
  unsafeCloseBind (emit (EvLock NetLock) d) = (None, d1) →
  isUp d = true →
  createBind (net_port d1) d1 = inr err →
  (BindUpdate d).1 = Some err
  ∧ net_bind (BindUpdate d).2 = None ∧ net_port (BindUpdate d).2 = 0.
Proof.
  intros Hskip Hclose Hup Hcreate. unfold BindUpdate.
  pose proof (unsafeCloseBind_outside_net (emit (EvLock NetLock) d)) as Hout.
  rewrite Hclose in Hout. unfold outside_net in Hout. simpl in Hout.
  simpl. rewrite Hskip, Hclose.
  replace (isUp d1) with true by congruence.
  rewrite Hcreate. auto.
Qed.

(** Likewise for a failure of the route listener: the fresh bind is closed
    again, and no bind and port 0 are left. *)
Lemma BindUpdate_routeListener_error d d1 b p cancel err :
  skipBindUpdate d && bool_decide (net_bind d ≠ None) = false →
  unsafeCloseBind (emit (EvLock NetLock) d) = (None, d1) →
  isUp d = true →
  createBind (net_port d1) d1 = inl (b, p) →
  startRouteListener b
    (set_net_port p (set_net_bind (Some b) (emit (EvCreateBind (net_port d1)) d1)))
    = (cancel, Some err) →
  (BindUpdate d).1 = Some err
  ∧ net_bind (BindUpdate d).2 = None ∧ net_port (BindUpdate d).2 = 0.
Proof.
  intros Hskip Hclose Hup Hcreate Hroute. unfold BindUpdate.
  pose proof (unsafeCloseBind_outside_net (emit (EvLock NetLock) d)) as Hout.
  rewrite Hclose in Hout. unfold outside_net in Hout. simpl in Hout.
  simpl. rewrite Hskip, Hclose.
  replace (isUp d1) with true by congruence.
  rewrite Hcreate, Hroute. auto.
Qed.

(** C4 (the code departs from the claim): when the bind factory and the
    route listener succeed and applying the non-zero fwmark fails,
    [BindUpdate] returns the error of [SetMark] while [net.bind] is still the
    new bind and [net.port] the port the factory assigned, neither nil
    nor 0. *)
Theorem BindUpdate_SetMark_error_keeps_bind d d1 b p cancel err :
  skipBindUpdate d && bool_decide (net_bind d ≠ None) = false →
  unsafeCloseBind (emit (EvLock NetLock) d) = (None, d1) →
  isUp d = true →
  createBind (net_port d1) d1 = inl (b, p) →
  let d2 := set_net_port p (set_net_bind (Some b) (emit (EvCreateBind (net_port d1)) d1)) in
  startRouteListener b d2 = (cancel, None) →
  let d3 := set_net_netlinkCancel cancel (emit (EvStartRouteListener b) d2) in
  net_fwmark d ≠ 0 →
  Bind_SetMark b (net_fwmark d) d3 = Some err →
  (BindUpdate d).1 = Some err
  ∧ net_bind (BindUpdate d).2 = Some b ∧ net_port (BindUpdate d).2 = p.
Proof.
  intros Hskip Hclose Hup Hcreate d2 Hroute d3 Hmark Hset. unfold BindUpdate.
  pose proof (unsafeCloseBind_outside_net (emit (EvLock NetLock) d)) as Hout.
  rewrite Hclose in Hout. unfold outside_net in Hout. simpl in Hout.
  assert (Hup1 : isUp d1 = true) by congruence.
  assert (Hfw : net_fwmark d1 = net_fwmark d) by congruence.
  simpl. rewrite Hskip, Hclose, Hup1, Hcreate. fold d2. rewrite Hroute.
  fold d3. simpl. rewrite Hfw.
  rewrite bool_decide_eq_true_2 by exact Hmark.
  rewrite Hset. auto.
Qed.

End bind.

Lemma BindUpdate_SetMark_error_keeps_bind_witness :
  (@BindUpdate sampleEnv markedDevice).1
    = Some (foreign_error "setsockopt: operation not permitted")
  ∧ net_bind (@BindUpdate sampleEnv markedDevice).2 = Some 1%N
  ∧ net_port (@BindUpdate sampleEnv markedDevice).2 = 51820.
Proof.
  apply (@BindUpdate_SetMark_error_keeps_bind sampleEnv markedDevice
           (emit EvNetStoppingWait (emit (EvLock NetLock) markedDevice))
           1%N 51820 (Some 1%N)
           (foreign_error "setsockopt: operation not permitted"));
    [reflexivity | reflexivity | reflexivity | reflexivity | reflexivity
    | vm_compute; discriminate | reflexivity].
Defined.

(** ** Device state machine *)

Section state_machine.
Context `{!Env}.

Lemma startPeers_untraced ps d :
  outside_net (startPeers ps d).2 = outside_net d
  ∧ net_bind (startPeers ps d).2 = net_bind d
  ∧ net_port (startPeers ps d).2 = net_port d.
Proof.
  revert d. induction ps as [|[k peer] ps IH]; intros d; simpl; [auto|].
  destruct (Peer_Start k d); [auto|].
  match goal with |- context [startPeers ps ?d0] => destruct (IH d0) as (-> & -> & ->) end.
  destruct (bool_decide _); auto.
Qed.

(** While a transition is in progress every other call returns at once. *)
Lemma deviceUpdateState_busy fuel d :
  state_changing d = true → deviceUpdateState (S fuel) d = Some (None, d).
Proof. intros Hbusy. simpl. rewrite Hbusy. reflexivity. Qed.

(** The transition that [deviceUpdateState] applies when the wanted state
    differs from the current one, as a function of its own. *)
Lemma deviceUpdateState_unfold fuel d :
  deviceUpdateState (S fuel) d =
  if state_changing d then Some (None, d)
  else
    let d0 := emit (EvLock StateLock) (set_state_changing true d) in
    if bool_decide (isUp d = state_current d) then
      Some (None, emit (EvUnlock StateLock) (set_state_changing false d0))
    else
      let applied : option error * Device :=
        if isUp d then
          match BindUpdate d0 with
          | (Some err, d1) =>
              (Some (fmt_Errorf bindUpdateFormat err),
               emit (EvUnlock StateLock) (set_isUp false d1))
          | (None, d1) =>
              match startPeers (rangeOrder (emit (EvRLock PeersLock) d1)
                                  (peers_keyMap (emit (EvRLock PeersLock) d1)))
                               (emit (EvRLock PeersLock) d1) with
              | (Some err, d2) =>
                  (Some err, emit (EvRUnlock PeersLock) (emit (EvUnlock StateLock) d2))
              | (None, d2) => (None, emit (EvRUnlock PeersLock) d2)
              end
          end
        else
          let '(_, d1) := BindClose d0 in
          let d1 := emit (EvRLock PeersLock) d1 in
          (None, emit (EvRUnlock PeersLock)
                   (emits (EvPeerStop <$> (rangeOrder d1 (peers_keyMap d1)).*1) d1)) in
      match applied with
      | (Some err, d3) => Some (Some err, d3)
      | (None, d3) =>
          deviceUpdateState fuel
            (emit (EvUnlock StateLock)
               (set_state_changing false (set_state_current (isUp d) d3)))
      end.
Proof. reflexivity. Qed.

(** What the transition step leaves alone, on its paths without error. *)
Lemma applied_up_frame d0 d1 d2 :
  BindUpdate d0 = (None, d1) →
  startPeers (rangeOrder (emit (EvRLock PeersLock) d1)
                (peers_keyMap (emit (EvRLock PeersLock) d1)))
             (emit (EvRLock PeersLock) d1) = (None, d2) →
  outside_net d2 = outside_net d0.
Proof.
  intros Hbind Hstart.
  pose proof (BindUpdate_outside_net d0) as Hb. rewrite Hbind in Hb. simpl in Hb.
  match type of Hstart with
  | startPeers ?ps ?d' = _ => destruct (startPeers_untraced ps d') as [Hs _]
  end.
  rewrite Hstart in Hs. simpl in Hs. rewrite Hs. exact Hb.
Qed.

(** On the paths that return no error the flag is cleared on exit. *)
Lemma deviceUpdateState_nil_clears fuel d d' :
  state_changing d = false →
  deviceUpdateState fuel d = Some (None, d') →
  state_changing d' = false.
Proof.
  revert d d'. induction fuel as [|fuel IH]; intros d d' Hfree Hrun; [discriminate|].
  rewrite deviceUpdateState_unfold in Hrun. rewrite Hfree in Hrun. cbv zeta in Hrun.
  destruct (bool_decide (isUp d = state_current d)).
  { injection Hrun as <-. reflexivity. }
  destruct (isUp d).
  - destruct (BindUpdate _) as [[err|] d1]; [discriminate|].
    destruct (startPeers _ _) as [[err|] d2]; [discriminate|].
    apply IH in Hrun; [exact Hrun|reflexivity].
  - destruct (BindClose _) as [e d1].
    apply IH in Hrun; [exact Hrun|reflexivity].
Qed.

(** Two nested calls are enough: the call after an applied transition finds
    the wanted state equal to the current one. *)
Lemma deviceUpdateState_returns fuel d :
  is_Some (deviceUpdateState (S (S fuel)) d).
Proof.
  rewrite deviceUpdateState_unfold.
  destruct (state_changing d) eqn:Hfree; [eauto|]. cbv zeta.
  destruct (bool_decide (isUp d = state_current d)); [eauto|].
  destruct (isUp d) eqn:Hup.
  - destruct (BindUpdate _) as [[err|] d1] eqn:Hbind; [eauto|].
    destruct (startPeers _ _) as [[err|] d2] eqn:Hstart; [eauto|].
    pose proof (applied_up_frame _ _ _ Hbind Hstart) as Hframe.
    unfold outside_net in Hframe. simpl in Hframe.
    rewrite deviceUpdateState_unfold. simpl.
    assert (Hup2 : isUp d2 = true) by congruence.
    rewrite Hup2. simpl. eauto.
  - pose proof (BindClose_outside_net
                  (emit (EvLock StateLock) (set_state_changing true d))) as Hframe.
    destruct (BindClose _) as [e d1]. unfold outside_net in Hframe. simpl in Hframe.
    rewrite deviceUpdateState_unfold. simpl.
    assert (Hup1 : isUp d1 = false) by congruence.
    rewrite Hup1. simpl. eauto.
Qed.

(** C3 (the code departs from the claim): when a device that is free to
    change state is brought up and [BindUpdate] fails, or [BindUpdate]
    succeeds and [Start] fails on some peer, [deviceUpdateState] returns the
    error with the changing flag still set; every later [Up] and [Down] then
    returns nil at the guard without applying a transition. *)
Theorem deviceUpdateState_error_keeps_changing fuel d :
  state_changing d = false →
  isClosed d = false →
  isUp d = true →
  state_current d = false →
  let d0 := emit (EvLock StateLock) (set_state_changing true d) in
  let d1 := emit (EvRLock PeersLock) (BindUpdate d0).2 in
  is_Some (BindUpdate d0).1
  ∨ is_Some (startPeers (rangeOrder d1 (peers_keyMap d1)) d1).1 →
  ∃ err d',
    deviceUpdateState (S fuel) d = Some (Some err, d')
    ∧ state_changing d' = true
    ∧ ∀ n, Up (S n) d' = Some (None, set_isUp true d')
           ∧ Down (S n) d' = Some (None, set_isUp false d').
Proof.
  intros Hfree Hopen Hup Hcur d0 d1 Hfail.
  assert (Hblocked : ∀ d', state_changing d' = true → isClosed d' = false →
            ∀ n, Up (S n) d' = Some (None, set_isUp true d')
                 ∧ Down (S n) d' = Some (None, set_isUp false d')).
  { intros d' Hbusy Hopen' n. unfold Up, Down. rewrite Hopen'.
    split; apply deviceUpdateState_busy; exact Hbusy. }
  rewrite deviceUpdateState_unfold. rewrite Hfree, Hup, Hcur. cbv zeta.
  rewrite bool_decide_eq_false_2 by discriminate. fold d0.
  pose proof (BindUpdate_outside_net d0) as Hb.
  subst d1. destruct (BindUpdate d0) as [[err|] b1] eqn:Hbind; simpl in Hb, Hfail.
  - unfold outside_net in Hb. simpl in Hb.
    eexists _, _. split; [reflexivity|].
    assert (state_changing b1 = true ∧ isClosed b1 = false) as [Hc Ho]
      by (split; congruence).
    split; [exact Hc|]. apply Hblocked; simpl; assumption.
  - destruct Hfail as [[e He]|Hfail]; [discriminate|].
    match goal with
    | |- context [startPeers ?ps ?d'] =>
        destruct (startPeers_untraced ps d') as [Hs _]
    end.
    destruct (startPeers _ _) as [[err|] s1]; simpl in Hs, Hfail.
    + unfold outside_net in Hb, Hs. simpl in Hb, Hs.
      eexists _, _. split; [reflexivity|].
      assert (state_changing s1 = true ∧ isClosed s1 = false) as [Hc Ho]
        by (split; congruence).
      split; [exact Hc|]. apply Hblocked; simpl; assumption.
    + destruct Hfail as [e He]. discriminate.
Qed.

End state_machine.

Lemma deviceUpdateState_error_keeps_changing_witness :
  ∃ err d',
    @deviceUpdateState sampleEnv 1 port53Device = Some (Some err, d')
    ∧ state_changing d' = true
    ∧ ∀ n, @Up sampleEnv (S n) d' = Some (None, set_isUp true d')
           ∧ @Down sampleEnv (S n) d' = Some (None, set_isUp false d').
Proof.
  apply (@deviceUpdateState_error_keeps_changing sampleEnv 0 port53Device);
    [reflexivity | reflexivity | reflexivity | reflexivity |].
  left. vm_compute. eexists. reflexivity.
Defined.

(** The same on the path where a peer cannot be started. *)
Example deviceUpdateState_start_failure :
  ∃ d', @deviceUpdateState sampleEnv 1 peer99Device
        = Some (Some (foreign_error "peer start failed"), d')
        ∧ state_changing d' = true ∧ net_bind d' = Some 1%N.
Proof. eexists. vm_compute. repeat split. Qed.

(** ** Walking the peer map *)

Section range.
Context `{!Env}.

Lemma elem_of_rangeOrder {A} (d : Device) (m : gmap NoisePublicKey A) k x :
  (k, x) ∈ rangeOrder d m ↔ m !! k = Some x.
Proof. rewrite (rangeOrder_perm A d m). apply elem_of_map_to_list. Qed.

Lemma elem_of_rangeOrder_keys {A} (d : Device) (m : gmap NoisePublicKey A) k :
  k ∈ (rangeOrder d m).*1 ↔ is_Some (m !! k).
Proof.
  rewrite list_elem_of_fmap. split.
  - intros ([k' x] & -> & Hin). apply elem_of_rangeOrder in Hin. eauto.
  - intros [x Hx]. exists (k, x). split; [reflexivity|].
    apply elem_of_rangeOrder. exact Hx.
Qed.

Lemma NoDup_rangeOrder_keys {A} (d : Device) (m : gmap NoisePublicKey A) :
  NoDup (rangeOrder d m).*1.
Proof. rewrite (rangeOrder_perm A d m). apply NoDup_fst_map_to_list. Qed.

End range.

(** ** Private key rotation *)

Section private_key.
Context `{!Env}.

Lemma removeSelfPeers_spec publicKey ps d :
  let r := removeSelfPeers publicKey ps d in
  r.1 = (filter (λ kp, handshake_remoteStatic kp.2 = publicKey) ps).*1
  ∧ (∀ k, peers_keyMap r.2 !! k
          = if decide (k ∈ r.1) then None else peers_keyMap d !! k)
  ∧ (∀ rt, rt ∈ allowedips r.2 ↔ rt ∈ allowedips d ∧ route_peer rt ∉ r.1)
  ∧ outside_peers r.2 = outside_peers d.
Proof.
  revert d. induction ps as [|[key peer] ps IH]; intros d; simpl.
  - split; [reflexivity|]. split; [|split; [|reflexivity]].
    + intros k. destruct (decide (k ∈ [])) as [Hin|_]; [inversion Hin|reflexivity].
    + intros rt. split; [intros Hrt; split; [exact Hrt|intros Hin; inversion Hin]|tauto].
  - rewrite filter_cons. simpl.
    destruct (decide (handshake_remoteStatic peer = publicKey)) as [Heq|Hne].
    + rewrite bool_decide_eq_true_2 by exact Heq.
      specialize (IH (unsafeRemovePeer key key d)).
      destruct (removeSelfPeers publicKey ps (unsafeRemovePeer key key d)) as [stops d'].
      simpl in *. destruct IH as (Hstops & Hmap & Hroutes & Hout).
      split; [rewrite Hstops; reflexivity|]. split; [|split; [|exact Hout]].
      * intros k. rewrite Hmap.
        destruct (decide (k ∈ stops)) as [Hin|Hnin].
        { rewrite decide_True by (right; exact Hin). reflexivity. }
        destruct (decide (k = key)) as [->|Hk].
        { rewrite decide_True by left. apply lookup_delete_eq. }
        rewrite decide_False by (rewrite elem_of_cons; tauto).
        apply lookup_delete_ne. congruence.
      * intros rt. rewrite Hroutes. unfold AllowedIPs_RemoveByPeer.
        rewrite list_elem_of_filter, elem_of_cons. tauto.
    + rewrite bool_decide_eq_false_2 by exact Hne. apply IH.
Qed.

Lemma precompute_idemp sk peer : precompute sk (precompute sk peer) = precompute sk peer.
Proof. reflexivity. Qed.

Lemma precomputeStaticStatic_spec ps d :
  let d' := precomputeStaticStatic ps d in
  (∀ k, peers_keyMap d' !! k
        = (if decide (k ∈ ps) then precompute (staticIdentity_privateKey d) else id)
            <$> peers_keyMap d !! k)
  ∧ outside_peers d' = outside_peers d
  ∧ allowedips d' = allowedips d ∧ peers_empty d' = peers_empty d.
Proof.
  revert d. induction ps as [|key ps IH]; intros d; simpl.
  - split; [|auto]. intros k. destruct (peers_keyMap d !! k); reflexivity.
  - match goal with |- context [precomputeStaticStatic ps ?d0] => specialize (IH d0) end.
    simpl in IH. destruct IH as (Hmap & Hout & Hroutes & Hempty).
    split; [|auto]. intros k. rewrite Hmap.
    destruct (decide (k = key)) as [->|Hk].
    + rewrite lookup_alter_eq. rewrite (decide_True _ _ (list_elem_of_here _ _)).
      destruct (peers_keyMap d !! key) as [peer|]; [|destruct (decide _); reflexivity].
      simpl. destruct (decide (key ∈ ps)); reflexivity.
    + rewrite lookup_alter_ne by congruence.
      destruct (decide (k ∈ ps)) as [Hin|Hnin].
      * rewrite decide_True by (right; exact Hin). reflexivity.
      * rewrite decide_False by (rewrite elem_of_cons; tauto). reflexivity.
Qed.

(** [SetPrivateKey] on its path of a changed key, with the states between
    its loops named. *)
Lemma SetPrivateKey_unfold sk d :
  sk ≠ staticIdentity_privateKey d →
  SetPrivateKey sk d =
  let d0 := emit (EvLock PeersLock) (emit (EvLock StaticIdentityLock) d) in
  let locked := (rangeOrder d0 (peers_keyMap d0)).*1 in
  let d1 := emits ((λ k, EvRLock (HandshakeLock k)) <$> locked) d0 in
  let pub := derivedPublicKey sk in
  let r := removeSelfPeers pub (rangeOrder d1 (peers_keyMap d1)) d1 in
  let d3 := emit (EvCookieCheckerInit pub) (set_staticIdentity sk pub r.2) in
  let expired := (rangeOrder d3 (peers_keyMap d3)).*1 in
  let d4 := precomputeStaticStatic expired d3 in
  (None,
   emits (EvPeerStop <$> r.1)
     (emit (EvUnlock StaticIdentityLock)
        (emit (EvUnlock PeersLock)
           (emits (EvExpireCurrentKeypairs <$> expired)
              (emits ((λ k, EvRUnlock (HandshakeLock k)) <$> locked) d4))))).
Proof.
  intros Hne. unfold SetPrivateKey, derivedPublicKey. cbv zeta.
  change (staticIdentity_privateKey (emit (EvLock StaticIdentityLock) d))
    with (staticIdentity_privateKey d).
  rewrite bool_decide_eq_false_2 by exact Hne.
  destruct (removeSelfPeers _ _ _) as [stops d2]. reflexivity.
Qed.

(** The effect of [SetPrivateKey] when the key does change. [locked],
    [stops] and [expired] are the slices [lockedPeers], [peersToStop] and
    [expiredPeers] of the source. *)
Lemma SetPrivateKey_changed sk d :
  sk ≠ staticIdentity_privateKey d →
  ∃ locked stops expired,
    let d' := (SetPrivateKey sk d).2 in
    (SetPrivateKey sk d).1 = None
    ∧ staticIdentity_privateKey d' = sk
    ∧ staticIdentity_publicKey d' = derivedPublicKey sk
    ∧ (∀ k, peers_keyMap d' !! k
            = match peers_keyMap d !! k with
              | Some p => if decide (handshake_remoteStatic p = derivedPublicKey sk)
                          then None else Some (precompute sk p)
              | None => None
              end)
    ∧ (∀ rt, rt ∈ allowedips d' ↔ rt ∈ allowedips d ∧ route_peer rt ∉ stops)
    ∧ (∀ k, k ∈ stops ↔ ∃ p, peers_keyMap d !! k = Some p
                              ∧ handshake_remoteStatic p = derivedPublicKey sk)
    ∧ (∀ k, k ∈ expired ↔ is_Some (peers_keyMap d' !! k))
    ∧ trace d' = trace d
                 ++ [EvLock StaticIdentityLock; EvLock PeersLock]
                 ++ ((λ k, EvRLock (HandshakeLock k)) <$> locked)
                 ++ [EvCookieCheckerInit (derivedPublicKey sk)]
                 ++ ((λ k, EvRUnlock (HandshakeLock k)) <$> locked)
                 ++ (EvExpireCurrentKeypairs <$> expired)
                 ++ [EvUnlock PeersLock; EvUnlock StaticIdentityLock]
                 ++ (EvPeerStop <$> stops)
    ∧ ∃ dmid, peers_keyMap d' = peers_keyMap (precomputeStaticStatic expired dmid)
              ∧ staticIdentity_privateKey dmid = sk
              ∧ ∀ k, k ∈ stops → peers_keyMap dmid !! k = None.
Proof.
  intros Hne. rewrite (SetPrivateKey_unfold sk d Hne).
  set (pub := derivedPublicKey sk).
  set (d0 := emit (EvLock PeersLock) (emit (EvLock StaticIdentityLock) d)).
  cbv zeta.
  set (locked := (rangeOrder d0 (peers_keyMap d0)).*1).
  set (d1 := emits _ d0).
  pose proof (removeSelfPeers_spec pub (rangeOrder d1 (peers_keyMap d1)) d1) as Hrm.
  destruct (removeSelfPeers pub (rangeOrder d1 (peers_keyMap d1)) d1) as [stops d2].
  simpl in Hrm. destruct Hrm as (Hstops & Hmap2 & Hroutes2 & Hout2).
  change (peers_keyMap d1) with (peers_keyMap d) in *.
  cbn [fst snd].
  set (d3 := emit (EvCookieCheckerInit pub) (set_staticIdentity sk pub d2)).
  set (expired := (rangeOrder d3 (peers_keyMap d3)).*1).
  pose proof (precomputeStaticStatic_spec expired d3) as Hpre.
  simpl in Hpre. destruct Hpre as (Hmap4 & Hout4 & Hroutes4 & _).
  set (d4 := precomputeStaticStatic expired d3) in *.
  assert (Hstops_iff : ∀ k, k ∈ stops ↔
            ∃ p, peers_keyMap d !! k = Some p ∧ handshake_remoteStatic p = pub).
  { intros k. rewrite Hstops, list_elem_of_fmap. split.
    - intros ([k' p] & -> & Hin). apply list_elem_of_filter in Hin as [Hp Hin].
      apply elem_of_rangeOrder in Hin. eauto.
    - intros (p & Hk & Hp). exists (k, p). split; [reflexivity|].
      apply list_elem_of_filter. split; [exact Hp|].
      apply elem_of_rangeOrder. exact Hk. }
  assert (Hmap3 : ∀ k, peers_keyMap d2 !! k
            = match peers_keyMap d !! k with
              | Some p => if decide (handshake_remoteStatic p = pub) then None else Some p
              | None => None
              end).
  { intros k. rewrite Hmap2.
    destruct (decide (k ∈ stops)) as [Hin|Hnin].
    - apply Hstops_iff in Hin as (p & -> & Hp). rewrite decide_True by exact Hp. reflexivity.
    - destruct (peers_keyMap d !! k) as [p|] eqn:Hk; [|reflexivity].
      destruct (decide (handshake_remoteStatic p = pub)) as [Hp|Hp]; [|reflexivity].
      exfalso. apply Hnin, Hstops_iff. eauto. }
  assert (Hexp : ∀ k, k ∈ expired ↔ is_Some (peers_keyMap d2 !! k))
    by (intros k; apply elem_of_rangeOrder_keys).
  assert (Hmap : ∀ k, peers_keyMap d4 !! k
            = match peers_keyMap d !! k with
              | Some p => if decide (handshake_remoteStatic p = pub)
                          then None else Some (precompute sk p)
              | None => None
              end).
  { intros k. rewrite Hmap4. change (staticIdentity_privateKey d3) with sk.
    destruct (decide (k ∈ expired)) as [Hin|Hnin].
    - rewrite Hmap3. destruct (peers_keyMap d !! k) as [p|]; [|reflexivity].
      destruct (decide _); reflexivity.
    - rewrite Hexp in Hnin. destruct (peers_keyMap d2 !! k) eqn:Hk3.
      + exfalso. apply Hnin. eauto.
      + rewrite Hmap3 in Hk3. destruct (peers_keyMap d !! k) as [p|]; [|reflexivity].
        destruct (decide _); [reflexivity|discriminate]. }
  exists locked, stops, expired. simpl.
  unfold outside_peers in Hout2, Hout4. simpl in Hout2, Hout4.
  split; [reflexivity|].
  split; [change (staticIdentity_privateKey d4 = sk); congruence|].
  split; [change (staticIdentity_publicKey d4 = pub); congruence|].
  split; [exact Hmap|].
  split; [intros rt; change (rt ∈ allowedips d4 ↔ rt ∈ allowedips d ∧ route_peer rt ∉ stops);
          rewrite Hroutes4; apply Hroutes2|].
  split; [exact Hstops_iff|].
  split.
  { intros k. rewrite Hexp.
    change (is_Some (peers_keyMap d2 !! k) ↔ is_Some (peers_keyMap d4 !! k)).
    rewrite Hmap4. destruct (peers_keyMap d2 !! k); simpl; split; intros [? ?];
      eauto; discriminate. }
  split.
  { apply (f_equal snd) in Hout2, Hout4. simpl in Hout2, Hout4.
    rewrite Hout4, Hout2. rewrite <- !app_assoc. reflexivity. }
  exists d3. split; [reflexivity|]. split; [reflexivity|].
  intros k Hin. change (peers_keyMap d2 !! k = None).
  rewrite Hmap2. rewrite decide_True by exact Hin. reflexivity.
Qed.

(** When the key does not change, [SetPrivateKey] takes and releases the
    identity lock and does nothing else. *)
Lemma SetPrivateKey_same d :
  SetPrivateKey (staticIdentity_privateKey d) d
  = (None, emits [EvLock StaticIdentityLock; EvUnlock StaticIdentityLock] d).
Proof.
  unfold SetPrivateKey. simpl. rewrite bool_decide_eq_true_2 by reflexivity.
  unfold emits, emit. simpl. rewrite <- app_assoc. reflexivity.
Qed.

Lemma SetPrivateKey_privateKey sk d :
  staticIdentity_privateKey (SetPrivateKey sk d).2 = sk.
Proof.
  destruct (decide (sk = staticIdentity_privateKey d)) as [->|Hne].
  - rewrite SetPrivateKey_same. reflexivity.
  - destruct (SetPrivateKey_changed sk d Hne) as (? & ? & ? & ? & Hsk & ?). exact Hsk.
Qed.

(** C1: after [SetPrivateKey k] and then [SetPrivateKey v] with [k ≠ v],
    every peer that is still in the peer map has
    [precomputedStaticStatic = sharedSecret v remoteStatic], and the second
    call has invoked [ExpireCurrentKeypairs] on it. *)
Theorem SetPrivateKey_twice (k v : NoisePrivateKey) (d : Device) :
  k ≠ v →
  let d1 := (SetPrivateKey k d).2 in
  let d2 := (SetPrivateKey v d1).2 in
  (SetPrivateKey k d).1 = None ∧ (SetPrivateKey v d1).1 = None
  ∧ ∀ key peer, peers_keyMap d2 !! key = Some peer →
      handshake_precomputedStaticStatic peer
        = NoisePrivateKey_sharedSecret v (handshake_remoteStatic peer)
      ∧ ∃ before after,
          trace d2 = trace d1 ++ before ++ EvExpireCurrentKeypairs key :: after.
Proof.
  intros Hkv d1 d2.
  assert (Hv : v ≠ staticIdentity_privateKey d1).
  { subst d1. rewrite SetPrivateKey_privateKey. congruence. }
  destruct (SetPrivateKey_changed v d1 Hv)
    as (locked & stops & expired & Hnil & _ & _ & Hmap & _ & _ & Hexp & Htrace & _).
  fold d2 in Hmap, Hexp, Htrace.
  split.
  { destruct (decide (k = staticIdentity_privateKey d)) as [->|Hk].
    - rewrite SetPrivateKey_same. reflexivity.
    - destruct (SetPrivateKey_changed k d Hk) as (? & ? & ? & Hnil1 & _). exact Hnil1. }
  split; [exact Hnil|].
  intros key peer Hpeer. split.
  - rewrite Hmap in Hpeer. destruct (peers_keyMap d1 !! key) as [p|]; [|discriminate].
    destruct (decide _); [discriminate|]. injection Hpeer as <-. reflexivity.
  - assert (Hin : key ∈ expired) by (apply Hexp; eauto).
    apply list_elem_of_split in Hin as (l1 & l2 & ->).
    rewrite Htrace, fmap_app, fmap_cons.
    exists ([EvLock StaticIdentityLock; EvLock PeersLock]
            ++ ((λ k, EvRLock (HandshakeLock k)) <$> locked)
            ++ [EvCookieCheckerInit (derivedPublicKey v)]
            ++ ((λ k, EvRUnlock (HandshakeLock k)) <$> locked)
            ++ (EvExpireCurrentKeypairs <$> l1)),
           ((EvExpireCurrentKeypairs <$> l2)
            ++ [EvUnlock PeersLock; EvUnlock StaticIdentityLock]
            ++ (EvPeerStop <$> stops)).
    rewrite <- ?app_assoc. simpl. rewrite <- ?app_assoc. reflexivity.
Qed.





End private_key.

Lemma SetPrivateKey_twice_witness :
  7%N ≠ 9%N
  ∧ ∃ peer,
      peers_keyMap (@SetPrivateKey sampleEnv 9%N
                      (@SetPrivateKey sampleEnv 7%N twoPeerDevice).2).2 !! 5%N = Some peer
      ∧ handshake_precomputedStaticStatic peer = 45%N
      ∧ ∃ before after,
          trace (@SetPrivateKey sampleEnv 9%N
                   (@SetPrivateKey sampleEnv 7%N twoPeerDevice).2).2
          = trace (@SetPrivateKey sampleEnv 7%N twoPeerDevice).2
            ++ before ++ EvExpireCurrentKeypairs 5%N :: after.
Proof.
  split; [discriminate|].
  destruct (@SetPrivateKey_twice sampleEnv 7%N 9%N twoPeerDevice ltac:(discriminate))
    as (_ & _ & Hpeers).
  exists (samplePeer 5%N 9%N).
  destruct (Hpeers 5%N (samplePeer 5%N 9%N) ltac:(vm_compute; reflexivity))
    as [Hdh Hexpired].
  split; [vm_compute; reflexivity|]. split; [exact Hdh|exact Hexpired].
Defined.



(** ** Reconfiguration: failure wipes the peer set *)

Section reconfig_errors.
Context `{!Env}.

Lemma RemoveAllPeers_keyMap d : peers_keyMap (RemoveAllPeers d) = ∅.
Proof. reflexivity. Qed.

(** C5: whenever [Reconfig] returns an error the peer map is empty on
    return, and when the [BindUpdate] inside [Reconfig] fails the error
    returned is [ErrPortInUse]. *)
Theorem Reconfig_error_removes_all_peers (now : Time) (cfg : Config) (d : Device) :
  (∀ err d', Reconfig now cfg d = (Some err, d') → peers_keyMap d' = ∅)
  ∧ (∀ d1, reconfigPrepare cfg d = (None, d1) →
           is_Some (BindUpdate d1).1 →
           (Reconfig now cfg d).1 = Some ErrPortInUse
           ∧ peers_keyMap (Reconfig now cfg d).2 = ∅).
Proof.
  split.
  - intros err d' Hrun. unfold Reconfig in Hrun.
    destruct (reconfigBody now cfg d) as [[e|] d1]; [|discriminate].
    injection Hrun as _ <-. apply RemoveAllPeers_keyMap.
  - intros d1 Hprep [e He]. unfold Reconfig, reconfigBody. rewrite Hprep.
    destruct (BindUpdate d1) as [[e'|] d2]; [|discriminate].
    split; [reflexivity|apply RemoveAllPeers_keyMap].
Qed.

End reconfig_errors.

Lemma Reconfig_error_removes_all_peers_witness :
  (@Reconfig sampleEnv 0 port53Config upDevice).1 = Some ErrPortInUse
  ∧ peers_keyMap (@Reconfig sampleEnv 0 port53Config upDevice).2 = ∅.
Proof.
  destruct (@Reconfig_error_removes_all_peers sampleEnv 0 port53Config upDevice)
    as [_ Hbind].
  apply (Hbind (@reconfigPrepare sampleEnv port53Config upDevice).2).
  - vm_compute. reflexivity.
  - vm_compute. eexists. reflexivity.
Defined.

(** ** Reconfiguration: which calls are made *)

Section emits_only.
Context `{!Env}.

Lemma emitsOnly_refl Q d : emitsOnly Q d d.
Proof. exists []. split; [symmetry; apply app_nil_r|constructor]. Qed.



Lemma emitsOnly_trace_eq Q d d' d'' :
  trace d'' = trace d' → emitsOnly Q d d' → emitsOnly Q d d''.
Proof. intros Heq (new & Ht & Hq). exists new. rewrite Heq. auto. Qed.

Lemma emitsOnly_emit Q d d' e : Q e → emitsOnly Q d d' → emitsOnly Q d (emit e d').
Proof.
  intros He (new & Ht & Hq). exists (new ++ [e]). split.
  - simpl. rewrite Ht, app_assoc. reflexivity.
  - apply Forall_app. split; [exact Hq|]. constructor; [exact He|constructor].
Qed.

Lemma emitsOnly_emits Q d d' es :
  Forall Q es → emitsOnly Q d d' → emitsOnly Q d (emits es d').
Proof.
  intros He (new & Ht & Hq). exists (new ++ es). split.
  - simpl. rewrite Ht, app_assoc. reflexivity.
  - apply Forall_app. split; assumption.
Qed.

Lemma Forall_fmap_event {A} (Q : Event → Prop) (f : A → Event) (l : list A) :
  (∀ x, Q (f x)) → Forall Q (f <$> l).
Proof. intros Hf. apply Forall_fmap, Forall_forall. intros x _. apply Hf. Qed.

End emits_only.

Section keeps_trace.
Context `{!Env}.

#[global] Instance set_isUp_keeps v : KeepsTrace (set_isUp v).
Proof. intros d. reflexivity. Qed.
#[global] Instance set_state_changing_keeps v : KeepsTrace (set_state_changing v).
Proof. intros d. reflexivity. Qed.
#[global] Instance set_state_current_keeps v : KeepsTrace (set_state_current v).
Proof. intros d. reflexivity. Qed.
#[global] Instance set_net_bind_keeps v : KeepsTrace (set_net_bind v).
Proof. intros d. reflexivity. Qed.
#[global] Instance set_net_netlinkCancel_keeps v : KeepsTrace (set_net_netlinkCancel v).
Proof. intros d. reflexivity. Qed.
#[global] Instance set_net_port_keeps v : KeepsTrace (set_net_port v).
Proof. intros d. reflexivity. Qed.
#[global] Instance set_staticIdentity_keeps sk pk : KeepsTrace (set_staticIdentity sk pk).
Proof. intros d. reflexivity. Qed.
#[global] Instance set_peers_empty_keeps v : KeepsTrace (set_peers_empty v).
Proof. intros d. reflexivity. Qed.
#[global] Instance set_peers_keyMap_keeps v : KeepsTrace (set_peers_keyMap v).
Proof. intros d. reflexivity. Qed.
#[global] Instance set_allowedips_keeps v : KeepsTrace (set_allowedips v).
Proof. intros d. reflexivity. Qed.
#[global] Instance set_rate_underLoadUntil_keeps v : KeepsTrace (set_rate_underLoadUntil v).
Proof. intros d. reflexivity. Qed.
#[global] Instance set_queue_handshake_keeps v : KeepsTrace (set_queue_handshake v).
Proof. intros d. reflexivity. Qed.
#[global] Instance storePeer_keeps pk peer : KeepsTrace (storePeer pk peer).
Proof. intros d. reflexivity. Qed.
#[global] Instance unsafeRemovePeer_keeps peer key : KeepsTrace (unsafeRemovePeer peer key).
Proof. intros d. reflexivity. Qed.

#[global] Instance insertAllowedIPs_keeps pk ips : KeepsTrace (insertAllowedIPs pk ips).
Proof.
  intros d. unfold insertAllowedIPs. revert d.
  induction ips as [|ip ips IH]; intros d; [reflexivity|].
  cbn [foldl]. rewrite IH. reflexivity.
Qed.

Lemma emitsOnly_keep f `{!KeepsTrace f} Q d d' :
  emitsOnly Q d d' → emitsOnly Q d (f d').
Proof. apply emitsOnly_trace_eq. apply keeps_trace. Qed.

End keeps_trace.

Ltac endpoint_free :=
  solve [ unfold endpointFree; repeat split; intros; discriminate ].

(** One step of peeling a device expression: an [emit], an [emits] or a
    step without calls on top of a smaller expression. *)
Ltac emits_only_step :=
  lazymatch goal with
  | |- emitsOnly _ _ (emit _ _) => apply emitsOnly_emit; [try endpoint_free|]
  | |- emitsOnly _ _ (emits _ _) =>
      apply emitsOnly_emits;
      [try (apply Forall_fmap_event; intros; endpoint_free)
          ; try (repeat constructor; endpoint_free)|]
  | |- emitsOnly _ ?a ?b =>
      first [ constr_eq a b; apply emitsOnly_refl
            | lazymatch b with ?f ?x => apply (emitsOnly_keep f) end ]
  end.

Ltac emits_only := repeat emits_only_step.

Section reconfig_calls.
Context `{!Env}.











Lemma insertAllowedIPs_frame pk ips d :
  trace (insertAllowedIPs pk ips d) = trace d
  ∧ peers_keyMap (insertAllowedIPs pk ips d) = peers_keyMap d
  ∧ isUp (insertAllowedIPs pk ips d) = isUp d.
Proof.
  unfold insertAllowedIPs. revert d.
  induction ips as [|ip ips IH]; intros d; simpl; [auto|].
  destruct (IH (set_allowedips
                  (AllowedIPs_Insert (prefix_IP ip) (prefix_Bits ip) pk (allowedips d)) d))
    as (-> & -> & ->). auto.
Qed.

End reconfig_calls.




(** Case analysis on what one round of the loop over [cfg.Peers] asks of
    the device and of its collaborators, outermost question first. *)
Ltac reconfig_reduce := cbv beta iota zeta delta [fst snd negb andb].

Ltac reconfig_case :=
  match goal with
  | |- context [peers_keyMap ?d !! ?k] => destruct (peers_keyMap d !! k)
  | |- context [newPeer ?a ?b] => destruct (newPeer a b)
  | |- context [bool_decide (PersistentKeepalive ?p ≠ 0)] =>
      destruct (bool_decide (PersistentKeepalive p ≠ 0))
  | |- context [isUp ?x] => destruct (isUp x)
  | |- context [match endpoint ?x with _ => _ end] => destruct (endpoint x)
  | |- context [endpointsEqual ?a ?b] => destruct (endpointsEqual a b)
  | |- context [createEndpoint ?a ?b ?c] => destruct (createEndpoint a b c)
  | |- context [cidrsEqual ?a ?b] => destruct (cidrsEqual a b)
  end.

Section reconfig_peer.
Context `{!Env}.






Lemma peers_keyMap_emit e d : peers_keyMap (emit e d) = peers_keyMap d.
Proof. reflexivity. Qed.

Lemma peers_keyMap_storePeer pk peer d :
  peers_keyMap (storePeer pk peer d) = <[pk := peer]> (peers_keyMap d).
Proof. reflexivity. Qed.

Lemma peers_keyMap_set_allowedips v d : peers_keyMap (set_allowedips v d) = peers_keyMap d.
Proof. reflexivity. Qed.

Lemma peers_keyMap_set_peers_empty v d : peers_keyMap (set_peers_empty v d) = peers_keyMap d.
Proof. reflexivity. Qed.

Lemma peers_keyMap_set_peers_keyMap v d : peers_keyMap (set_peers_keyMap v d) = v.
Proof. reflexivity. Qed.

Lemma peers_keyMap_insertAllowedIPs pk ips d :
  peers_keyMap (insertAllowedIPs pk ips d) = peers_keyMap d.
Proof. apply insertAllowedIPs_frame. Qed.




End reconfig_peer.


(** ** Comparing endpoint strings and prefix lists *)

Section set_equalities.

#[local] Instance string_le_total : Total string_le.
Proof. intros s t. apply String.leb_total. Qed.

#[local] Instance string_le_antisymm : AntiSymm (=) string_le.
Proof. intros s t. apply String.leb_antisym. Qed.

#[local] Instance string_le_trans : Transitive string_le.
Proof.
  unfold string_le, String.leb. intros s.
  induction s as [|a s IH]; intros [|b t] [|c u]; simpl; try (reflexivity || discriminate).
  unfold Ascii.compare.
  destruct (N_of_ascii a ?= N_of_ascii b)%N eqn:Hab;
    destruct (N_of_ascii b ?= N_of_ascii c)%N eqn:Hbc;
    try discriminate; intros Hst Htu.
  - apply N.compare_eq_iff in Hab, Hbc. rewrite Hab, Hbc, N.compare_refl.
    exact (IH t u Hst Htu).
  - apply N.compare_eq_iff in Hab. rewrite Hab, Hbc. reflexivity.
  - apply N.compare_eq_iff in Hbc. rewrite <- Hbc, Hab. reflexivity.
  - rewrite N.compare_lt_iff in Hab, Hbc.
    assert (Hac : (N_of_ascii a ?= N_of_ascii c)%N = Lt)
      by (apply N.compare_lt_iff; exact (N.lt_trans _ _ _ Hab Hbc)).
    rewrite Hac. reflexivity.
Qed.

Lemma sort_Strings_Permutation xs : sort_Strings xs ≡ₚ xs.
Proof. apply merge_sort_Permutation. Qed.

Lemma sort_Strings_Sorted xs : Sorted string_le (sort_Strings xs).
Proof. apply Sorted_merge_sort. apply _. Qed.

(** Lists with the same elements sort to the same list. *)
Lemma sort_Strings_unique xs ys : xs ≡ₚ ys → sort_Strings xs = sort_Strings ys.
Proof.
  intros Hperm. apply (Sorted_unique string_le); try apply sort_Strings_Sorted.
  rewrite !sort_Strings_Permutation. exact Hperm.
Qed.

Lemma strings_Split_nonempty s c : strings_Split s c ≠ [].
Proof.
  destruct s as [|a s]; simpl; [discriminate|].
  destruct (bool_decide (a = c)); [discriminate|].
  destruct (strings_Split s c); discriminate.
Qed.

Lemma strings_Split_free s c :
  Forall (λ e, string_contains c e = false) (strings_Split s c).
Proof.
  induction s as [|a s IH]; simpl.
  - repeat constructor.
  - destruct (bool_decide (a = c)) eqn:Hac.
    + constructor; [reflexivity|exact IH].
    + destruct (strings_Split s c) as [|piece pieces]; [repeat constructor; simpl; rewrite Hac; reflexivity|].
      inversion IH as [|? ? Hpiece Hpieces]; subst.
      constructor; [simpl; rewrite Hac; exact Hpiece|exact Hpieces].
Qed.

Lemma strings_Split_free_id e c :
  string_contains c e = false → strings_Split e c = [e].
Proof.
  induction e as [|a e IH]; simpl; [reflexivity|].
  destruct (bool_decide (a = c)); [discriminate|].
  intros Hfree. rewrite (IH Hfree). reflexivity.
Qed.

Lemma strings_Split_app e rest :
  string_contains comma e = false →
  strings_Split (e ++ "," ++ rest) comma = e :: strings_Split rest comma.
Proof.
  induction e as [|a e IH]; simpl.
  - intros _. reflexivity.
  - destruct (bool_decide (a = comma)); [discriminate|].
    intros Hfree. rewrite (IH Hfree). reflexivity.
Qed.

(** Joining pieces that hold no comma and splitting again gives the pieces
    back. *)
Lemma strings_Split_Join xs :
  xs ≠ [] →
  Forall (λ e, string_contains comma e = false) xs →
  strings_Split (strings_Join xs ",") comma = xs.
Proof.
  induction xs as [|e xs IH]; [congruence|]. intros _ Hfree.
  inversion Hfree as [|? ? He Hxs]; subst.
  destruct xs as [|e' xs].
  - simpl. apply strings_Split_free_id. exact He.
  - change (strings_Join (e :: e' :: xs) ",")
      with (e ++ "," ++ strings_Join (e' :: xs) ",")%string.
    rewrite (strings_Split_app _ _ He). rewrite IH; [reflexivity|discriminate|exact Hxs].
Qed.

(** The part of C6 that holds: [endpointsEqual] is equality of the
    comma-separated elements as unordered collections. *)
Lemma endpointsEqual_spec x y :
  endpointsEqual x y = true ↔ strings_Split x comma ≡ₚ strings_Split y comma.
Proof.
  unfold endpointsEqual.
  destruct (decide (x = y)) as [->|Hxy].
  { rewrite bool_decide_eq_true_2 by reflexivity. split; [reflexivity|reflexivity]. }
  rewrite (bool_decide_eq_false_2 _ Hxy).
  set (xs := strings_Split x comma). set (ys := strings_Split y comma).
  assert (Hsorted_ok : ∀ s, strings_Split (strings_Join (sort_Strings (strings_Split s comma)) ",") comma
                            = sort_Strings (strings_Split s comma)).
  { intros s. apply strings_Split_Join.
    - intros Hnil. apply (strings_Split_nonempty s comma).
      apply Permutation_nil_r. rewrite <- Hnil. symmetry. apply sort_Strings_Permutation.
    - rewrite sort_Strings_Permutation. apply strings_Split_free. }
  destruct (decide (length xs = length ys)) as [Hlen|Hlen].
  - rewrite (bool_decide_eq_true_2 _ Hlen). simpl. rewrite bool_decide_eq_true. split.
    + intros Hjoin. apply (f_equal (λ s, strings_Split s comma)) in Hjoin.
      subst xs ys. rewrite !Hsorted_ok in Hjoin.
      rewrite <- (sort_Strings_Permutation (strings_Split x comma)),
              <- (sort_Strings_Permutation (strings_Split y comma)), Hjoin.
      reflexivity.
    + intros Hperm. rewrite (sort_Strings_unique xs ys Hperm). reflexivity.
  - rewrite (bool_decide_eq_false_2 _ Hlen). simpl. split; [discriminate|].
    intros Hperm. exfalso. apply Hlen. rewrite Hperm. reflexivity.
Qed.

Lemma endpointsEqual_sym x y : endpointsEqual x y = endpointsEqual y x.
Proof.
  pose proof (endpointsEqual_spec x y) as Hxy.
  pose proof (endpointsEqual_spec y x) as Hyx.
  destruct (endpointsEqual x y), (endpointsEqual y x); try reflexivity.
  - symmetry. apply Hyx. symmetry. apply Hxy. reflexivity.
  - apply Hxy. symmetry. apply Hyx. reflexivity.
Qed.

Lemma exactInOrder_spec x y :
  length x = length y → (exactInOrder x y = true ↔ x = y).
Proof.
  revert y. induction x as [|a x IH]; intros [|b y]; simpl; try discriminate.
  - intros _. split; reflexivity.
  - intros Hlen. injection Hlen as Hlen.
    destruct (decide (a = b)) as [->|Hab].
    + rewrite bool_decide_eq_false_2 by (intros Hne; apply Hne; reflexivity).
      rewrite (IH y Hlen). split; [intros ->; reflexivity|intros Heq; injection Heq; auto].
    + rewrite (bool_decide_eq_true_2 _ Hab). split; [discriminate|congruence].
Qed.

Lemma cidrs_member (x : list IPPrefix) (m : gmap IPPrefix bool) v :
  default false (foldl (λ m v, <[v := true]> m) m x !! v) = true
  ↔ v ∈ x ∨ m !! v = Some true.
Proof.
  revert m. induction x as [|a x IH]; intros m; simpl.
  - split.
    + destruct (m !! v) as [[|]|]; simpl; try discriminate. auto.
    + intros [Hin| ->]; [inversion Hin|reflexivity].
  - rewrite IH, elem_of_cons. destruct (decide (a = v)) as [->|Hav].
    + rewrite lookup_insert_eq. tauto.
    + rewrite lookup_insert_ne by exact Hav. split; [tauto|].
      intros [[Heq|Hin]|Hm]; [congruence|tauto|tauto].
Qed.

(** What [cidrsEqual] computes: the lengths agree and every prefix of [y]
    occurs in [x]. *)
Lemma cidrsEqual_spec x y :
  cidrsEqual x y = true ↔ length x = length y ∧ ∀ v, v ∈ y → v ∈ x.
Proof.
  unfold cidrsEqual. destruct (decide (length x = length y)) as [Hlen|Hlen].
  - rewrite (bool_decide_eq_true_2 _ Hlen). simpl.
    destruct (exactInOrder x y) eqn:Hexact.
    + apply exactInOrder_spec in Hexact; [|exact Hlen]. subst y. tauto.
    + rewrite forallb_forall. split.
      * intros Hall. split; [exact Hlen|]. intros v Hv.
        apply list_elem_of_In, Hall, cidrs_member in Hv as [Hv|Hv]; [exact Hv|].
        rewrite lookup_empty in Hv. discriminate.
      * intros [_ Hsub] v Hv. apply cidrs_member. left.
        apply Hsub, list_elem_of_In. exact Hv.
  - rewrite (bool_decide_eq_false_2 _ Hlen). simpl. split; [discriminate|tauto].
Qed.

(** On lists without repetition in [y], [cidrsEqual] is equality as
    unordered collections. *)
Lemma cidrsEqual_NoDup x y :
  NoDup y → (cidrsEqual x y = true ↔ x ≡ₚ y).
Proof.
  intros Hnodup. rewrite cidrsEqual_spec. split.
  - intros [Hlen Hsub]. symmetry. apply submseteq_length_Permutation.
    + apply NoDup_submseteq; assumption.
    + rewrite Hlen. reflexivity.
  - intros Hperm. split; [rewrite Hperm; reflexivity|].
    intros v Hv. rewrite Hperm. exact Hv.
Qed.

(** C6 (the code departs from the claim): [cidrsEqual] accepts
    [[10.0.0.1/32; 10.0.0.2/32]] against [[10.0.0.1/32; 10.0.0.1/32]], which
    differ as sets, and rejects the same two lists in the other order, so it
    is neither set equality nor symmetric. *)
Theorem cidrsEqual_repeated_prefix :
  cidrsEqual [prefixA; prefixB] [prefixA; prefixA] = true
  ∧ cidrsEqual [prefixA; prefixA] [prefixA; prefixB] = false
  ∧ prefixB ∈ [prefixA; prefixB] ∧ prefixB ∉ [prefixA; prefixA].
Proof.
  split; [reflexivity|]. split; [reflexivity|]. split.
  - apply list_elem_of_further, list_elem_of_here.
  - intros Hin. apply elem_of_cons in Hin as [Heq|Hin]; [discriminate|].
    apply elem_of_cons in Hin as [Heq|Hin]; [discriminate|inversion Hin].
Qed.

(** X16: [endpointsEqual] compares the comma-separated elements of its
    arguments as unordered collections: it is true exactly when one list of
    elements is a rearrangement of the other, so it is symmetric and true on
    equal strings, and an element that is repeated counts as often as it
    occurs. *)
Theorem endpointsEqual_unordered (x y : string) :
  (endpointsEqual x y = true ↔ strings_Split x comma ≡ₚ strings_Split y comma)
  ∧ endpointsEqual x y = endpointsEqual y x
  ∧ endpointsEqual x x = true.
Proof.
  split; [apply endpointsEqual_spec|]. split; [apply endpointsEqual_sym|].
  apply endpointsEqual_spec. reflexivity.
Qed.

(** X17: what [cidrsEqual] decides: the two lists have the same length and
    every prefix of the second occurs in the first. It is true on equal
    lists, and when the second list repeats no prefix it is equality as
    unordered lists, in either direction. *)
Theorem cidrsEqual_inclusion (x y : list IPPrefix) :
  (cidrsEqual x y = true ↔ length x = length y ∧ ∀ v, v ∈ y → v ∈ x)
  ∧ cidrsEqual x x = true
  ∧ (NoDup y → (cidrsEqual x y = true ↔ x ≡ₚ y)
               ∧ (cidrsEqual x y = true → cidrsEqual y x = true)).
Proof.
  split; [apply cidrsEqual_spec|]. split; [apply cidrsEqual_spec; auto|].
  intros Hnodup. split; [apply cidrsEqual_NoDup; exact Hnodup|].
  intros Hxy. apply (cidrsEqual_NoDup x y Hnodup) in Hxy.
  apply cidrsEqual_spec. split; [rewrite Hxy; reflexivity|].
  intros v Hv. rewrite <- Hxy. exact Hv.
Qed.

End set_equalities.

(** * Further properties of the device *)

(** ** Up and Down *)

Section up_down.
Context `{!Env}.

(** When the wanted state is the current one, the call takes the state
    lock, finds nothing to do and returns. *)
Lemma deviceUpdateState_settled fuel d :
  state_changing d = false →
  isUp d = state_current d →
  deviceUpdateState (S fuel) d
  = Some (None, emit (EvUnlock StateLock)
                  (set_state_changing false
                     (emit (EvLock StateLock) (set_state_changing true d)))).
Proof.
  intros Hfree Hsame. rewrite deviceUpdateState_unfold, Hfree. cbv zeta.
  rewrite (bool_decide_eq_true_2 _ Hsame). reflexivity.
Qed.

Lemma startPeers_keeps_trace ps d e :
  e ∈ trace d → e ∈ trace (startPeers ps d).2.
Proof.
  revert d. induction ps as [|[k peer] ps IH]; intros d He; simpl; [exact He|].
  destruct (Peer_Start k d); simpl.
  - apply elem_of_app. left. exact He.
  - apply IH. destruct (bool_decide _); simpl;
      rewrite ?elem_of_app; tauto.
Qed.

Lemma startPeers_started ps d k peer :
  (startPeers ps d).1 = None →
  (k, peer) ∈ ps →
  EvPeerStart k ∈ trace (startPeers ps d).2
  ∧ (0 < persistentKeepaliveInterval peer →
     EvSendKeepalive k ∈ trace (startPeers ps d).2).
Proof.
  revert d. induction ps as [|[k' peer'] ps IH]; intros d Hok Hin; [inversion Hin|].
  simpl in *. destruct (Peer_Start k' d); [discriminate|].
  apply elem_of_cons in Hin as [Heq|Hin].
  - injection Heq as <- <-. split.
    + apply startPeers_keeps_trace.
      destruct (bool_decide _); simpl; rewrite ?elem_of_app, ?list_elem_of_singleton; tauto.
    + intros Hka. apply startPeers_keeps_trace.
      rewrite (bool_decide_eq_true_2 _ Hka). simpl.
      rewrite !elem_of_app, !list_elem_of_singleton. tauto.
  - apply IH; assumption.
Qed.

(** X1: bringing up a device that is down, open and not in a transition,
    when the bind update and the start of every peer succeed: [Up] returns
    nil after one nested re-check, the device is up with the changing flag
    cleared, [Start] was called on every peer of the map, and a keepalive was
    sent to every peer whose persistent keepalive interval is positive. *)
Theorem Up_applies_transition (fuel : nat) (d : Device) :
  isClosed d = false →
  state_changing d = false →
  state_current d = false →
  let d0 := emit (EvLock StateLock) (set_state_changing true (set_isUp true d)) in
  (BindUpdate d0).1 = None →
  let d1 := emit (EvRLock PeersLock) (BindUpdate d0).2 in
  (startPeers (rangeOrder d1 (peers_keyMap d1)) d1).1 = None →
  ∃ d', Up (S (S fuel)) d = Some (None, d')
        ∧ isUp d' = true ∧ state_current d' = true ∧ state_changing d' = false
        ∧ net_bind d' = net_bind (BindUpdate d0).2
        ∧ peers_keyMap d' = peers_keyMap d
        ∧ ∀ k peer, peers_keyMap d !! k = Some peer →
            EvPeerStart k ∈ trace d'
            ∧ (0 < persistentKeepaliveInterval peer → EvSendKeepalive k ∈ trace d').
Proof.
  intros Hopen Hfree Hcur d0 Hbind d1 Hstart.
  unfold Up. rewrite Hopen. rewrite deviceUpdateState_unfold.
  change (state_changing (set_isUp true d)) with (state_changing d).
  change (isUp (set_isUp true d)) with true.
  change (state_current (set_isUp true d)) with (state_current d).
  rewrite Hfree, Hcur. cbv zeta.
  rewrite bool_decide_eq_false_2 by discriminate. fold d0.
  pose proof (BindUpdate_outside_net d0) as Hout.
  destruct (BindUpdate d0) as [[err|] b1] eqn:Hb; [discriminate|].
  cbn [fst snd] in *. fold d1.
  pose proof (startPeers_untraced (rangeOrder d1 (peers_keyMap d1)) d1) as (Hs & Hsb & _).
  pose proof (λ k peer, startPeers_started (rangeOrder d1 (peers_keyMap d1)) d1 k peer Hstart)
    as Hstarted.
  destruct (startPeers (rangeOrder d1 (peers_keyMap d1)) d1) as [[err|] s1];
    [discriminate|].
  cbn [fst snd] in *.
  unfold outside_net in Hout, Hs. simpl in Hout, Hs.
  assert (Hfacts : isUp s1 = true ∧ peers_keyMap s1 = peers_keyMap d) by (split; congruence).
  destruct Hfacts as [Hup1 Hmap1].
  rewrite deviceUpdateState_settled; [|reflexivity|simpl; exact Hup1].
  eexists. split; [reflexivity|]. simpl.
  split; [exact Hup1|]. split; [reflexivity|]. split; [reflexivity|].
  split; [exact Hsb|]. split; [exact Hmap1|].
  intros k peer Hk.
  assert (Hin : (k, peer) ∈ rangeOrder d1 (peers_keyMap d1)).
  { apply elem_of_rangeOrder. subst d1. simpl. congruence. }
  destruct (Hstarted k peer Hin) as [Hst Hka].
  rewrite !elem_of_app. split; [tauto|]. intros Hpos. specialize (Hka Hpos). tauto.
Qed.

(** X2: [Down] never returns an error, not even when closing the bind
    fails, and leaves the device wanted down. On a device that is not in a
    transition it ends with the current state down and the changing flag
    cleared; if the device was up, the bind is gone and [Stop] was called on
    every peer of the map, and the peers stay in the map. *)
Theorem Down_never_fails (fuel : nat) (d : Device) :
  ∃ d', Down (S (S fuel)) d = Some (None, d')
        ∧ isUp d' = false
        ∧ peers_keyMap d' = peers_keyMap d
        ∧ (state_changing d = false →
           state_current d' = false ∧ state_changing d' = false
           ∧ (state_current d = true →
              net_bind d' = None
              ∧ ∀ k, is_Some (peers_keyMap d !! k) → EvPeerStop k ∈ trace d')).
Proof.
  unfold Down. rewrite deviceUpdateState_unfold.
  change (state_changing (set_isUp false d)) with (state_changing d).
  change (isUp (set_isUp false d)) with false.
  change (state_current (set_isUp false d)) with (state_current d).
  destruct (state_changing d) eqn:Hfree.
  { eexists. split; [reflexivity|]. split; [reflexivity|]. split; [reflexivity|].
    discriminate. }
  cbv zeta. destruct (state_current d) eqn:Hcur.
  - rewrite bool_decide_eq_false_2 by discriminate.
    set (d0 := emit (EvLock StateLock) (set_state_changing true (set_isUp false d))).
    pose proof (BindClose_outside_net d0) as Hout.
    assert (Hnil : net_bind (BindClose d0).2 = None).
    { unfold BindClose.
      pose proof (unsafeCloseBind_bind (emit (EvLock NetLock) d0)) as Hb.
      destruct (unsafeCloseBind (emit (EvLock NetLock) d0)) as [e c1]. exact Hb. }
    destruct (BindClose d0) as [e b1]. cbn [fst snd] in *.
    unfold outside_net in Hout. simpl in Hout.
    assert (Hfacts : isUp b1 = false ∧ peers_keyMap b1 = peers_keyMap d)
      by (split; congruence).
    destruct Hfacts as [Hup1 Hmap1].
    rewrite deviceUpdateState_settled; [|reflexivity|simpl; exact Hup1].
    eexists. split; [reflexivity|]. simpl.
    split; [exact Hup1|]. split; [exact Hmap1|]. intros _.
    split; [reflexivity|]. split; [reflexivity|]. intros _.
    split; [exact Hnil|]. intros k Hk.
    rewrite !elem_of_app. left. left. left. left. right.
    apply list_elem_of_fmap. exists k. split; [reflexivity|].
    apply elem_of_rangeOrder_keys. simpl. rewrite Hmap1. exact Hk.
  - rewrite bool_decide_eq_true_2 by reflexivity.
    eexists. split; [reflexivity|]. simpl. split; [reflexivity|].
    split; [reflexivity|]. intros _. split; [exact Hcur|]. split; [reflexivity|].
    discriminate.
Qed.

(** X3: asking for the state the device is in changes nothing. On an open
    device that is up and not in a transition, [Up] returns nil and only
    takes and releases the state lock: no bind update, no peer is started,
    every field is as before. *)
Theorem Up_when_up (fuel : nat) (d : Device) :
  isClosed d = false →
  state_changing d = false →
  isUp d = true →
  state_current d = true →
  ∃ d', Up (S fuel) d = Some (None, d')
        ∧ outside_net d' = outside_net d
        ∧ net_bind d' = net_bind d ∧ net_port d' = net_port d
        ∧ net_netlinkCancel d' = net_netlinkCancel d
        ∧ trace d' = trace d ++ [EvLock StateLock; EvUnlock StateLock].
Proof.
  intros Hopen Hfree Hup Hcur. unfold Up. rewrite Hopen.
  rewrite deviceUpdateState_settled; [|exact Hfree|simpl; congruence].
  eexists. split; [reflexivity|]. unfold outside_net. simpl.
  rewrite Hup, Hfree, <- app_assoc. auto.
Qed.

(** X4: when the bind update fails while a device is brought up, [Up]
    returns the bind error wrapped in "unable to update bind", the wanted
    state is put back to down, the current state stays down, the peers stay
    in the map and no peer is started. *)
Theorem Up_bind_failure (fuel : nat) (d : Device) (err : error) :
  isClosed d = false →
  state_changing d = false →
  state_current d = false →
  let d0 := emit (EvLock StateLock) (set_state_changing true (set_isUp true d)) in
  (BindUpdate d0).1 = Some err →
  ∃ d', Up (S fuel) d = Some (Some (fmt_Errorf bindUpdateFormat err), d')
        ∧ isUp d' = false ∧ state_current d' = false
        ∧ peers_keyMap d' = peers_keyMap d
        ∧ trace d' = trace (BindUpdate d0).2 ++ [EvUnlock StateLock].
Proof.
  intros Hopen Hfree Hcur d0 Hbind.
  unfold Up. rewrite Hopen. rewrite deviceUpdateState_unfold.
  change (state_changing (set_isUp true d)) with (state_changing d).
  change (isUp (set_isUp true d)) with true.
  change (state_current (set_isUp true d)) with (state_current d).
  rewrite Hfree, Hcur. cbv zeta.
  rewrite bool_decide_eq_false_2 by discriminate. fold d0.
  pose proof (BindUpdate_outside_net d0) as Hout.
  destruct (BindUpdate d0) as [[e|] b1]; [|discriminate].
  cbn [fst snd] in *. injection Hbind as ->.
  unfold outside_net in Hout. simpl in Hout.
  eexists. split; [reflexivity|]. simpl.
  split; [reflexivity|]. split; [congruence|]. split; [congruence|reflexivity].
Qed.

End up_down.

Lemma Up_when_up_witness :
  ∃ d', @Up sampleEnv 1 runningDevice = Some (None, d')
        ∧ net_bind d' = Some 1%N
        ∧ trace d' = [EvLock StateLock; EvUnlock StateLock].
Proof.
  destruct (@Up_when_up sampleEnv 0 runningDevice eq_refl eq_refl eq_refl eq_refl)
    as (d' & Hrun & _ & Hbind & _ & _ & Htrace).
  exists d'. split; [exact Hrun|]. split; [exact Hbind|exact Htrace].
Defined.

Lemma Up_bind_failure_witness :
  ∃ d', @Up sampleEnv 1 (set_isUp false port53Device)
        = Some (Some (fmt_Errorf bindUpdateFormat
                        (foreign_error "bind: address already in use")), d')
        ∧ isUp d' = false ∧ state_current d' = false.
Proof.
  destruct (@Up_bind_failure sampleEnv 0 (set_isUp false port53Device)
              (foreign_error "bind: address already in use")
              eq_refl eq_refl eq_refl ltac:(vm_compute; reflexivity))
    as (d' & Hrun & Hup & Hcur & _).
  exists d'. split; [exact Hrun|]. split; [exact Hup|exact Hcur].
Defined.

Lemma Up_applies_transition_witness :
  ∃ d', @Up sampleEnv 2 stoppedDevice = Some (None, d')
        ∧ isUp d' = true ∧ state_current d' = true ∧ state_changing d' = false
        ∧ net_bind d' = Some 1%N
        ∧ EvPeerStart 6%N ∈ trace d' ∧ EvSendKeepalive 5%N ∈ trace d'.
Proof.
  destruct (@Up_applies_transition sampleEnv 0 stoppedDevice eq_refl eq_refl eq_refl
              ltac:(vm_compute; reflexivity) ltac:(vm_compute; reflexivity))
    as (d' & Hrun & Hup & Hcur & Hfree & Hbind & _ & Hpeers).
  exists d'. split; [exact Hrun|]. split; [exact Hup|]. split; [exact Hcur|].
  split; [exact Hfree|]. split; [rewrite Hbind; vm_compute; reflexivity|].
  split.
  - apply (Hpeers 6%N (samplePeer 6%N 3%N)). vm_compute. reflexivity.
  - apply (Hpeers 5%N (mkPeer 5%N 15%N 0 25 (Some (mkEndpoint "192.0.2.1:51820")) [])).
    + vm_compute. reflexivity.
    + vm_compute. reflexivity.
Defined.

(** ** The bind: update, close, firewall mark *)

Section bind_rest.
Context `{!Env}.

Lemma clearSrc_keeps ps deferred d e :
  (e ∈ trace d → e ∈ trace (clearSrc ps deferred d).2)
  ∧ (e ∈ deferred → e ∈ (clearSrc ps deferred d).1).
Proof.
  revert deferred d. induction ps as [|[k peer] ps IH]; intros deferred d; simpl; [tauto|].
  split.
  - intros He. apply IH. destruct (endpoint peer); simpl; rewrite ?elem_of_app; tauto.
  - intros He. apply IH. right. exact He.
Qed.

Lemma clearSrc_visits ps deferred d k peer :
  (k, peer) ∈ ps →
  EvLock (PeerLock k) ∈ trace (clearSrc ps deferred d).2
  ∧ EvUnlock (PeerLock k) ∈ (clearSrc ps deferred d).1
  ∧ (is_Some (endpoint peer) → EvClearSrc k ∈ trace (clearSrc ps deferred d).2).
Proof.
  revert deferred d. induction ps as [|[k' peer'] ps IH]; intros deferred d Hin;
    [inversion Hin|].
  apply elem_of_cons in Hin as [Heq|Hin]; [|simpl; apply IH; exact Hin].
  injection Heq as <- <-. simpl. split; [|split].
  - apply clearSrc_keeps.
    destruct (endpoint peer); simpl; rewrite ?elem_of_app, ?list_elem_of_singleton; tauto.
  - apply clearSrc_keeps. left.
  - intros [ep Hep]. apply clearSrc_keeps. rewrite Hep. simpl.
    rewrite !elem_of_app, !list_elem_of_singleton. tauto.
Qed.

(** X5: with [skipBindUpdate] set and a bind in place, [BindUpdate] returns
    nil and only takes and releases the net lock: the bind is not closed, no
    bind is created, bind and port stay. *)
Theorem BindUpdate_skipped (d : Device) (b : Bind) :
  skipBindUpdate d = true →
  net_bind d = Some b →
  (BindUpdate d).1 = None
  ∧ net_bind (BindUpdate d).2 = Some b
  ∧ net_port (BindUpdate d).2 = net_port d
  ∧ trace (BindUpdate d).2 = trace d ++ [EvLock NetLock; EvUnlock NetLock].
Proof.
  intros Hskip Hbind. unfold BindUpdate. cbv zeta.
  change (skipBindUpdate (emit (EvLock NetLock) d)) with (skipBindUpdate d).
  change (net_bind (emit (EvLock NetLock) d)) with (net_bind d).
  rewrite Hskip, Hbind. rewrite bool_decide_eq_true_2 by discriminate.
  simpl. rewrite Hbind, <- app_assoc. auto.
Qed.

(** [BindUpdate] on a device that is not wanted up. *)
Lemma BindUpdate_down (d : Device) :
  isUp d = false →
  skipBindUpdate d && bool_decide (net_bind d ≠ None) = false →
  BindUpdate d = BindClose d
  ∧ net_bind (BindUpdate d).2 = None
  ∧ net_port (BindUpdate d).2 = net_port d.
Proof.
  intros Hdown Hskip. unfold BindUpdate, BindClose. cbv zeta.
  change (skipBindUpdate (emit (EvLock NetLock) d)) with (skipBindUpdate d).
  change (net_bind (emit (EvLock NetLock) d)) with (net_bind d).
  rewrite Hskip.
  pose proof (unsafeCloseBind_outside_net (emit (EvLock NetLock) d)) as Hout.
  pose proof (unsafeCloseBind_bind (emit (EvLock NetLock) d)) as Hnil.
  pose proof (unsafeCloseBind_port (emit (EvLock NetLock) d)) as Hport.
  destruct (unsafeCloseBind (emit (EvLock NetLock) d)) as [[err|] d1];
    cbn [fst snd] in *.
  - auto.
  - unfold outside_net in Hout. simpl in Hout.
    replace (isUp d1) with false by congruence. auto.
Qed.

(** X6: on a device that is not wanted up, [BindUpdate] (fast path apart)
    does what [BindClose] does: it closes the bind that exists, creates
    none, leaves no bind and keeps the port. *)
Theorem BindUpdate_down_is_BindClose (d : Device) :
  isUp d = false →
  skipBindUpdate d && bool_decide (net_bind d ≠ None) = false →
  BindUpdate d = BindClose d
  ∧ net_bind (BindUpdate d).2 = None
  ∧ net_port (BindUpdate d).2 = net_port d.
Proof. apply BindUpdate_down. Qed.

(** X7: when closing the old bind fails, [BindUpdate] returns that error
    and stops there, also on a device that is wanted up: no bind is created,
    the old bind is dropped and the port is kept. *)
Theorem BindUpdate_close_error (d : Device) (err : error) :
  skipBindUpdate d && bool_decide (net_bind d ≠ None) = false →
  (unsafeCloseBind (emit (EvLock NetLock) d)).1 = Some err →
  (BindUpdate d).1 = Some err
  ∧ net_bind (BindUpdate d).2 = None
  ∧ net_port (BindUpdate d).2 = net_port d
  ∧ trace (BindUpdate d).2
    = trace (unsafeCloseBind (emit (EvLock NetLock) d)).2 ++ [EvUnlock NetLock].
Proof.
  intros Hskip Herr. unfold BindUpdate. cbv zeta.
  change (skipBindUpdate (emit (EvLock NetLock) d)) with (skipBindUpdate d).
  change (net_bind (emit (EvLock NetLock) d)) with (net_bind d).
  rewrite Hskip.
  pose proof (unsafeCloseBind_bind (emit (EvLock NetLock) d)) as Hnil.
  pose proof (unsafeCloseBind_port (emit (EvLock NetLock) d)) as Hport.
  destruct (unsafeCloseBind (emit (EvLock NetLock) d)) as [[e|] d1];
    cbn [fst snd] in *; [|discriminate].
  injection Herr as ->. auto.
Qed.

Lemma unsafeCloseBind_trace d :
  (∀ e, e ∈ trace d → e ∈ trace (unsafeCloseBind d).2)
  ∧ (∀ b, net_bind d = Some b → EvBindClose b ∈ trace (unsafeCloseBind d).2)
  ∧ (net_bind d = None → (unsafeCloseBind d).1 = None
                         ∧ ∀ b, EvBindClose b ∈ trace (unsafeCloseBind d).2 →
                                EvBindClose b ∈ trace d).
Proof.
  unfold unsafeCloseBind.
  destruct (net_netlinkCancel d) as [c|]; simpl; destruct (net_bind d) as [b0|]; simpl;
    (split; [intros e He; rewrite ?elem_of_app; tauto|]);
    (split; [intros b Hb; try discriminate; injection Hb as ->;
             rewrite ?elem_of_app, ?list_elem_of_singleton; tauto|]);
    intros Hnone; try discriminate; (split; [reflexivity|]);
    intros b Hin;
    repeat (apply elem_of_app in Hin as [Hin|Hin];
            [|apply list_elem_of_singleton in Hin; discriminate]);
    exact Hin.
Qed.

(** X8: a [BindUpdate] that succeeds on a device that is wanted up leaves a
    bind, the one the factory made, with the port the factory assigned. On
    the way the old bind was closed, the non-zero fwmark was applied to the
    new bind, every peer was locked and unlocked again, the cached source of
    every peer with an endpoint was cleared, and the receivers were
    started. *)
Theorem BindUpdate_success (d : Device) :
  skipBindUpdate d && bool_decide (net_bind d ≠ None) = false →
  isUp d = true →
  (BindUpdate d).1 = None →
  let d1 := (unsafeCloseBind (emit (EvLock NetLock) d)).2 in
  ∃ b p, createBind (net_port d) d1 = inl (b, p)
         ∧ net_bind (BindUpdate d).2 = Some b
         ∧ net_port (BindUpdate d).2 = p
         ∧ EvStartReceivers b ∈ trace (BindUpdate d).2
         ∧ (∀ b0, net_bind d = Some b0 → EvBindClose b0 ∈ trace (BindUpdate d).2)
         ∧ (net_fwmark d ≠ 0 → EvBindSetMark b (net_fwmark d) ∈ trace (BindUpdate d).2)
         ∧ ∀ k peer, peers_keyMap d !! k = Some peer →
             EvLock (PeerLock k) ∈ trace (BindUpdate d).2
             ∧ EvUnlock (PeerLock k) ∈ trace (BindUpdate d).2
             ∧ (is_Some (endpoint peer) → EvClearSrc k ∈ trace (BindUpdate d).2).
Proof.
  intros Hskip Hup Hok d1. subst d1. unfold BindUpdate in *. cbv zeta in *.
  change (skipBindUpdate (emit (EvLock NetLock) d)) with (skipBindUpdate d) in *.
  change (net_bind (emit (EvLock NetLock) d)) with (net_bind d) in *.
  rewrite Hskip in *.
  pose proof (unsafeCloseBind_outside_net (emit (EvLock NetLock) d)) as Hout.
  pose proof (unsafeCloseBind_port (emit (EvLock NetLock) d)) as Hport.
  destruct (unsafeCloseBind_trace (emit (EvLock NetLock) d)) as (_ & Hclosed & _).
  destruct (unsafeCloseBind (emit (EvLock NetLock) d)) as [[err|] d1];
    cbn [fst snd] in *; [discriminate|].
  unfold outside_net in Hout. simpl in Hout, Hport, Hclosed.
  assert (Hfacts : isUp d1 = true ∧ net_fwmark d1 = net_fwmark d
                   ∧ peers_keyMap d1 = peers_keyMap d) by (repeat split; congruence).
  destruct Hfacts as (Hup1 & Hfw & Hmap).
  rewrite Hup1, Hport in *.
  destruct (createBind (net_port d) d1) as [[b p]|err]; [|discriminate].
  exists b, p. split; [reflexivity|].
  destruct (startRouteListener b _) as [cancel [err|]]; [discriminate|].
  change (net_fwmark (set_net_netlinkCancel cancel
            (emit (EvStartRouteListener b)
               (set_net_port p (set_net_bind (Some b) (emit (EvCreateBind (net_port d)) d1))))))
    with (net_fwmark d1) in *.
  rewrite Hfw in *.
  set (d3 := set_net_netlinkCancel cancel _) in *.
  assert (H3 : net_bind d3 = Some b ∧ net_port d3 = p
               ∧ peers_keyMap d3 = peers_keyMap d
               ∧ ∀ e, e ∈ trace d1 → e ∈ trace d3).
  { subst d3. simpl. repeat split; try assumption.
    intros e He. rewrite !elem_of_app. tauto. }
  destruct H3 as (Hb3 & Hp3 & Hmap3 & Hkeep3).
  set (marked := if bool_decide (net_fwmark d ≠ 0)
                 then (Bind_SetMark b (net_fwmark d) d3,
                       emit (EvBindSetMark b (net_fwmark d)) d3)
                 else (None, d3)) in *.
  assert (Hm : net_bind marked.2 = Some b ∧ net_port marked.2 = p
               ∧ peers_keyMap marked.2 = peers_keyMap d
               ∧ (∀ e, e ∈ trace d3 → e ∈ trace marked.2)
               ∧ (net_fwmark d ≠ 0 → EvBindSetMark b (net_fwmark d) ∈ trace marked.2)).
  { subst marked. destruct (decide (net_fwmark d ≠ 0)) as [Hne|He].
    - rewrite (bool_decide_eq_true_2 _ Hne). simpl. repeat split; try assumption.
      + intros e He. rewrite elem_of_app. tauto.
      + intros _. rewrite elem_of_app, list_elem_of_singleton. tauto.
    - rewrite (bool_decide_eq_false_2 _ He). simpl. repeat split; try assumption.
      + tauto.
      + intros Hne. contradiction. }
  destruct marked as [[err|] d4]; cbn [fst snd] in *; [discriminate|].
  destruct Hm as (Hb4 & Hp4 & Hmap4 & Hkeep4 & Hmark4).
  set (d5 := emit (EvRLock PeersLock) d4) in *.
  pose proof (clearSrc_net (rangeOrder d5 (peers_keyMap d5)) [] d5) as [Hcb Hcp].
  pose proof (λ e, clearSrc_keeps (rangeOrder d5 (peers_keyMap d5)) [] d5 e) as Hck.
  pose proof (λ k peer, clearSrc_visits (rangeOrder d5 (peers_keyMap d5)) [] d5 k peer)
    as Hcv.
  destruct (clearSrc (rangeOrder d5 (peers_keyMap d5)) [] d5) as [deferred d6].
  cbn [fst snd] in *.
  assert (Hkeep6 : ∀ e, e ∈ trace d1 → e ∈ trace d6).
  { intros e He. apply Hck. subst d5. simpl. rewrite elem_of_app. left.
    apply Hkeep4, Hkeep3, He. }
  unfold d5 in Hcb, Hcp. simpl in Hcb, Hcp.
  simpl. split; [congruence|]. split; [congruence|].
  split; [rewrite !elem_of_app, !list_elem_of_singleton; tauto|].
  split.
  { intros b0 Hb0. rewrite !elem_of_app. left. left. left. left.
    apply Hkeep6, Hclosed, Hb0. }
  split.
  { intros Hne. rewrite !elem_of_app. left. left. left. left.
    apply Hck. subst d5. simpl. rewrite elem_of_app. left. apply Hmark4, Hne. }
  intros k peer Hk.
  assert (Hin : (k, peer) ∈ rangeOrder d5 (peers_keyMap d5)).
  { apply elem_of_rangeOrder. subst d5. simpl. congruence. }
  destruct (Hcv k peer Hin) as (Hlock & Hunlock & Hclear).
  rewrite !elem_of_app. tauto.
Qed.

(** X9: [BindClose] always leaves the device without a bind and touches
    nothing but the bind; without a bind it returns nil and closes no socket;
    a second [BindClose] returns nil whatever the first one returned. *)
Theorem BindClose_closes (d : Device) :
  net_bind (BindClose d).2 = None
  ∧ net_port (BindClose d).2 = net_port d
  ∧ outside_net (BindClose d).2 = outside_net d
  ∧ (∀ b, net_bind d = Some b → EvBindClose b ∈ trace (BindClose d).2)
  ∧ (net_bind d = None →
     (BindClose d).1 = None
     ∧ ∀ b, EvBindClose b ∈ trace (BindClose d).2 → EvBindClose b ∈ trace d)
  ∧ (BindClose (BindClose d).2).1 = None.
Proof.
  assert (Hnone : ∀ d0, net_bind d0 = None →
            (BindClose d0).1 = None
            ∧ ∀ b, EvBindClose b ∈ trace (BindClose d0).2 → EvBindClose b ∈ trace d0).
  { intros d0 Hb. unfold BindClose.
    destruct (unsafeCloseBind_trace (emit (EvLock NetLock) d0)) as (_ & _ & Hn).
    specialize (Hn Hb).
    destruct (unsafeCloseBind (emit (EvLock NetLock) d0)) as [e c1]. cbn [fst snd] in *.
    destruct Hn as [-> Hn]. split; [reflexivity|].
    intros b. simpl. rewrite elem_of_app, list_elem_of_singleton.
    intros [Hin|Hin]; [|discriminate]. apply Hn in Hin. simpl in Hin.
    apply elem_of_app in Hin as [Hin|Hin]; [exact Hin|].
    apply list_elem_of_singleton in Hin. discriminate. }
  assert (Hnil : net_bind (BindClose d).2 = None).
  { unfold BindClose.
    pose proof (unsafeCloseBind_bind (emit (EvLock NetLock) d)) as Hb.
    destruct (unsafeCloseBind (emit (EvLock NetLock) d)) as [e c1]. exact Hb. }
  split; [exact Hnil|]. split; [|split; [apply BindClose_outside_net|split; [|split]]].
  - unfold BindClose.
    pose proof (unsafeCloseBind_port (emit (EvLock NetLock) d)) as Hp.
    destruct (unsafeCloseBind (emit (EvLock NetLock) d)) as [e c1]. exact Hp.
  - intros b Hb. unfold BindClose.
    destruct (unsafeCloseBind_trace (emit (EvLock NetLock) d)) as (_ & Hc & _).
    specialize (Hc b Hb).
    destruct (unsafeCloseBind (emit (EvLock NetLock) d)) as [e c1]. simpl in *.
    rewrite elem_of_app. tauto.
  - apply Hnone.
  - apply Hnone. exact Hnil.
Qed.

Lemma BindSetMark_same (mark : Z) (d : Device) :
  net_fwmark d = mark →
  BindSetMark mark d = (None, emit (EvUnlock NetLock) (emit (EvLock NetLock) d)).
Proof.
  intros Hsame. unfold BindSetMark. cbv zeta.
  change (net_fwmark (emit (EvLock NetLock) d)) with (net_fwmark d).
  rewrite (bool_decide_eq_true_2 _ Hsame). reflexivity.
Qed.

Lemma BindSetMark_fields (mark : Z) (d : Device) :
  net_fwmark (BindSetMark mark d).2 = mark
  ∧ net_bind (BindSetMark mark d).2 = net_bind d
  ∧ net_port (BindSetMark mark d).2 = net_port d.
Proof.
  destruct (decide (net_fwmark d = mark)) as [Hsame|Hdiff].
  { rewrite (BindSetMark_same mark d Hsame). simpl. auto. }
  unfold BindSetMark. cbv zeta.
  change (net_fwmark (emit (EvLock NetLock) d)) with (net_fwmark d).
  rewrite (bool_decide_eq_false_2 _ Hdiff).
  set (d1 := set_net_fwmark mark (emit (EvLock NetLock) d)).
  set (applied := match net_bind d1 with
                  | Some b => if isUp d1
                              then (Bind_SetMark b mark d1, emit (EvBindSetMark b mark) d1)
                              else (None, d1)
                  | None => (None, d1)
                  end).
  assert (Ha : net_fwmark applied.2 = mark ∧ net_bind applied.2 = net_bind d
               ∧ net_port applied.2 = net_port d).
  { subst applied. destruct (net_bind d1) eqn:Hb; [destruct (isUp d1)|]; simpl; auto. }
  destruct applied as [[err|] d2]; cbn [fst snd] in *; [exact Ha|].
  destruct Ha as (Hf & Hb & Hp).
  set (d3 := emit (EvRLock PeersLock) d2).
  pose proof (clearSrc_outside_net (rangeOrder d3 (peers_keyMap d3)) [] d3) as Hout.
  pose proof (clearSrc_net (rangeOrder d3 (peers_keyMap d3)) [] d3) as [Hcb Hcp].
  destruct (clearSrc (rangeOrder d3 (peers_keyMap d3)) [] d3) as [deferred d4].
  cbn [fst snd] in *. unfold outside_net, d3 in Hout. simpl in Hout, Hcb, Hcp. simpl.
  repeat split; congruence.
Qed.

(** X10: [BindSetMark] stores the mark before it applies it. Afterwards the
    stored fwmark is the requested one, also when applying it to the bind
    failed, and bind and port are untouched; a call with the stored mark
    only takes and releases the net lock, so repeating a call, also a failed
    one, returns nil without applying the mark; and without a live bind on an
    up device the call cannot fail. *)
Theorem BindSetMark_persists (mark : Z) (d : Device) :
  net_fwmark (BindSetMark mark d).2 = mark
  ∧ net_bind (BindSetMark mark d).2 = net_bind d
  ∧ net_port (BindSetMark mark d).2 = net_port d
  ∧ BindSetMark mark (BindSetMark mark d).2
    = (None, emit (EvUnlock NetLock) (emit (EvLock NetLock) (BindSetMark mark d).2))
  ∧ (isUp d = false ∨ net_bind d = None → (BindSetMark mark d).1 = None).
Proof.
  destruct (BindSetMark_fields mark d) as (Hf & Hb & Hp).
  split; [exact Hf|]. split; [exact Hb|]. split; [exact Hp|].
  split; [apply BindSetMark_same; exact Hf|].
  intros Hdead. unfold BindSetMark. cbv zeta.
  destruct (bool_decide _); [reflexivity|].
  change (net_bind (set_net_fwmark mark (emit (EvLock NetLock) d))) with (net_bind d).
  change (isUp (set_net_fwmark mark (emit (EvLock NetLock) d))) with (isUp d).
  destruct (net_bind d) as [b|] eqn:Hbind.
  - destruct Hdead as [Hdown|?]; [|discriminate]. rewrite Hdown.
    destruct (clearSrc _ _ _). reflexivity.
  - destruct (clearSrc _ _ _). reflexivity.
Qed.

End bind_rest.

(** The mark that could not be applied: the call fails, the mark is stored,
    and the same call again returns nil. *)
Example BindSetMark_failed_then_repeated :
  (@BindSetMark sampleEnv 13 runningDevice).1
  = Some (foreign_error "setsockopt: operation not permitted")
  ∧ net_fwmark (@BindSetMark sampleEnv 13 runningDevice).2 = 13
  ∧ (@BindSetMark sampleEnv 13 (@BindSetMark sampleEnv 13 runningDevice).2).1 = None.
Proof. vm_compute. auto. Qed.

Lemma BindUpdate_skipped_witness :
  (@BindUpdate sampleEnv (mkDevice true false true false true (Some 1%N) None 51820 0
                            0%N 0%N false ∅ [] zeroTime [] [])).1 = None
  ∧ net_bind (@BindUpdate sampleEnv (mkDevice true false true false true (Some 1%N) None
                                       51820 0 0%N 0%N false ∅ [] zeroTime [] [])).2
    = Some 1%N.
Proof.
  destruct (@BindUpdate_skipped sampleEnv
              (mkDevice true false true false true (Some 1%N) None 51820 0
                 0%N 0%N false ∅ [] zeroTime [] []) 1%N eq_refl eq_refl)
    as (Hnil & Hbind & _).
  split; [exact Hnil|exact Hbind].
Defined.

Lemma BindUpdate_down_is_BindClose_witness :
  @BindUpdate sampleEnv (set_isUp false runningDevice)
  = @BindClose sampleEnv (set_isUp false runningDevice)
  ∧ net_bind (@BindUpdate sampleEnv (set_isUp false runningDevice)).2 = None.
Proof.
  destruct (@BindUpdate_down_is_BindClose sampleEnv (set_isUp false runningDevice)
              eq_refl eq_refl) as (Hsame & Hnil & _).
  split; [exact Hsame|exact Hnil].
Defined.

Lemma BindUpdate_close_error_witness :
  (@BindUpdate failingCloseEnv runningDevice).1
  = Some (foreign_error "close: bad file descriptor")
  ∧ net_bind (@BindUpdate failingCloseEnv runningDevice).2 = None
  ∧ net_port (@BindUpdate failingCloseEnv runningDevice).2 = 51820.
Proof.
  destruct (@BindUpdate_close_error failingCloseEnv runningDevice
              (foreign_error "close: bad file descriptor") eq_refl
              ltac:(vm_compute; reflexivity)) as (Herr & Hnil & Hport & _).
  split; [exact Herr|]. split; [exact Hnil|exact Hport].
Defined.

Lemma BindUpdate_success_witness :
  ∃ b p, net_bind (@BindUpdate sampleEnv runningDevice).2 = Some b
         ∧ net_port (@BindUpdate sampleEnv runningDevice).2 = p
         ∧ EvBindClose 1%N ∈ trace (@BindUpdate sampleEnv runningDevice).2
         ∧ EvClearSrc 5%N ∈ trace (@BindUpdate sampleEnv runningDevice).2.
Proof.
  destruct (@BindUpdate_success sampleEnv runningDevice eq_refl eq_refl
              ltac:(vm_compute; reflexivity))
    as (b & p & _ & Hbind & Hport & _ & Hclosed & _ & Hpeers).
  exists b, p. split; [exact Hbind|]. split; [exact Hport|].
  split; [apply (Hclosed 1%N); reflexivity|].
  apply (Hpeers 5%N (mkPeer 5%N 15%N 0 25 (Some (mkEndpoint "192.0.2.1:51820")) [])).
  - vm_compute. reflexivity.
  - eexists. reflexivity.
Defined.

(** ** The peer set *)

Section peer_set.
Context `{!Env}.

Lemma foldl_delete_lookup (ks : list NoisePublicKey) (m : gmap NoisePublicKey Peer) k :
  foldl (λ m k, delete k m) m ks !! k = if decide (k ∈ ks) then None else m !! k.
Proof.
  revert m. induction ks as [|k' ks IH]; intros m; simpl.
  - reflexivity.
  - rewrite IH. destruct (decide (k ∈ ks)) as [Hin|Hnin].
    + rewrite decide_True by (right; exact Hin). reflexivity.
    + destruct (decide (k = k')) as [->|Hne].
      * rewrite decide_True by left. apply lookup_delete_eq.
      * rewrite decide_False by (rewrite elem_of_cons; tauto).
        apply lookup_delete_ne. congruence.
Qed.

Lemma unsafeRemovePeers_spec (ks : list NoisePublicKey) (d : Device) :
  let d' := foldl (λ d key, unsafeRemovePeer key key d) d ks in
  peers_keyMap d' = foldl (λ m k, delete k m) (peers_keyMap d) ks
  ∧ (∀ rt, rt ∈ allowedips d' ↔ rt ∈ allowedips d ∧ route_peer rt ∉ ks)
  ∧ peers_empty d' = (if decide (ks = []) then peers_empty d
                      else bool_decide (size (peers_keyMap d') = 0%nat))
  ∧ outside_peers d' = outside_peers d.
Proof.
  revert d. induction ks as [|k ks IH]; intros d; simpl.
  - split; [reflexivity|]. split; [|split; reflexivity].
    intros rt. split; [intros Hrt; split; [exact Hrt|intros Hin; inversion Hin]|tauto].
  - specialize (IH (unsafeRemovePeer k k d)). simpl in IH.
    destruct IH as (Hmap & Hroutes & Hempty & Hout).
    split; [exact Hmap|]. split; [|split; [|exact Hout]].
    + intros rt. rewrite Hroutes. unfold AllowedIPs_RemoveByPeer.
      rewrite list_elem_of_filter, elem_of_cons. tauto.
    + rewrite Hempty. destruct (decide (ks = [])) as [->|_]; reflexivity.
Qed.

(** What [RemovePeer] does, for a key that is in the map and for one that
    is not. *)
Lemma RemovePeer_effect (key : NoisePublicKey) (d : Device) :
  let d' := RemovePeer key d in
  peers_keyMap d' = delete key (peers_keyMap d)
  ∧ (LookupPeer key d').1 = None
  ∧ control d' = control d
  ∧ (peers_keyMap d !! key = None →
     d' = emit (EvUnlock PeersLock) (emit (EvLock PeersLock) d))
  ∧ (is_Some (peers_keyMap d !! key) →
     allowedips d' = AllowedIPs_RemoveByPeer key (allowedips d)
     ∧ (peers_empty d' = true ↔ peers_keyMap d' = ∅)
     ∧ trace d' = trace d ++ [EvLock PeersLock; EvUnlock PeersLock; EvPeerStop key]).
Proof.
  unfold RemovePeer. cbv zeta.
  change (peers_keyMap (emit (EvLock PeersLock) d)) with (peers_keyMap d).
  destruct (peers_keyMap d !! key) as [peer|] eqn:Hkey.
  - simpl. split; [reflexivity|]. split; [apply lookup_delete_eq|].
    split; [reflexivity|]. split; [discriminate|]. intros _.
    split; [reflexivity|]. split.
    + rewrite bool_decide_eq_true. apply map_size_empty_iff.
    + rewrite <- !app_assoc. reflexivity.
  - simpl. split; [symmetry; apply delete_id; exact Hkey|].
    split; [exact Hkey|]. split; [reflexivity|]. split; [reflexivity|].
    intros [? ?]. discriminate.
Qed.

(** X11: [RemovePeer]. For a key that is not in the map nothing happens but
    taking and releasing the peers lock, and [Stop] is not called. For a key
    that is in the map the entry is deleted and the other entries stay, the
    routes of the peer are removed from the allowed-IPs table, the empty flag
    says whether the map is now empty, and [Stop] is called once, after the
    lock is released. Either way a lookup of the key then finds nothing. *)
Theorem RemovePeer_spec (key : NoisePublicKey) (d : Device) :
  let d' := RemovePeer key d in
  peers_keyMap d' = delete key (peers_keyMap d)
  ∧ (LookupPeer key d').1 = None
  ∧ control d' = control d
  ∧ (peers_keyMap d !! key = None →
     d' = emit (EvUnlock PeersLock) (emit (EvLock PeersLock) d))
  ∧ (is_Some (peers_keyMap d !! key) →
     allowedips d' = AllowedIPs_RemoveByPeer key (allowedips d)
     ∧ (peers_empty d' = true ↔ peers_keyMap d' = ∅)
     ∧ trace d' = trace d ++ [EvLock PeersLock; EvUnlock PeersLock; EvPeerStop key]).
Proof. apply RemovePeer_effect. Qed.

(** What [RemoveAllPeers] does to the map, the routes and the peers. *)
Lemma RemoveAllPeers_effect (d : Device) :
  let d' := RemoveAllPeers d in
  peers_keyMap d' = ∅
  ∧ (∃ stops, stops ≡ₚ (map_to_list (peers_keyMap d)).*1
              ∧ trace d' = trace d ++ [EvLock PeersLock; EvUnlock PeersLock]
                           ++ (EvPeerStop <$> stops))
  ∧ (∀ rt, rt ∈ allowedips d' ↔
           rt ∈ allowedips d ∧ peers_keyMap d !! route_peer rt = None)
  ∧ peers_empty d' = (if decide (peers_keyMap d = ∅) then peers_empty d else true)
  ∧ control d' = control d.
Proof.
  unfold RemoveAllPeers. cbv zeta.
  set (d0 := emit (EvLock PeersLock) d).
  set (ks := (rangeOrder d0 (peers_keyMap d0)).*1).
  assert (Hks : ∀ k, k ∈ ks ↔ is_Some (peers_keyMap d !! k))
    by (intros k; apply elem_of_rangeOrder_keys).
  assert (Hperm : ks ≡ₚ (map_to_list (peers_keyMap d)).*1).
  { subst ks. rewrite (rangeOrder_perm Peer d0 (peers_keyMap d0)). reflexivity. }
  destruct (unsafeRemovePeers_spec ks d0) as (Hmap & Hroutes & Hempty & Hout).
  set (d1 := foldl (λ d key, unsafeRemovePeer key key d) d0 ks) in *.
  unfold outside_peers in Hout. simpl in Hout.
  split; [reflexivity|]. split; [|split; [|split]].
  - exists ks. split; [exact Hperm|]. simpl.
    replace (trace d1) with (trace d ++ [EvLock PeersLock]) by congruence.
    rewrite <- !app_assoc. reflexivity.
  - intros rt. simpl. rewrite Hroutes. simpl. rewrite Hks.
    rewrite <- not_eq_None_Some.
    destruct (peers_keyMap d !! route_peer rt); split; intros [? Hn]; split; auto;
      try congruence; try (exfalso; apply Hn; congruence).
  - simpl. rewrite Hempty. destruct (decide (ks = [])) as [Hnil|Hcons].
    + rewrite decide_True; [reflexivity|].
      apply map_to_list_empty_iff. rewrite Hnil in Hperm.
      apply Permutation_nil_l in Hperm. symmetry in Hperm.
      apply fmap_nil_inv in Hperm. exact Hperm.
    + rewrite decide_False.
      * apply bool_decide_eq_true. apply map_size_empty_iff, map_empty.
        intros k. rewrite Hmap, foldl_delete_lookup.
        destruct (decide (k ∈ ks)) as [|Hnin]; [reflexivity|].
        simpl. rewrite Hks in Hnin. rewrite eq_None_not_Some. exact Hnin.
      * intros Hm. apply Hcons. apply Permutation_nil_r. rewrite Hperm, Hm.
        rewrite map_to_list_empty. reflexivity.
  - unfold control. simpl. clearbody d1. injection Hout; intros; congruence.
Qed.

(** X12: [RemoveAllPeers] leaves an empty peer map and calls [Stop] once on
    every peer that was in it, after the peers lock is released; the routes
    of those peers are gone from the allowed-IPs table; the empty flag is set
    when there was a peer to remove and is left as it was otherwise; the
    switches, the state machine and the bind are untouched. *)
Theorem RemoveAllPeers_spec (d : Device) :
  let d' := RemoveAllPeers d in
  peers_keyMap d' = ∅
  ∧ (∃ stops, stops ≡ₚ (map_to_list (peers_keyMap d)).*1
              ∧ trace d' = trace d ++ [EvLock PeersLock; EvUnlock PeersLock]
                           ++ (EvPeerStop <$> stops))
  ∧ (∀ rt, rt ∈ allowedips d' ↔
           rt ∈ allowedips d ∧ peers_keyMap d !! route_peer rt = None)
  ∧ peers_empty d' = (if decide (peers_keyMap d = ∅) then peers_empty d else true)
  ∧ control d' = control d.
Proof. apply RemoveAllPeers_effect. Qed.

End peer_set.

(** ** Private key rotation: what is kept *)

Section private_key_rest.
Context `{!Env}.

Lemma SetPrivateKey_control sk d : control (SetPrivateKey sk d).2 = control d.
Proof.
  destruct (decide (sk = staticIdentity_privateKey d)) as [->|Hne].
  - rewrite SetPrivateKey_same. reflexivity.
  - rewrite (SetPrivateKey_unfold sk d Hne). cbv zeta.
    set (d0 := emit (EvLock PeersLock) (emit (EvLock StaticIdentityLock) d)).
    set (d1 := emits _ d0).
    pose proof (removeSelfPeers_spec (derivedPublicKey sk)
                  (rangeOrder d1 (peers_keyMap d1)) d1) as (_ & _ & _ & Hout2).
    destruct (removeSelfPeers _ _ d1) as [stops d2]. cbn [fst snd] in *.
    set (d3 := emit _ (set_staticIdentity sk _ d2)).
    pose proof (precomputeStaticStatic_spec (rangeOrder d3 (peers_keyMap d3)).*1 d3)
      as (_ & Hout4 & _).
    cbv zeta in Hout4.
    set (d4 := precomputeStaticStatic _ d3) in *.
    unfold outside_peers in Hout2, Hout4. simpl in Hout2, Hout4.
    unfold control. simpl. clearbody d4.
    injection Hout2; injection Hout4; intros; congruence.
Qed.

(** X13: [SetPrivateKey] always returns nil and stores the key it was
    given, and it keeps the two invariants of the static identity on every
    path: if the stored public key belongs to the stored private key and no
    peer carries the device's own public key, the same holds afterwards. *)
Theorem SetPrivateKey_keeps_invariants (sk : NoisePrivateKey) (d : Device) :
  identity_ok d →
  no_self_peer d →
  (SetPrivateKey sk d).1 = None
  ∧ staticIdentity_privateKey (SetPrivateKey sk d).2 = sk
  ∧ identity_ok (SetPrivateKey sk d).2
  ∧ no_self_peer (SetPrivateKey sk d).2.
Proof.
  intros Hid Hself. unfold identity_ok, no_self_peer in *.
  destruct (decide (sk = staticIdentity_privateKey d)) as [->|Hne].
  - rewrite SetPrivateKey_same. simpl. auto.
  - destruct (SetPrivateKey_changed sk d Hne)
      as (locked & stops & expired & Hnil & Hsk & Hpub & Hmap & _).
    split; [exact Hnil|]. split; [exact Hsk|]. split; [rewrite Hpub, Hsk; reflexivity|].
    intros k p Hk. rewrite Hmap in Hk. rewrite Hpub.
    destruct (peers_keyMap d !! k) as [p0|]; [|discriminate].
    destruct (decide _) as [|Hp]; [discriminate|]. injection Hk as <-. exact Hp.
Qed.

(** X14: setting the key that was just set changes nothing: the second
    call returns at its guard, so no peer is removed, nothing is recomputed
    and no keypair is expired a second time. *)
Theorem SetPrivateKey_idempotent (sk : NoisePrivateKey) (d : Device) :
  let d1 := (SetPrivateKey sk d).2 in
  SetPrivateKey sk d1
  = (None, emits [EvLock StaticIdentityLock; EvUnlock StaticIdentityLock] d1).
Proof.
  intros d1.
  rewrite <- (SetPrivateKey_privateKey sk d) at 1. fold d1.
  apply SetPrivateKey_same.
Qed.

(** X15: a change of the private key touches a peer that stays only in its
    precomputed secret: the peer is found under the same key with the same
    remote static key, endpoint, allowed IPs, keepalive interval and
    handshake time, its routes are kept, and the switches, the state machine
    and the bind of the device are as before. *)
Theorem SetPrivateKey_frame (sk : NoisePrivateKey) (d : Device)
    (k : NoisePublicKey) (p : Peer) :
  sk ≠ staticIdentity_privateKey d →
  peers_keyMap d !! k = Some p →
  handshake_remoteStatic p ≠ derivedPublicKey sk →
  let d' := (SetPrivateKey sk d).2 in
  peers_keyMap d' !! k = Some (precompute sk p)
  ∧ handshake_remoteStatic (precompute sk p) = handshake_remoteStatic p
  ∧ endpoint (precompute sk p) = endpoint p
  ∧ allowedIPs (precompute sk p) = allowedIPs p
  ∧ persistentKeepaliveInterval (precompute sk p) = persistentKeepaliveInterval p
  ∧ handshake_lastSentHandshake (precompute sk p) = handshake_lastSentHandshake p
  ∧ (∀ rt, rt ∈ allowedips d → route_peer rt = k → rt ∈ allowedips d')
  ∧ control d' = control d.
Proof.
  intros Hne Hk Hp d'.
  destruct (SetPrivateKey_changed sk d Hne)
    as (locked & stops & expired & _ & _ & _ & Hmap & Hroutes & Hstops & _).
  fold d' in Hmap, Hroutes.
  split; [rewrite Hmap, Hk; rewrite decide_False by exact Hp; reflexivity|].
  do 5 (split; [reflexivity|]).
  split; [|apply SetPrivateKey_control].
  intros rt Hrt Howner. apply Hroutes. split; [exact Hrt|].
  rewrite Howner, Hstops. intros (p0 & Hk0 & Hp0). congruence.
Qed.

End private_key_rest.

Lemma twoPeerDevice_no_self_peer : no_self_peer twoPeerDevice.
Proof.
  intros k p Hk. apply elem_of_map_to_list in Hk.
  vm_compute in Hk.
  apply elem_of_cons in Hk as [Hk|Hk]; [injection Hk as -> ->; discriminate|].
  apply elem_of_cons in Hk as [Hk|Hk]; [injection Hk as -> ->; discriminate|].
  inversion Hk.
Qed.

Lemma SetPrivateKey_keeps_invariants_witness :
  @identity_ok sampleEnv twoPeerDevice
  ∧ no_self_peer twoPeerDevice
  ∧ staticIdentity_publicKey (@SetPrivateKey sampleEnv 7%N twoPeerDevice).2 = 1007%N
  ∧ no_self_peer (@SetPrivateKey sampleEnv 7%N twoPeerDevice).2.
Proof.
  split; [reflexivity|]. split; [exact twoPeerDevice_no_self_peer|].
  destruct (@SetPrivateKey_keeps_invariants sampleEnv 7%N twoPeerDevice eq_refl
              twoPeerDevice_no_self_peer) as (_ & _ & Hid & Hself).
  split; [|exact Hself]. rewrite Hid. reflexivity.
Defined.

Lemma SetPrivateKey_frame_witness :
  peers_keyMap (@SetPrivateKey sampleEnv 7%N twoPeerDevice).2 !! 5%N
  = Some (mkPeer 5%N 35%N 0 0 None [])
  ∧ mkRoute (IPv4 1) 32 5%N ∈ allowedips (@SetPrivateKey sampleEnv 7%N twoPeerDevice).2.
Proof.
  destruct (@SetPrivateKey_frame sampleEnv 7%N twoPeerDevice 5%N (samplePeer 5%N 3%N)
              ltac:(discriminate) ltac:(vm_compute; reflexivity) ltac:(discriminate))
    as (Hk & _ & _ & _ & _ & _ & Hroutes & _).
  split; [exact Hk|].
  apply Hroutes; [apply list_elem_of_here|reflexivity].
Defined.

(** ** Reconfiguration: old peers, key and port *)

Section reconfig_rest.
Context `{!Env}.

Lemma RemovePeers_spec (ks : list NoisePublicKey) (d : Device) :
  let d' := foldl (λ d k, RemovePeer k d) d ks in
  peers_keyMap d' = foldl (λ m k, delete k m) (peers_keyMap d) ks
  ∧ (∀ k, EvPeerStop k ∈ trace d' ↔
          EvPeerStop k ∈ trace d ∨ (k ∈ ks ∧ is_Some (peers_keyMap d !! k)))
  ∧ control d' = control d ∧ identity d' = identity d.
Proof.
  revert d. induction ks as [|k' ks IH]; intros d; simpl.
  - split; [reflexivity|]. split; [|split; reflexivity].
    intros k. split; [tauto|]. intros [Hin|[Hin _]]; [exact Hin|inversion Hin].
  - specialize (IH (RemovePeer k' d)). simpl in IH.
    destruct IH as (Hmap & Hstop & Hctl & Hid).
    destruct (RemovePeer_effect k' d) as (Hmap1 & _ & Hctl1 & Hmiss & Hhit).
    cbv zeta in *.
    assert (Hid1 : identity (RemovePeer k' d) = identity d).
    { unfold RemovePeer. cbv zeta. destruct (peers_keyMap _ !! k'); reflexivity. }
    split; [rewrite Hmap, Hmap1; reflexivity|].
    split; [|split; congruence].
    intros k. rewrite Hstop, Hmap1.
    assert (Htrace : EvPeerStop k ∈ trace (RemovePeer k' d) ↔
                     EvPeerStop k ∈ trace d ∨ (k = k' ∧ is_Some (peers_keyMap d !! k'))).
    { destruct (peers_keyMap d !! k') as [peer|] eqn:Hk'.
      - destruct (Hhit ltac:(eauto)) as (_ & _ & ->).
        rewrite elem_of_app, !elem_of_cons. split.
        + intros [Hin|[Hin|[Hin|[Hin|Hin]]]]; try discriminate; [tauto| |inversion Hin].
          injection Hin as ->. right. eauto.
        + intros [Hin|[-> _]]; tauto.
      - rewrite (Hmiss eq_refl). simpl. rewrite !elem_of_app, !list_elem_of_singleton.
        split.
        + intros [[Hin|Hin]|Hin]; try discriminate. tauto.
        + intros [Hin|[_ [? ?]]]; [tauto|discriminate]. }
    rewrite Htrace, elem_of_cons.
    destruct (decide (k = k')) as [->|Hne].
    + rewrite lookup_delete_eq. split.
      * intros [[Hin|[_ Hs]]|[_ [? ?]]]; try discriminate; tauto.
      * intros [Hin|[_ Hs]]; tauto.
    + rewrite lookup_delete_ne by congruence. tauto.
Qed.

Lemma oldPeers_lookup (kps : list (NoisePublicKey * Peer)) (m : gmap NoisePublicKey bool) k :
  foldl (λ m kp, <[kp.1 := true]> m) m kps !! k
  = if decide (k ∈ kps.*1) then Some true else m !! k.
Proof.
  revert m. induction kps as [|[k' p] kps IH]; intros m; simpl; [reflexivity|].
  rewrite IH. destruct (decide (k ∈ kps.*1)) as [Hin|Hnin].
  - rewrite decide_True by (right; exact Hin). reflexivity.
  - destruct (decide (k = k')) as [->|Hne].
    + rewrite decide_True by left. apply lookup_insert_eq.
    + rewrite decide_False by (rewrite elem_of_cons; tauto).
      apply lookup_insert_ne. congruence.
Qed.

Lemma configured_lookup (ps : list wgcfg_Peer) (m : gmap NoisePublicKey bool) k :
  foldl (λ m p, delete (PublicKey p) m) m ps !! k
  = if decide (k ∈ PublicKey <$> ps) then None else m !! k.
Proof.
  revert m. induction ps as [|p ps IH]; intros m; simpl; [reflexivity|].
  rewrite IH. destruct (decide (k ∈ PublicKey <$> ps)) as [Hin|Hnin].
  - rewrite decide_True by (right; exact Hin). reflexivity.
  - destruct (decide (k = PublicKey p)) as [->|Hne].
    + rewrite decide_True by left. apply lookup_delete_eq.
    + rewrite decide_False by (rewrite elem_of_cons; tauto).
      apply lookup_delete_ne. congruence.
Qed.

(** What the first step of [Reconfig] does to the peer map and to the peers. *)
Lemma removeOldPeers_effect (cfg : Config) (d : Device) :
  let d' := removeOldPeers cfg d in
  (∀ k, peers_keyMap d' !! k
        = if decide (k ∈ PublicKey <$> Peers cfg) then peers_keyMap d !! k else None)
  ∧ (∀ k, EvPeerStop k ∈ trace d' ↔
          EvPeerStop k ∈ trace d
          ∨ (is_Some (peers_keyMap d !! k) ∧ k ∉ PublicKey <$> Peers cfg))
  ∧ control d' = control d ∧ identity d' = identity d.
Proof.
  unfold removeOldPeers. cbv zeta.
  set (d0 := emit (EvRLock PeersLock) d).
  set (d1 := emit (EvRUnlock PeersLock) d0).
  set (old := foldl (λ m p, delete (PublicKey p) m) _ (Peers cfg)).
  assert (Hold : ∀ k, k ∈ (rangeOrder d1 old).*1 ↔
                      is_Some (peers_keyMap d !! k) ∧ k ∉ PublicKey <$> Peers cfg).
  { intros k. rewrite elem_of_rangeOrder_keys. subst old.
    rewrite configured_lookup, oldPeers_lookup, lookup_empty.
    pose proof (elem_of_rangeOrder_keys d0 (peers_keyMap d0) k) as Hk.
    change (peers_keyMap d0) with (peers_keyMap d) in *.
    destruct (decide (k ∈ PublicKey <$> Peers cfg)) as [Hc|Hc].
    - split; [intros [? ?]; discriminate|tauto].
    - destruct (decide (k ∈ (rangeOrder d0 (peers_keyMap d)).*1)) as [Hin|Hnin].
      + split; [intros _; split; [apply Hk, Hin|exact Hc]|eauto].
      + split; [intros [? ?]; discriminate|]. intros [Hs _]. exfalso. apply Hnin, Hk, Hs. }
  destruct (RemovePeers_spec (rangeOrder d1 old).*1 d1) as (Hmap & Hstop & Hctl & Hid).
  cbv zeta in *. split; [|split; [|split; [exact Hctl|exact Hid]]].
  - intros k. rewrite Hmap, foldl_delete_lookup.
    change (peers_keyMap d1) with (peers_keyMap d).
    destruct (decide (k ∈ (rangeOrder d1 old).*1)) as [Hin|Hnin].
    + apply Hold in Hin as [_ Hc]. rewrite decide_False by exact Hc. reflexivity.
    + destruct (decide (k ∈ PublicKey <$> Peers cfg)) as [Hc|Hc]; [reflexivity|].
      destruct (peers_keyMap d !! k) eqn:Hk; [|reflexivity].
      exfalso. apply Hnin, Hold. eauto.
  - intros k. rewrite Hstop. change (peers_keyMap d1) with (peers_keyMap d).
    rewrite Hold. subst d1 d0. simpl. rewrite !elem_of_app, !list_elem_of_singleton.
    split.
    + intros [[[Hin|Hin]|Hin]|[[Hs Hc] _]]; try discriminate; tauto.
    + intros [Hin|[Hs Hc]]; tauto.
Qed.

(** X18: the first step of [Reconfig] removes exactly the peers that the
    new configuration does not name: a peer whose key is configured stays in
    the map as it is, every other peer leaves the map and [Stop] is called on
    it, and on no other peer. *)
Theorem removeOldPeers_spec (cfg : Config) (d : Device) :
  let d' := removeOldPeers cfg d in
  (∀ k, peers_keyMap d' !! k
        = if decide (k ∈ PublicKey <$> Peers cfg) then peers_keyMap d !! k else None)
  ∧ (∀ k, EvPeerStop k ∈ trace d' ↔
          EvPeerStop k ∈ trace d
          ∨ (is_Some (peers_keyMap d !! k) ∧ k ∉ PublicKey <$> Peers cfg))
  ∧ control d' = control d ∧ identity d' = identity d.
Proof. apply removeOldPeers_effect. Qed.

Lemma SetPrivateKey_nil sk d : (SetPrivateKey sk d).1 = None.
Proof.
  destruct (decide (sk = staticIdentity_privateKey d)) as [->|Hne].
  - rewrite SetPrivateKey_same. reflexivity.
  - destruct (SetPrivateKey_changed sk d Hne) as (? & ? & ? & Hnil & _). exact Hnil.
Qed.

Lemma SetPrivateKey_identity_ok sk d :
  identity_ok d → identity_ok (SetPrivateKey sk d).2.
Proof.
  intros Hid. unfold identity_ok in *.
  destruct (decide (sk = staticIdentity_privateKey d)) as [->|Hne].
  - rewrite SetPrivateKey_same. exact Hid.
  - destruct (SetPrivateKey_changed sk d Hne) as (? & ? & ? & _ & Hsk & Hpub & _).
    rewrite Hpub, Hsk. reflexivity.
Qed.

(** The steps of [Reconfig] before the bind update: no error, the private
    key is the configured one, the stored port is the configured one. *)
Lemma reconfigPrepare_effect cfg d :
  (reconfigPrepare cfg d).1 = None
  ∧ staticIdentity_privateKey (reconfigPrepare cfg d).2 = PrivateKey cfg
  ∧ (identity_ok d → identity_ok (reconfigPrepare cfg d).2)
  ∧ switches (reconfigPrepare cfg d).2 = switches d
  ∧ net_port (reconfigPrepare cfg d).2 = ListenPort cfg
  ∧ net_bind (reconfigPrepare cfg d).2 = net_bind d.
Proof.
  unfold reconfigPrepare.
  destruct (removeOldPeers_effect cfg d) as (_ & _ & Hctl0 & Hid0). cbv zeta in *.
  set (d0 := removeOldPeers cfg d) in *.
  assert (Hreset : (resetPrivateKey cfg d0).1 = None
                   ∧ staticIdentity_privateKey (resetPrivateKey cfg d0).2 = PrivateKey cfg
                   ∧ (identity_ok d0 → identity_ok (resetPrivateKey cfg d0).2)
                   ∧ control (resetPrivateKey cfg d0).2 = control d0).
  { unfold resetPrivateKey. cbv zeta.
    change (staticIdentity_privateKey (emit (EvLock StaticIdentityLock) d0))
      with (staticIdentity_privateKey d0).
    destruct (decide (staticIdentity_privateKey d0 = PrivateKey cfg)) as [Hsame|Hdiff].
    - rewrite (bool_decide_eq_true_2 _ Hsame). simpl. auto.
    - rewrite (bool_decide_eq_false_2 _ Hdiff). simpl.
      split; [apply SetPrivateKey_nil|]. split; [apply SetPrivateKey_privateKey|].
      split; [intros Hid; apply SetPrivateKey_identity_ok; exact Hid|].
      rewrite SetPrivateKey_control. reflexivity. }
  destruct (resetPrivateKey cfg d0) as [[err|] d1]; cbn [fst snd] in *;
    destruct Hreset as (Hnil & Hsk & Hid & Hctl); [discriminate|].
  unfold control, identity in *. unfold identity_ok in *. simpl.
  clearbody d0.
  injection Hctl0; injection Hctl; injection Hid0; intros.
  split; [reflexivity|]. split; [exact Hsk|].
  split; [intros Hd; apply Hid; congruence|].
  split; [unfold switches, setListenPort; simpl; congruence|].
  split; [reflexivity|congruence].
Qed.

Lemma reconfigPeer_frame now p d nk :
  control (reconfigPeer now p d nk).2.1 = control d
  ∧ identity (reconfigPeer now p d nk).2.1 = identity d.
Proof.
  assert (Hins : ∀ pk ips d0,
            control (insertAllowedIPs pk ips d0) = control d0
            ∧ identity (insertAllowedIPs pk ips d0) = identity d0).
  { intros pk ips. unfold insertAllowedIPs.
    induction ips as [|ip ips IH]; intros d0; simpl; [auto|].
    destruct (IH (set_allowedips
                    (AllowedIPs_Insert (prefix_IP ip) (prefix_Bits ip) pk (allowedips d0)) d0))
      as [-> ->]. auto. }
  unfold reconfigPeer, LookupPeer, NewPeer. cbv zeta.
  destruct (bool_decide (Endpoints p = EmptyString));
    repeat first [ progress reconfig_reduce | reconfig_case ];
    try (split; reflexivity);
    match goal with
    | |- context [insertAllowedIPs ?pk ?ips ?d0] =>
        destruct (Hins pk ips d0) as [-> ->]
    end; split; reflexivity.
Qed.

Lemma reconfigPeers_frame now ps d nk :
  control (reconfigPeers now ps d nk).2.1 = control d
  ∧ identity (reconfigPeers now ps d nk).2.1 = identity d.
Proof.
  revert d nk. induction ps as [|p ps IH]; intros d nk; cbn [reconfigPeers]; [auto|].
  pose proof (reconfigPeer_frame now p d nk) as [Hc Hi].
  destruct (reconfigPeer now p d nk) as [[err|] [d1 nk1]]; cbn [fst snd] in *; [auto|].
  destruct (IH d1 nk1) as [-> ->]. auto.
Qed.

(** X19: whatever it returns, [Reconfig] leaves the configured private key
    stored, keeps the public key in step with it if it was, and does not
    touch the switches of the device (up, closed, the state machine, the
    fwmark); on a device that is not wanted up (the bind fast path apart) it
    also leaves the configured listen port stored and no bind. *)
Theorem Reconfig_identity (now : Time) (cfg : Config) (d : Device) :
  let d' := (Reconfig now cfg d).2 in
  staticIdentity_privateKey d' = PrivateKey cfg
  ∧ (identity_ok d → identity_ok d')
  ∧ switches d' = switches d
  ∧ (isUp d = false →
     skipBindUpdate d && bool_decide (net_bind d ≠ None) = false →
     net_port d' = ListenPort cfg ∧ net_bind d' = None).
Proof.
  assert (Hwipe : ∀ d0, control (RemoveAllPeers d0) = control d0
                        ∧ identity (RemoveAllPeers d0) = identity d0).
  { intros d0. destruct (RemoveAllPeers_effect d0) as (_ & _ & _ & _ & Hc).
    split; [exact Hc|]. unfold RemoveAllPeers. cbv zeta. unfold identity. simpl.
    match goal with |- context [foldl _ ?d1 ?ks] =>
      destruct (unsafeRemovePeers_spec ks d1) as (_ & _ & _ & Hout)
    end.
    cbv zeta in Hout. unfold outside_peers in Hout. simpl in Hout.
    injection Hout; intros; congruence. }
  destruct (reconfigPrepare_effect cfg d) as (Hnil & Hsk & Hid & Hsw & Hport & Hbind).
  intros d'. subst d'. unfold Reconfig, reconfigBody.
  destruct (reconfigPrepare cfg d) as [[err|] d1]; cbn [fst snd] in *; [discriminate|].
  pose proof (BindUpdate_outside_net d1) as Hout.
  assert (Hdown : isUp d = false →
            skipBindUpdate d && bool_decide (net_bind d ≠ None) = false →
            net_port (BindUpdate d1).2 = ListenPort cfg ∧ net_bind (BindUpdate d1).2 = None).
  { intros Hd Hs. unfold switches in Hsw.
    assert (Hup1 : isUp d1 = isUp d) by (injection Hsw; auto).
    assert (Hskip1 : skipBindUpdate d1 = skipBindUpdate d) by (injection Hsw; auto).
    rewrite <- Hup1 in Hd. rewrite <- Hskip1, <- Hbind in Hs.
    destruct (BindUpdate_down d1 Hd Hs) as (_ & Hb & Hp). rewrite Hp, Hport. auto. }
  destruct (BindUpdate d1) as [[err|] d2]; cbn [fst snd] in *.
  - destruct (Hwipe d2) as [Hc Hi].
    unfold control, identity, outside_net, switches, identity_ok in *.
    injection Hc; injection Hi; injection Hout; injection Hsw; intros.
    split; [congruence|]. split; [intros Hd; specialize (Hid Hd); congruence|].
    split; [congruence|]. intros Hd Hs.
    destruct (Hdown Hd Hs) as [Hp Hb]. split; congruence.
  - pose proof (reconfigPeers_frame now (Peers cfg) d2 ∅) as [Hc3 Hi3].
    destruct (reconfigPeers now (Peers cfg) d2 ∅) as [[err|] [d3 nk]]; cbn [fst snd] in *.
    + destruct (Hwipe d3) as [Hc Hi].
      unfold control, identity, outside_net, switches, identity_ok in *.
      injection Hc; injection Hi; injection Hc3; injection Hi3; injection Hout;
        injection Hsw; intros.
      split; [congruence|]. split; [intros Hd; specialize (Hid Hd); congruence|].
      split; [congruence|]. intros Hd Hs.
      destruct (Hdown Hd Hs) as [Hp Hb]. split; congruence.
    + unfold control, identity, outside_net, switches, identity_ok in *. simpl.
      injection Hc3; injection Hi3; injection Hout; injection Hsw; intros.
      split; [congruence|]. split; [intros Hd; specialize (Hid Hd); congruence|].
      split; [congruence|]. intros Hd Hs.
      destruct (Hdown Hd Hs) as [Hp Hb]. split; congruence.
Qed.

End reconfig_rest.

Lemma removeOldPeers_spec_witness :
  peers_keyMap (@removeOldPeers sampleEnv keepFiveConfig runningDevice) !! 6%N = None
  ∧ is_Some (peers_keyMap (@removeOldPeers sampleEnv keepFiveConfig runningDevice) !! 5%N)
  ∧ EvPeerStop 6%N ∈ trace (@removeOldPeers sampleEnv keepFiveConfig runningDevice)
  ∧ EvPeerStop 5%N ∉ trace (@removeOldPeers sampleEnv keepFiveConfig runningDevice).
Proof.
  destruct (@removeOldPeers_spec sampleEnv keepFiveConfig runningDevice) as (Hmap & Hstop & _).
  split; [rewrite Hmap; reflexivity|].
  split; [rewrite Hmap; vm_compute; eauto|].
  split.
  - apply Hstop. right. split; [vm_compute; eauto|].
    intros Hin. apply list_elem_of_singleton in Hin. discriminate.
  - intros Hin. apply Hstop in Hin as [Hin|[_ Hc]]; [inversion Hin|].
    apply Hc. apply list_elem_of_here.
Defined.

(** ** Reconfiguration: one round for one peer *)

Ltac reconfig_case_eq :=
  match goal with
  | |- context [newPeer ?a ?b] => destruct (newPeer a b)
  | |- context [bool_decide (PersistentKeepalive ?p ≠ 0)] =>
      destruct (bool_decide (PersistentKeepalive p ≠ 0))
  | |- context [isUp ?x] => destruct (isUp x)
  | |- context [match endpoint ?x with _ => _ end] => destruct (endpoint x)
  | |- context [endpointsEqual ?a ?b] => destruct (endpointsEqual a b)
  | |- context [createEndpoint ?a ?b ?c] => destruct (createEndpoint a b c)
  | |- context [cidrsEqual ?a ?b] => destruct (cidrsEqual a b) eqn:?
  end.

Section reconfig_round.
Context `{!Env}.

(** X20: a round for a peer of the map whose configured endpoint string is
    not empty and differs, as an unordered list, from the addresses of its
    endpoint (or which has no endpoint), when [createEndpoint] succeeds: the
    endpoint is replaced by the new one and the keepalive interval is the
    configured one; and when the configured interval is not 0 and the device
    is up, the peer is marked for an immediate keepalive and
    [lastSentHandshake] is set back to [RekeyTimeout] before now, otherwise
    neither happens. *)
Theorem reconfigPeer_endpoint_changed (now : Time) (p : wgcfg_Peer) (d : Device)
    (nk : gmap NoisePublicKey NoisePublicKey) (peer : Peer) (ep' : Endpoint) :
  peers_keyMap d !! PublicKey p = Some peer →
  Endpoints p ≠ EmptyString →
  (∀ ep, endpoint peer = Some ep →
         ¬ strings_Split (Endpoints p) comma ≡ₚ strings_Split (Addrs ep) comma) →
  createEndpoint (PublicKey p) (Endpoints p)
    (storePeer (PublicKey p)
       (set_persistentKeepaliveInterval (PersistentKeepalive p) peer)
       (emit (EvLock (PeerLock (PublicKey p)))
          (emit (EvRUnlock PeersLock) (emit (EvRLock PeersLock) d)))) = inl ep' →
  let r := reconfigPeer now p d nk in
  let marked := bool_decide (PersistentKeepalive p ≠ 0) && isUp d in
  r.1 = None
  ∧ r.2.2 = (if marked then <[PublicKey p := PublicKey p]> nk else nk)
  ∧ EvCreateEndpoint (PublicKey p) (Endpoints p) ∈ trace r.2.1
  ∧ ∃ peer', peers_keyMap r.2.1 !! PublicKey p = Some peer'
             ∧ endpoint peer' = Some ep'
             ∧ persistentKeepaliveInterval peer' = PersistentKeepalive p
             ∧ handshake_lastSentHandshake peer'
               = (if marked then now - RekeyTimeout
                  else handshake_lastSentHandshake peer).
Proof.
  intros Hfound Hne Hdiff Hcreate r marked. subst r marked.
  assert (Hchange : match endpoint peer with
                    | Some ep => negb (endpointsEqual (Endpoints p) (Addrs ep))
                    | None => true
                    end = true).
  { destruct (endpoint peer) as [ep|] eqn:Hep; [|reflexivity].
    apply negb_true_iff. destruct (endpointsEqual _ _) eqn:Heq; [|reflexivity].
    exfalso. apply (Hdiff ep eq_refl). apply endpointsEqual_spec. exact Heq. }
  unfold reconfigPeer, LookupPeer. cbv zeta.
  change (peers_keyMap (emit (EvRLock PeersLock) d)) with (peers_keyMap d).
  rewrite Hfound, (bool_decide_eq_false_2 _ Hne).
  change (endpoint (set_persistentKeepaliveInterval (PersistentKeepalive p) peer))
    with (endpoint peer).
  cbv beta iota. rewrite Hchange. cbv beta iota delta [negb andb]. rewrite Hcreate.
  match goal with |- context [isUp ?x] => change (isUp x) with (isUp d) end.
  destruct (bool_decide (PersistentKeepalive p ≠ 0)), (isUp d); reconfig_reduce;
    destruct (cidrsEqual _ _); reconfig_reduce;
    (split; [reflexivity|]); (split; [reflexivity|]);
    (split; [rewrite (keeps_trace (f := insertAllowedIPs _ _)); simpl;
             rewrite !elem_of_app, !list_elem_of_singleton; tauto|]);
    eexists; rewrite peers_keyMap_insertAllowedIPs,
      ?peers_keyMap_set_allowedips, ?peers_keyMap_emit, ?peers_keyMap_storePeer;
    (split; [apply lookup_insert_eq|]); repeat split; reflexivity.
Qed.

(** X21: when [createEndpoint] fails in a round for a peer of the map, the
    round returns that error; the peer is still in the map with its old
    endpoint and old allowed IPs, the keepalive interval is already the
    configured one, no keepalive is marked, the routes are untouched and the
    lock of the peer was released. *)
Theorem reconfigPeer_createEndpoint_error (now : Time) (p : wgcfg_Peer) (d : Device)
    (nk : gmap NoisePublicKey NoisePublicKey) (peer : Peer) (err : error) :
  peers_keyMap d !! PublicKey p = Some peer →
  Endpoints p ≠ EmptyString →
  (∀ ep, endpoint peer = Some ep →
         ¬ strings_Split (Endpoints p) comma ≡ₚ strings_Split (Addrs ep) comma) →
  createEndpoint (PublicKey p) (Endpoints p)
    (storePeer (PublicKey p)
       (set_persistentKeepaliveInterval (PersistentKeepalive p) peer)
       (emit (EvLock (PeerLock (PublicKey p)))
          (emit (EvRUnlock PeersLock) (emit (EvRLock PeersLock) d)))) = inr err →
  let r := reconfigPeer now p d nk in
  r.1 = Some err
  ∧ r.2.2 = nk
  ∧ peers_keyMap r.2.1 !! PublicKey p
    = Some (set_persistentKeepaliveInterval (PersistentKeepalive p) peer)
  ∧ allowedips r.2.1 = allowedips d
  ∧ trace r.2.1 = trace d ++ [EvRLock PeersLock; EvRUnlock PeersLock;
                              EvLock (PeerLock (PublicKey p));
                              EvCreateEndpoint (PublicKey p) (Endpoints p);
                              EvUnlock (PeerLock (PublicKey p))].
Proof.
  intros Hfound Hne Hdiff Hcreate r. subst r.
  assert (Hchange : match endpoint peer with
                    | Some ep => negb (endpointsEqual (Endpoints p) (Addrs ep))
                    | None => true
                    end = true).
  { destruct (endpoint peer) as [ep|] eqn:Hep; [|reflexivity].
    apply negb_true_iff. destruct (endpointsEqual _ _) eqn:Heq; [|reflexivity].
    exfalso. apply (Hdiff ep eq_refl). apply endpointsEqual_spec. exact Heq. }
  unfold reconfigPeer, LookupPeer. cbv zeta.
  change (peers_keyMap (emit (EvRLock PeersLock) d)) with (peers_keyMap d).
  rewrite Hfound, (bool_decide_eq_false_2 _ Hne).
  change (endpoint (set_persistentKeepaliveInterval (PersistentKeepalive p) peer))
    with (endpoint peer).
  cbv beta iota. rewrite Hchange. cbv beta iota delta [negb andb]. rewrite Hcreate.
  reconfig_reduce.
  split; [reflexivity|]. split; [reflexivity|].
  split; [rewrite ?peers_keyMap_emit, ?peers_keyMap_storePeer; apply lookup_insert_eq|].
  split; [reflexivity|]. simpl. rewrite <- !app_assoc. reflexivity.
Qed.

(** X22: a round for a peer of the map whose configured endpoint string
    names the addresses of its endpoint, in any order, leaves the endpoint in
    place: [createEndpoint] is not called, [lastSentHandshake] is not set
    back and no keepalive is marked. *)
Theorem reconfigPeer_same_endpoints (now : Time) (p : wgcfg_Peer) (d : Device)
    (nk : gmap NoisePublicKey NoisePublicKey) (peer : Peer) (ep : Endpoint) :
  peers_keyMap d !! PublicKey p = Some peer →
  endpoint peer = Some ep →
  strings_Split (Endpoints p) comma ≡ₚ strings_Split (Addrs ep) comma →
  let r := reconfigPeer now p d nk in
  r.1 = None
  ∧ r.2.2 = nk
  ∧ emitsOnly endpointFree d r.2.1
  ∧ ∃ peer', peers_keyMap r.2.1 !! PublicKey p = Some peer'
             ∧ endpoint peer' = Some ep
             ∧ handshake_lastSentHandshake peer' = handshake_lastSentHandshake peer.
Proof.
  intros Hfound Hep Hperm r. subst r.
  assert (Hequal : endpointsEqual (Endpoints p) (Addrs ep) = true)
    by (apply endpointsEqual_spec; exact Hperm).
  unfold reconfigPeer, LookupPeer. cbv zeta.
  change (peers_keyMap (emit (EvRLock PeersLock) d)) with (peers_keyMap d).
  rewrite Hfound.
  change (endpoint (set_persistentKeepaliveInterval (PersistentKeepalive p) peer))
    with (endpoint peer).
  cbv beta iota. rewrite Hep, Hequal.
  destruct (bool_decide (Endpoints p = EmptyString)); reconfig_reduce;
    destruct (cidrsEqual _ _); reconfig_reduce;
    (split; [reflexivity|]); (split; [reflexivity|]);
    (split; [emits_only|]);
    eexists; rewrite peers_keyMap_insertAllowedIPs,
      ?peers_keyMap_set_allowedips, ?peers_keyMap_emit, ?peers_keyMap_storePeer;
    (split; [apply lookup_insert_eq|]); (split; [exact Hep|reflexivity]).
Qed.

(** What a round that returns no error leaves stored for its peer. *)
Lemma reconfigPeer_stored (now : Time) (p : wgcfg_Peer) (d : Device)
    (nk : gmap NoisePublicKey NoisePublicKey) :
  let r := reconfigPeer now p d nk in
  r.1 = None →
  ∃ peer', peers_keyMap r.2.1 !! PublicKey p = Some peer'
           ∧ persistentKeepaliveInterval peer' = PersistentKeepalive p
           ∧ length (allowedIPs peer') = length (AllowedIPs p)
           ∧ (∀ v, v ∈ AllowedIPs p → v ∈ allowedIPs peer')
           ∧ (NoDup (AllowedIPs p) → allowedIPs peer' ≡ₚ AllowedIPs p).
Proof.
  intros r. subst r. unfold reconfigPeer, LookupPeer, NewPeer. cbv zeta.
  change (peers_keyMap (emit (EvRLock PeersLock) d)) with (peers_keyMap d).
  destruct (peers_keyMap d !! PublicKey p) as [peer|];
    destruct (bool_decide (Endpoints p = EmptyString));
    repeat first [ progress reconfig_reduce | reconfig_case_eq ];
    intros Hok; try discriminate Hok;
    eexists; rewrite peers_keyMap_insertAllowedIPs,
      ?peers_keyMap_set_allowedips, ?peers_keyMap_emit, ?peers_keyMap_storePeer;
    (split; [apply lookup_insert_eq|]); (split; [reflexivity|]);
    first
      [ (* the list was replaced *)
        split; [reflexivity|]; split; [intros v Hv; exact Hv|]; intros _; reflexivity
      | (* the list was kept because [cidrsEqual] accepted it *)
        match goal with
        | Hc : cidrsEqual _ _ = true |- _ =>
            split; [apply cidrsEqual_spec in Hc; apply Hc|];
            split; [apply cidrsEqual_spec in Hc; apply Hc|];
            intros Hnodup; apply (cidrsEqual_NoDup _ _ Hnodup); exact Hc
        end ].
Qed.

(** X23: after a round that returns no error the peer is in the map with
    the configured keepalive interval, and its allowed IPs have the configured
    length and contain every configured prefix; when the configuration
    repeats no prefix they are the configured prefixes up to order. *)
Theorem reconfigPeer_stores (now : Time) (p : wgcfg_Peer) (d : Device)
    (nk : gmap NoisePublicKey NoisePublicKey) :
  let r := reconfigPeer now p d nk in
  r.1 = None →
  ∃ peer', peers_keyMap r.2.1 !! PublicKey p = Some peer'
           ∧ persistentKeepaliveInterval peer' = PersistentKeepalive p
           ∧ length (allowedIPs peer') = length (AllowedIPs p)
           ∧ (∀ v, v ∈ AllowedIPs p → v ∈ allowedIPs peer')
           ∧ (NoDup (AllowedIPs p) → allowedIPs peer' ≡ₚ AllowedIPs p).
Proof. apply reconfigPeer_stored. Qed.

End reconfig_round.

Lemma reconfigPeer_endpoint_changed_witness :
  (@reconfigPeer sampleEnv 10000000000 movedPeer runningDevice ∅).2.2 = {[ 5%N := 5%N ]}
  ∧ ∃ peer',
      peers_keyMap (@reconfigPeer sampleEnv 10000000000 movedPeer runningDevice ∅).2.1 !! 5%N
      = Some peer'
      ∧ endpoint peer' = Some (mkEndpoint "198.51.100.7:51820")
      ∧ persistentKeepaliveInterval peer' = 10
      ∧ handshake_lastSentHandshake peer' = 5000000000.
Proof.
  destruct (@reconfigPeer_endpoint_changed sampleEnv 10000000000 movedPeer runningDevice ∅
              (mkPeer 5%N 15%N 0 25 (Some (mkEndpoint "192.0.2.1:51820")) [])
              (mkEndpoint "198.51.100.7:51820")
              ltac:(vm_compute; reflexivity) ltac:(discriminate)
              ltac:(intros ep Hep Hperm; apply endpointsEqual_spec in Hperm;
                    injection Hep as <-; vm_compute in Hperm; discriminate)
              eq_refl)
    as (_ & Hnk & _ & Hpeer).
  split; [exact Hnk|exact Hpeer].
Defined.

Lemma reconfigPeer_createEndpoint_error_witness :
  (@reconfigPeer failingCloseEnv 0 unresolvablePeer runningDevice ∅).1
  = Some (foreign_error "lookup nowhere: no such host")
  ∧ peers_keyMap (@reconfigPeer failingCloseEnv 0 unresolvablePeer runningDevice ∅).2.1 !! 5%N
    = Some (mkPeer 5%N 15%N 0 10 (Some (mkEndpoint "192.0.2.1:51820")) []).
Proof.
  destruct (@reconfigPeer_createEndpoint_error failingCloseEnv 0 unresolvablePeer
              runningDevice ∅
              (mkPeer 5%N 15%N 0 25 (Some (mkEndpoint "192.0.2.1:51820")) [])
              (foreign_error "lookup nowhere: no such host")
              ltac:(vm_compute; reflexivity) ltac:(discriminate)
              ltac:(intros ep Hep Hperm; apply endpointsEqual_spec in Hperm;
                    injection Hep as <-; vm_compute in Hperm; discriminate)
              eq_refl)
    as (Herr & _ & Hpeer & _).
  split; [exact Herr|exact Hpeer].
Defined.

Lemma reconfigPeer_same_endpoints_witness :
  (@reconfigPeer sampleEnv 0 reorderedPeer twoAddressDevice ∅).2.2 = ∅
  ∧ ∃ peer',
      peers_keyMap (@reconfigPeer sampleEnv 0 reorderedPeer twoAddressDevice ∅).2.1 !! 5%N
      = Some peer'
      ∧ endpoint peer' = Some (mkEndpoint "192.0.2.1:51820,198.51.100.7:51820")
      ∧ handshake_lastSentHandshake peer' = 77.
Proof.
  destruct (@reconfigPeer_same_endpoints sampleEnv 0 reorderedPeer twoAddressDevice ∅
              (mkPeer 5%N 15%N 77 25
                 (Some (mkEndpoint "192.0.2.1:51820,198.51.100.7:51820")) [])
              (mkEndpoint "192.0.2.1:51820,198.51.100.7:51820")
              ltac:(vm_compute; reflexivity) eq_refl
              ltac:(apply endpointsEqual_spec; vm_compute; reflexivity))
    as (_ & Hnk & _ & Hpeer).
  split; [exact Hnk|exact Hpeer].
Defined.

Lemma reconfigPeer_stores_witness :
  ∃ peer',
    peers_keyMap (@reconfigPeer sampleEnv 10000000000 movedPeer runningDevice ∅).2.1 !! 5%N
    = Some peer'
    ∧ persistentKeepaliveInterval peer' = 10
    ∧ allowedIPs peer' ≡ₚ [mkIPPrefix (IPv4 1) 32].
Proof.
  destruct (@reconfigPeer_stores sampleEnv 10000000000 movedPeer runningDevice ∅
              ltac:(vm_compute; reflexivity))
    as (peer' & Hpeer & Hka & _ & _ & Hperm).
  exists peer'. split; [exact Hpeer|]. split; [exact Hka|].
  apply Hperm. apply NoDup_singleton.
Defined.

(** ** Closing the device *)

Section close_props.
Context `{!Env}.

Lemma BindClose_effect (d : Device) :
  net_bind (BindClose d).2 = None
  ∧ (∀ e, e ∈ trace d → e ∈ trace (BindClose d).2)
  ∧ (∀ b, net_bind d = Some b → EvBindClose b ∈ trace (BindClose d).2).
Proof.
  unfold BindClose.
  pose proof (unsafeCloseBind_bind (emit (EvLock NetLock) d)) as Hb.
  destruct (unsafeCloseBind_trace (emit (EvLock NetLock) d)) as (Hkeep & Hclose & _).
  destruct (unsafeCloseBind (emit (EvLock NetLock) d)) as [err d1]. cbn [fst snd] in *.
  split; [exact Hb|]. split.
  - intros e He. simpl. apply elem_of_app. left. apply Hkeep. simpl.
    apply elem_of_app. left. exact He.
  - intros b Hbind. simpl. apply elem_of_app. left. apply Hclose. exact Hbind.
Qed.

(** Whenever [FlushPacketQueues] returns, both queues are empty, the
    elements of the decryption queue were dropped in their order, and
    nothing else has changed. *)
Lemma FlushPacketQueues_some (pick : nat → bool) (fuel round : nat) (rt rt' : Runtime) :
  FlushPacketQueues pick fuel round rt = Some rt' →
  rt' = mkRuntime (set_queue_handshake [] (device rt)) (tun_device_closes rt)
          (queue_encryption_wg rt) (signals_stop_closes rt) (rate_limiter_closes rt)
          [] (dropped rt ++ queue_decryption rt).
Proof.
  revert round rt. induction fuel as [|fuel IH]; intros round rt; [discriminate|].
  destruct rt as [d a b c e qd dr].
  destruct d as [? ? ? ? ? ? ? ? ? ? ? ? ? ? ? qh tr].
  destruct qd as [|elem rest], qh as [|h hrest]; simpl.
  - intros [= <-]. rewrite app_nil_r. reflexivity.
  - intros Hf. apply IH in Hf. rewrite Hf. reflexivity.
  - intros Hf. apply IH in Hf. rewrite Hf. simpl. rewrite <- app_assoc. reflexivity.
  - destruct (pick round); intros Hf; apply IH in Hf; rewrite Hf; simpl;
      rewrite <- ?app_assoc; reflexivity.
Qed.

(** One round more than the elements waiting is enough fuel. *)
Lemma FlushPacketQueues_returns (pick : nat → bool) (fuel round : nat) (rt : Runtime) :
  (length (queue_decryption rt) + length (queue_handshake (device rt)) < fuel)%nat →
  is_Some (FlushPacketQueues pick fuel round rt).
Proof.
  revert round rt. induction fuel as [|fuel IH]; intros round rt Hfuel; [lia|].
  destruct rt as [d a b c e qd dr].
  destruct d as [? ? ? ? ? ? ? ? ? ? ? ? ? ? ? qh tr].
  destruct qd as [|elem rest], qh as [|h hrest]; simpl in *.
  - eexists. reflexivity.
  - apply IH. simpl. lia.
  - apply IH. simpl. lia.
  - destruct (pick round); apply IH; simpl; lia.
Qed.

(** X24: with one round more than the elements waiting in the two
    queues, [FlushPacketQueues] returns, whatever queue the [select] serves
    when both are ready: both queues are empty, every element of the
    decryption queue was dropped exactly once, in the order of the queue, the
    handshake elements were discarded without a drop, and nothing else has
    changed. *)
Theorem FlushPacketQueues_drains (pick : nat → bool) (fuel round : nat) (rt : Runtime) :
  (length (queue_decryption rt) + length (queue_handshake (device rt)) < fuel)%nat →
  FlushPacketQueues pick fuel round rt
  = Some (mkRuntime (set_queue_handshake [] (device rt)) (tun_device_closes rt)
            (queue_encryption_wg rt) (signals_stop_closes rt) (rate_limiter_closes rt)
            [] (dropped rt ++ queue_decryption rt)).
Proof.
  intros Hfuel. destruct (FlushPacketQueues_returns pick fuel round rt Hfuel) as [rt' Hf].
  rewrite Hf. f_equal. apply (FlushPacketQueues_some _ _ _ _ _ Hf).
Qed.

(** What [Close] does to a device that was not closed, when it returns. *)
Lemma Close_effect (pick : nat → bool) (fuel : nat) (rt rt' : Runtime) :
  isClosed (device rt) = false →
  Close pick fuel rt = Some rt' →
  let d := device rt in
  let d' := device rt' in
  (isClosed d' = true ∧ isUp d' = false ∧ state_changing d' = false
   ∧ state_current d' = state_current d)
  ∧ (net_bind d' = None ∧ ∀ b, net_bind d = Some b → EvBindClose b ∈ trace d')
  ∧ (peers_keyMap d' = ∅
     ∧ (∀ k, is_Some (peers_keyMap d !! k) → EvPeerStop k ∈ trace d')
     ∧ ∀ r, r ∈ allowedips d' ↔ r ∈ allowedips d ∧ peers_keyMap d !! route_peer r = None)
  ∧ (queue_handshake d' = [] ∧ queue_decryption rt' = []
     ∧ dropped rt' = dropped rt ++ queue_decryption rt)
  ∧ (tun_device_closes rt' = S (tun_device_closes rt)
     ∧ queue_encryption_wg rt' = queue_encryption_wg rt - 1
     ∧ signals_stop_closes rt' = S (signals_stop_closes rt)
     ∧ rate_limiter_closes rt' = S (rate_limiter_closes rt)).
Proof.
  intros Hopen. unfold Close. rewrite Hopen. cbv zeta.
  set (d := device rt).
  set (d1 := emit (EvLock StateLock) (set_state_changing true (set_isClosed true d))).
  pose proof (BindClose_outside_net d1) as Hout.
  destruct (BindClose_effect d1) as (Hbind & Hkeep & Hclosed).
  destruct (BindClose d1) as [err d2]. cbn [fst snd] in *.
  destruct (RemoveAllPeers_effect (set_isUp false d2))
    as (Hmap & (stops & Hperm & Htrace) & Hroutes & _ & Hcontrol).
  set (d3 := RemoveAllPeers (set_isUp false d2)) in *. clearbody d3.
  unfold outside_net in Hout. unfold control in Hcontrol. simpl in Hcontrol.
  assert (Hpeers2 : peers_keyMap d2 = peers_keyMap d) by (injection Hout; auto).
  assert (Hroutes2 : allowedips d2 = allowedips d) by (injection Hout; auto).
  assert (Hclosed2 : isClosed d2 = true) by (injection Hout; auto).
  assert (Hcurrent2 : state_current d2 = state_current d) by (injection Hout; auto).
  assert (Hclosed3 : isClosed d3 = true) by (injection Hcontrol; intros; congruence).
  assert (Hup3 : isUp d3 = false) by (injection Hcontrol; auto).
  assert (Hcurrent3 : state_current d3 = state_current d)
    by (injection Hcontrol; intros; congruence).
  assert (Hbind3 : net_bind d3 = None) by (injection Hcontrol; intros; congruence).
  assert (Hbind1 : net_bind d1 = net_bind d) by reflexivity.
  clearbody d1.
  destruct (FlushPacketQueues pick fuel 0 _) as [rt1|] eqn:Hflush; [|discriminate].
  apply FlushPacketQueues_some in Hflush. subst rt1. intros [= <-]. cbn [device
    tun_device_closes queue_encryption_wg signals_stop_closes rate_limiter_closes
    queue_decryption dropped].
  split; [repeat split; assumption|].
  split; [split; [exact Hbind3|]|].
  { intros b Hb. simpl. apply elem_of_app. left. rewrite Htrace.
    apply elem_of_app. left. apply Hclosed. rewrite Hbind1. exact Hb. }
  split; [split; [exact Hmap|split]|].
  { intros k [p Hk]. simpl. apply elem_of_app. left. rewrite Htrace.
    rewrite !elem_of_app. right. right. apply list_elem_of_fmap. exists k.
    split; [reflexivity|].
    rewrite Hperm. apply list_elem_of_fmap. exists (k, p). split; [reflexivity|].
    apply elem_of_map_to_list. simpl. rewrite Hpeers2. exact Hk. }
  { intros r. simpl. rewrite Hroutes. simpl. rewrite Hroutes2, Hpeers2. reflexivity. }
  split; repeat split; reflexivity.
Qed.

(** X25: [Close] on a device that is not closed, with enough rounds for
    the queues, returns with the device closed and down, the flag [changing]
    cleared and [state.current] as it was; the bind is closed and nil, so
    [Bind] returns nil; every peer was stopped and the map is empty, and the
    routes of the peers of the map are gone; both queues are empty and the
    elements of the decryption queue were dropped; the tunnel device, the stop
    channel and the rate limiter were each closed once and the counter of the
    encryption queue went down by one. *)
Theorem Close_spec (pick : nat → bool) (fuel : nat) (rt : Runtime) :
  isClosed (device rt) = false →
  (length (queue_decryption rt) + length (queue_handshake (device rt)) < fuel)%nat →
  ∃ rt', Close pick fuel rt = Some rt'
    ∧ (let d := device rt in
       let d' := device rt' in
       (isClosed d' = true ∧ isUp d' = false ∧ state_changing d' = false
        ∧ state_current d' = state_current d)
       ∧ (net_bind d' = None ∧ (Device_Bind d').1 = None
          ∧ ∀ b, net_bind d = Some b → EvBindClose b ∈ trace d')
       ∧ (peers_keyMap d' = ∅
          ∧ (∀ k, is_Some (peers_keyMap d !! k) → EvPeerStop k ∈ trace d')
          ∧ ∀ r, r ∈ allowedips d' ↔
                 r ∈ allowedips d ∧ peers_keyMap d !! route_peer r = None)
       ∧ (queue_handshake d' = [] ∧ queue_decryption rt' = []
          ∧ dropped rt' = dropped rt ++ queue_decryption rt)
       ∧ (tun_device_closes rt' = S (tun_device_closes rt)
          ∧ queue_encryption_wg rt' = queue_encryption_wg rt - 1
          ∧ signals_stop_closes rt' = S (signals_stop_closes rt)
          ∧ rate_limiter_closes rt' = S (rate_limiter_closes rt))).
Proof.
  intros Hopen Hfuel.
  assert (Hreturns : is_Some (Close pick fuel rt)).
  { unfold Close. rewrite Hopen. cbv zeta.
    pose proof (BindClose_outside_net
                  (emit (EvLock StateLock)
                     (set_state_changing true (set_isClosed true (device rt))))) as Hout.
    destruct (BindClose _) as [err d2]. cbn [fst snd] in *.
    destruct (RemoveAllPeers_effect (set_isUp false d2)) as (_ & _ & _ & _ & Hcontrol).
    set (d3 := RemoveAllPeers (set_isUp false d2)) in *. clearbody d3.
    assert (Hq : queue_handshake d3 = queue_handshake (device rt)).
    { unfold control in Hcontrol. simpl in Hcontrol. unfold outside_net in Hout.
      assert (H2 : queue_handshake d2 = queue_handshake (device rt))
        by (injection Hout; auto).
      injection Hcontrol; intros; congruence. }
    match goal with
    | |- context [FlushPacketQueues pick fuel 0 ?r] =>
        destruct (FlushPacketQueues_returns pick fuel 0 r) as [rt1 Hflush];
          [cbn [device queue_decryption]; rewrite Hq; exact Hfuel|rewrite Hflush]
    end.
    eexists. reflexivity. }
  destruct Hreturns as [rt' Hclose]. exists rt'. split; [exact Hclose|].
  destruct (Close_effect pick fuel rt rt' Hopen Hclose)
    as (Hflags & (Hbind & Hclosed) & Hpeers & Hqueues & Hcounts).
  cbv zeta. split; [exact Hflags|]. split; [|split; [exact Hpeers|split; assumption]].
  split; [exact Hbind|]. split; [exact Hbind|exact Hclosed].
Qed.

(** X26: [Close] closes once. After [Close] has returned, on whatever
    device, a further [Close] returns at once and changes nothing (the tunnel
    device, the stop channel and the rate limiter are not closed again and the
    counter of the encryption queue is not lowered again), and [Up] fails with
    the error "device is closed" and changes nothing. *)
Theorem Close_final (pick : nat → bool) (fuel : nat) (rt rt' : Runtime) :
  Close pick fuel rt = Some rt' →
  isClosed (device rt') = true
  ∧ (∀ pick' fuel', Close pick' fuel' rt' = Some rt')
  ∧ (∀ fuel', Up fuel' (device rt')
              = Some (Some (errors_New "device is closed"), device rt')).
Proof.
  intros Hclose.
  assert (Hclosed : isClosed (device rt') = true).
  { destruct (isClosed (device rt)) eqn:Hwas.
    - unfold Close in Hclose. rewrite Hwas in Hclose. injection Hclose as <-. exact Hwas.
    - destruct (Close_effect pick fuel rt rt' Hwas Hclose) as ((Hc & _) & _). exact Hc. }
  split; [exact Hclosed|]. split.
  - intros pick' fuel'. unfold Close. rewrite Hclosed. reflexivity.
  - intros fuel'. unfold Up. rewrite Hclosed. reflexivity.
Qed.

End close_props.

Lemma FlushPacketQueues_drains_witness :
  @FlushPacketQueues Nat.even 6 0 runningRuntime
  = Some (mkRuntime (set_queue_handshake [] runningDevice) 0 3 0 0 [] [7%N; 8%N; 9%N]).
Proof.
  apply (FlushPacketQueues_drains Nat.even 6 0 runningRuntime). simpl. lia.
Defined.

Lemma Close_spec_witness :
  ∃ rt', @Close sampleEnv Nat.even 6 runningRuntime = Some rt'
         ∧ isClosed (device rt') = true
         ∧ EvBindClose 1%N ∈ trace (device rt')
         ∧ EvPeerStop 6%N ∈ trace (device rt')
         ∧ dropped rt' = [7%N; 8%N; 9%N]
         ∧ queue_encryption_wg rt' = 2
         ∧ signals_stop_closes rt' = 1%nat.
Proof.
  destruct (@Close_spec sampleEnv Nat.even 6 runningRuntime eq_refl ltac:(simpl; lia))
    as (rt' & Hclose & (Hclosed & _) & (_ & _ & Hbind) & (_ & Hstop & _)
        & (_ & _ & Hdropped) & (_ & Hwg & Hstops & _)).
  exists rt'. split; [exact Hclose|]. split; [exact Hclosed|].
  split; [apply (Hbind 1%N); reflexivity|].
  split; [apply (Hstop 6%N); eexists; vm_compute; reflexivity|].
  split; [exact Hdropped|]. split; [exact Hwg|exact Hstops].
Defined.

Lemma Close_final_witness :
  ∃ rt', @Close sampleEnv Nat.even 6 runningRuntime = Some rt'
         ∧ @Close sampleEnv Nat.odd 0 rt' = Some rt'
         ∧ @Up sampleEnv 3 (device rt')
           = Some (Some (errors_New "device is closed"), device rt').
Proof.
  destruct (@Close sampleEnv Nat.even 6 runningRuntime) as [rt'|] eqn:Hclose;
    [|vm_compute in Hclose; discriminate].
  exists rt'. split; [reflexivity|].
  destruct (@Close_final sampleEnv Nat.even 6 runningRuntime rt' Hclose)
    as (_ & Hagain & Hup).
  split; [apply Hagain|apply Hup].
Defined.

(** ** Reconfiguration: the peers after a success *)

Section reconfig_success.
Context `{!Env}.

(** A round touches no entry of the map but the one of its peer. *)
Lemma reconfigPeer_others now p d nk k :
  k ≠ PublicKey p →
  peers_keyMap (reconfigPeer now p d nk).2.1 !! k = peers_keyMap d !! k.
Proof.
  intros Hne. unfold reconfigPeer, LookupPeer, NewPeer. cbv zeta.
  change (peers_keyMap (emit (EvRLock PeersLock) d)) with (peers_keyMap d).
  destruct (peers_keyMap d !! PublicKey p) as [peer|];
    destruct (bool_decide (Endpoints p = EmptyString));
    repeat first [ progress reconfig_reduce | reconfig_case_eq ];
    repeat first
      [ rewrite peers_keyMap_insertAllowedIPs
      | rewrite peers_keyMap_set_allowedips
      | rewrite peers_keyMap_emit
      | rewrite peers_keyMap_storePeer
      | rewrite peers_keyMap_set_peers_empty
      | rewrite peers_keyMap_set_peers_keyMap
      | rewrite lookup_insert_ne by (intros Heq; apply Hne; symmetry; exact Heq) ];
    reflexivity.
Qed.

Lemma reconfigPeers_others now ps d nk k :
  k ∉ PublicKey <$> ps →
  peers_keyMap (reconfigPeers now ps d nk).2.1 !! k = peers_keyMap d !! k.
Proof.
  revert d nk. induction ps as [|p ps IH]; intros d nk Hk; cbn [reconfigPeers]; [reflexivity|].
  rewrite fmap_cons, not_elem_of_cons in Hk. destruct Hk as [Hne Hk].
  pose proof (reconfigPeer_others now p d nk k Hne) as Hround.
  destruct (reconfigPeer now p d nk) as [[err|] [d1 nk1]]; cbn [fst snd] in *;
    [exact Hround|].
  rewrite (IH d1 nk1 Hk). exact Hround.
Qed.

(** The loop over [cfg.Peers], when it returns no error. *)
Lemma reconfigPeers_stored now ps d nk :
  (reconfigPeers now ps d nk).1 = None →
  let d' := (reconfigPeers now ps d nk).2.1 in
  (∀ k, is_Some (peers_keyMap d' !! k) ↔
        is_Some (peers_keyMap d !! k) ∨ k ∈ PublicKey <$> ps)
  ∧ (NoDup (PublicKey <$> ps) →
     ∀ p, p ∈ ps →
          ∃ peer', peers_keyMap d' !! PublicKey p = Some peer'
                   ∧ persistentKeepaliveInterval peer' = PersistentKeepalive p
                   ∧ length (allowedIPs peer') = length (AllowedIPs p)
                   ∧ ∀ v, v ∈ AllowedIPs p → v ∈ allowedIPs peer').
Proof.
  revert d nk. induction ps as [|p0 ps IH]; intros d nk; cbn [reconfigPeers].
  { intros _. cbn [fst snd]. split.
    - intros k. rewrite fmap_nil, elem_of_nil. tauto.
    - intros _ p Hp. apply elem_of_nil in Hp. destruct Hp. }
  pose proof (reconfigPeer_stored now p0 d nk) as Hstored.
  pose proof (λ k, reconfigPeer_others now p0 d nk k) as Hothers.
  cbv zeta in Hstored.
  destruct (reconfigPeer now p0 d nk) as [[err|] [d1 nk1]]; cbn [fst snd] in *;
    [discriminate|].
  intros Hok. destruct (IH d1 nk1 Hok) as [Hkeys Hpeers]. cbv zeta in *.
  destruct (Hstored eq_refl) as (peer0 & Hfound0 & Hka0 & Hlen0 & Hin0 & _).
  split.
  - intros k. rewrite Hkeys, fmap_cons, elem_of_cons.
    destruct (decide (k = PublicKey p0)) as [->|Hne].
    + rewrite Hfound0. split; [auto|]. intros _. left. eexists. reflexivity.
    + rewrite (Hothers k Hne). tauto.
  - rewrite fmap_cons, NoDup_cons. intros [Hfresh Hnodup] p Hp.
    apply elem_of_cons in Hp as [->|Hp].
    + exists peer0. rewrite (reconfigPeers_others now ps d1 nk1 _ Hfresh). auto.
    + apply (Hpeers Hnodup p Hp).
Qed.

Lemma peers_keyMap_emits es d : peers_keyMap (emits es d) = peers_keyMap d.
Proof. reflexivity. Qed.

(** The steps before the bind update leave no peer outside the
    configuration in the map. *)
Lemma reconfigPrepare_peers cfg d k :
  is_Some (peers_keyMap (reconfigPrepare cfg d).2 !! k) → k ∈ PublicKey <$> Peers cfg.
Proof.
  unfold reconfigPrepare.
  destruct (removeOldPeers_effect cfg d) as (Hmap0 & _). cbv zeta in Hmap0.
  set (d0 := removeOldPeers cfg d) in *. clearbody d0.
  assert (Hreset : is_Some (peers_keyMap (resetPrivateKey cfg d0).2 !! k) →
                   is_Some (peers_keyMap d0 !! k)).
  { unfold resetPrivateKey. cbv zeta.
    change (staticIdentity_privateKey (emit (EvLock StaticIdentityLock) d0))
      with (staticIdentity_privateKey d0).
    destruct (decide (staticIdentity_privateKey d0 = PrivateKey cfg)) as [Hsame|Hdiff].
    - rewrite (bool_decide_eq_true_2 _ Hsame). simpl. auto.
    - rewrite (bool_decide_eq_false_2 _ Hdiff). simpl.
      set (d1 := emit (EvUnlock StaticIdentityLock) (emit (EvLock StaticIdentityLock) d0)).
      destruct (SetPrivateKey_changed (PrivateKey cfg) d1)
        as (locked & stops & expired & _ & _ & _ & Hmap & _).
      { intros Heq. apply Hdiff. rewrite Heq. reflexivity. }
      rewrite (Hmap k).
      change (peers_keyMap d1) with (peers_keyMap d0).
      destruct (peers_keyMap d0 !! k); [eauto|intros [? [=]]]. }
  destruct (resetPrivateKey cfg d0) as [[err|] d2]; cbn [fst snd] in *;
    intros Hk; apply Hreset in Hk; rewrite Hmap0 in Hk;
    (destruct (decide (k ∈ PublicKey <$> Peers cfg)); [assumption|destruct Hk; discriminate]).
Qed.

(** X27: when [Reconfig] returns no error, the peers of the map are
    exactly the peers of the configuration; and when the configuration names
    no peer twice, each of them is stored with the configured keepalive
    interval and with allowed IPs of the configured length that contain every
    configured prefix. *)
Theorem Reconfig_peer_set (now : Time) (cfg : Config) (d : Device) :
  (Reconfig now cfg d).1 = None →
  let d' := (Reconfig now cfg d).2 in
  (∀ k, is_Some (peers_keyMap d' !! k) ↔ k ∈ PublicKey <$> Peers cfg)
  ∧ (NoDup (PublicKey <$> Peers cfg) →
     ∀ p, p ∈ Peers cfg →
          ∃ peer', peers_keyMap d' !! PublicKey p = Some peer'
                   ∧ persistentKeepaliveInterval peer' = PersistentKeepalive p
                   ∧ length (allowedIPs peer') = length (AllowedIPs p)
                   ∧ ∀ v, v ∈ AllowedIPs p → v ∈ allowedIPs peer').
Proof.
  unfold Reconfig, reconfigBody.
  pose proof (λ k, reconfigPrepare_peers cfg d k) as Hprep.
  destruct (reconfigPrepare cfg d) as [[err|] d1]; cbn [fst snd] in *;
    [intros [=]|].
  pose proof (BindUpdate_outside_net d1) as Hout.
  destruct (BindUpdate d1) as [[err|] d2]; cbn [fst snd] in *; [intros [=]|].
  assert (Hmap2 : peers_keyMap d2 = peers_keyMap d1)
    by (unfold outside_net in Hout; injection Hout; auto).
  pose proof (reconfigPeers_stored now (Peers cfg) d2 ∅) as Hloop.
  destruct (reconfigPeers now (Peers cfg) d2 ∅) as [[err|] [d3 nk]]; cbn [fst snd] in *;
    [intros [=]|].
  intros _. destruct (Hloop eq_refl) as [Hkeys Hpeers]. cbv zeta in *.
  rewrite peers_keyMap_emits. split; [|exact Hpeers].
  intros k. rewrite Hkeys, Hmap2. split; [|auto].
  intros [Hk|Hk]; [apply Hprep; exact Hk|exact Hk].
Qed.

End reconfig_success.

Lemma Reconfig_peer_set_witness :
  (∀ k, is_Some (peers_keyMap (@Reconfig sampleEnv 0 keepFiveConfig runningDevice).2 !! k)
        ↔ k = 5%N)
  ∧ ∃ peer', peers_keyMap (@Reconfig sampleEnv 0 keepFiveConfig runningDevice).2 !! 5%N
             = Some peer'
             ∧ persistentKeepaliveInterval peer' = 25
             ∧ mkIPPrefix (IPv4 1) 32 ∈ allowedIPs peer'.
Proof.
  destruct (@Reconfig_peer_set sampleEnv 0 keepFiveConfig runningDevice
              ltac:(vm_compute; reflexivity)) as [Hkeys Hpeers].
  split.
  - intros k. rewrite (Hkeys k). simpl. rewrite list_elem_of_singleton. reflexivity.
  - destruct (Hpeers ltac:(apply NoDup_singleton)
                (mkCfgPeer 5%N "192.0.2.1:51820" [mkIPPrefix (IPv4 1) 32] 25)
                ltac:(apply list_elem_of_here)) as (peer' & Hfound & Hka & _ & Hin).
    exists peer'. split; [exact Hfound|]. split; [exact Hka|].
    apply Hin. apply list_elem_of_here.
Defined.
